(** * govers: import-path version rewriting, verified against its source

    The development embeds the Go sources of the repository:
    - [src/tags.go]: the quoted-field splitter behind the [-tags] flag;
    - [src/govers.go]: the first implementation, which compares whole
      import paths through [canonicalPath];
    - the implementation with [pathPat] and [fixPath];
    - the implementation with [pathVersionPat], [fixPath] and the flags
      [-m], [-n] and [-d].

    Go strings are byte sequences and are modelled as [string]; maps are
    [gmap]s; the calls into the Go standard library that reach the outside
    world (reading directories, [build.Import], the parser and the printer)
    are parameters of the sections that use them. *)

From Stdlib Require Import Ascii String List Arith Lia Bool.
From stdpp Require Import base option list gmap strings.

Local Open Scope list_scope.

(** ** Go string primitives *)

Module Go.

(** [len(s)] *)
Definition len (s : string) : nat := String.length s.

(** [s[:n]]; the callers keep [n <= len(s)]. *)
Fixpoint take (n : nat) (s : string) : string :=
  match n, s with
  | S n', String c s' => String c (take n' s')
  | _, _ => EmptyString
  end.

(** [s[n:]]; the callers keep [n <= len(s)]. *)
Fixpoint drop (n : nat) (s : string) : string :=
  match n, s with
  | S n', String _ s' => drop n' s'
  | _, _ => s
  end.

(** [strings.HasPrefix(s, prefix)] *)
Fixpoint HasPrefix (s prefix : string) : bool :=
  match prefix, s with
  | EmptyString, _ => true
  | String p prefix', String c s' =>
      if Ascii.eqb c p then HasPrefix s' prefix' else false
  | String _ _, EmptyString => false
  end.

(** [strings.HasSuffix(s, suffix)] *)
Definition HasSuffix (s suffix : string) : bool :=
  (len suffix <=? len s)
  && String.eqb (drop (len s - len suffix) s) suffix.

(** The number of leading bytes of [s] that do not satisfy [stop]:
    the loop [for i < len(s) && !stop(s[i]) { i++ }]. *)
Fixpoint scan (stop : ascii -> bool) (s : string) : nat :=
  match s with
  | EmptyString => 0
  | String c s' => if stop c then 0 else S (scan stop s')
  end.

End Go.

(** ** [src/tags.go] *)

Module Tags.
Import Go.

Definition isSpaceByte (c : ascii) : bool :=
  Ascii.eqb c " " || Ascii.eqb c "009" || Ascii.eqb c "010"
  || Ascii.eqb c "013".

Definition isQuoteByte (c : ascii) : bool :=
  Ascii.eqb c "034" || Ascii.eqb c "'".

(** The inner loop [for len(s) > 0 && isSpaceByte(s[0]) { s = s[1:] }]. *)
Fixpoint skipSpaces (s : string) : string :=
  match s with
  | String c s' => if isSpaceByte c then skipSpaces s' else s
  | EmptyString => EmptyString
  end.

(** What [splitQuotedFields] returns: the fields and a nil error, or nil
    and the error [unterminated %c string] for the quote [%c]. *)
Inductive result : Type :=
| Fields (f : list string)
| Unterminated (quote : ascii).

(** The outer loop [for len(s) > 0 { ... }] with [f] the fields
    appended so far.  Each iteration that does not leave the loop
    shortens [s], so [fuel] bounds the number of iterations; [None]
    is running out of it. *)
Fixpoint splitLoop (fuel : nat) (s : string) (f : list string)
  : option result :=
  match fuel with
  | O => match s with EmptyString => Some (Fields f) | _ => None end
  | S fuel' =>
      if len s =? 0 then Some (Fields f) else
      let s := skipSpaces s in
      match s with
      | EmptyString => Some (Fields f)
      | String c s1 =>
          if isQuoteByte c then
            let quote := c in
            let s := s1 in
            let i := scan (Ascii.eqb quote) s in
            if len s <=? i then Some (Unterminated quote)
            else splitLoop fuel' (drop (i + 1) s) (f ++ [take i s])
          else
            let i := scan isSpaceByte s in
            splitLoop fuel' (drop i s) (f ++ [take i s])
      end
  end.

Definition splitQuotedFields (s : string) : option result :=
  splitLoop (len s) s [].

(** [tagsFlag.Set]: the new flag value and whether an error is returned.
    A nil slice is replaced by an empty one; both are [[]] here. *)
Definition Set_ (s : string) : option (list string * option ascii) :=
  match splitQuotedFields s with
  | Some (Fields f) => Some (f, None)
  | Some (Unterminated q) => Some ([], Some q)
  | None => None
  end.

End Tags.

(** ** The part of Go's [regexp] package that the program uses

    The program only builds patterns out of literal bytes, byte classes,
    concatenation, alternation, the greedy [+] and [?], capture groups and
    the text anchors [^] and [$].  Matching is leftmost-first, as in Go:
    of the matches that start at the leftmost possible position the one
    a backtracking search finds first is chosen. *)

Module Regexp.
Import Go.

Inductive regex : Type :=
| Empty
| Lit (c : ascii)
| Class (negated : bool) (ranges : list (ascii * ascii))
| Cat (r1 r2 : regex)
| Alt (r1 r2 : regex)
| Plus (r : regex)
| Quest (r : regex)
| Capture (n : nat) (r : regex)
| BeginText
| EndText.

(** Whether the byte [c] is in the class [[lo1-hi1 lo2-hi2 ...]], or,
    for a negated class, is not. *)
Definition inRange (c : ascii) (r : ascii * ascii) : bool :=
  (nat_of_ascii (fst r) <=? nat_of_ascii c)
  && (nat_of_ascii c <=? nat_of_ascii (snd r)).

Definition member (negated : bool) (ranges : list (ascii * ascii))
    (c : ascii) : bool :=
  xorb negated (existsb (inRange c) ranges).

(** Start and end offset of each group seen so far; group 0 is the
    whole match. *)
Abbreviation captures := (list (option (nat * nat))).

(** A compiled pattern: the expression and its number of groups. *)
Record Regexp : Type := MkRegexp { expr : regex; numSubexp : nat }.

(** The loop of the greedy [+]: [body] matches the repeated
    expression once; after each round another round is tried first,
    if the last one has taken some text, and then the rest of the
    pattern, [k].  [fuel] bounds the number of rounds. *)
Fixpoint plusLoop
    (body : string -> nat -> captures ->
            (string -> nat -> captures -> option captures) ->
            option captures)
    (k : string -> nat -> captures -> option captures)
    (fuel : nat) (s : string) (pos : nat) (caps : captures)
    {struct fuel} : option captures :=
  body s pos caps (fun s' pos' caps' =>
    match fuel with
    | O => k s' pos' caps'
    | S fuel' =>
        match (if pos <? pos' then plusLoop body k fuel' s' pos' caps'
               else None) with
        | Some c => Some c
        | None => k s' pos' caps'
        end
    end).

(** [m r s pos caps k] matches [r] at offset [pos], where [s] is the
    text from [pos] on, and hands the rest of the text, the new offset
    and the captures to [k]; alternatives are tried in order and the
    first that makes [k] succeed is taken. *)
Fixpoint m (r : regex) (s : string) (pos : nat) (caps : captures)
    (k : string -> nat -> captures -> option captures) {struct r}
  : option captures :=
  match r with
  | Empty => k s pos caps
  | Lit c =>
      match s with
      | String c' s' => if Ascii.eqb c' c then k s' (S pos) caps else None
      | EmptyString => None
      end
  | Class negated ranges =>
      match s with
      | String c' s' =>
          if member negated ranges c' then k s' (S pos) caps else None
      | EmptyString => None
      end
  | Cat r1 r2 =>
      m r1 s pos caps (fun s' pos' caps' => m r2 s' pos' caps' k)
  | Alt r1 r2 =>
      match m r1 s pos caps k with
      | Some c => Some c
      | None => m r2 s pos caps k
      end
  | Plus r1 => plusLoop (m r1) k (len s) s pos caps
  | Quest r1 =>
      match m r1 s pos caps k with
      | Some c => Some c
      | None => k s pos caps
      end
  | Capture n r1 =>
      m r1 s pos caps (fun s' pos' caps' =>
        k s' pos' (<[n := Some (pos, pos')]> caps'))
  | BeginText => if pos =? 0 then k s pos caps else None
  | EndText => match s with EmptyString => k s pos caps | _ => None end
  end.

(** A match of [re] that starts exactly at offset [pos]. *)
Definition matchAt (re : Regexp) (s : string) (pos : nat)
  : option captures :=
  m (expr re) s pos (replicate (S (numSubexp re)) None)
    (fun _ pos' caps => Some (<[0 := Some (pos, pos')]> caps)).

(** The leftmost match that starts at [pos] or later; [s] is the text
    from [pos] on. *)
Fixpoint findFrom (re : Regexp) (s : string) (pos : nat)
  : option captures :=
  match matchAt re s pos with
  | Some c => Some c
  | None =>
      match s with
      | String _ s' => findFrom re s' (S pos)
      | EmptyString => None
      end
  end.

(** [re.MatchString(s)] *)
Definition MatchString (re : Regexp) (s : string) : bool :=
  match findFrom re s 0 with Some _ => true | None => false end.

(** [re.FindStringSubmatchIndex(s)]: [None] is the nil slice; in the
    slice the offsets of group [n] are at [2n] and [2n+1], and are [-1]
    for a group that took no part in the match. *)
Definition locOf (caps : captures) : list Z :=
  flat_map (fun c => match c with
                     | Some (a, b) => [Z.of_nat a; Z.of_nat b]
                     | None => [(-1)%Z; (-1)%Z]
                     end) caps.

Definition FindStringSubmatchIndex (re : Regexp) (s : string)
  : option (list Z) :=
  locOf <$> findFrom re s 0.

(** [re.ReplaceAllString(src, repl)] for a [repl] without [$]: the
    loop of [Regexp.replaceAll], which copies the text between two
    matches, puts [repl] for each match, and searches on from the end
    of the match (one byte further after an empty match). *)
Fixpoint replaceLoop (fuel : nat) (re : Regexp) (repl : string)
    (src : string) (searchPos lastMatchEnd : nat) : string :=
  match fuel with
  | O => drop lastMatchEnd src
  | S fuel' =>
      if len src <? searchPos then drop lastMatchEnd src else
      match findFrom re (drop searchPos src) searchPos with
      | Some (Some (a0, a1) :: _) =>
          take (a0 - lastMatchEnd) (drop lastMatchEnd src)
          +:+ (if (lastMatchEnd <? a1) || (a0 =? 0) then repl
               else EmptyString)
          +:+ replaceLoop fuel' re repl src
                (if a1 <? searchPos + 1 then searchPos + 1 else a1) a1
      | _ => drop lastMatchEnd src
      end
  end.

Definition ReplaceAllString (re : Regexp) (src repl : string) : string :=
  replaceLoop (S (len src)) re repl src 0 0.

(** [regexp.QuoteMeta(s)]: a backslash before each of the bytes
    [\.+*?()|[]{}^$]. *)
Definition special (c : ascii) : bool :=
  existsb (Ascii.eqb c)
    (list_ascii_of_string "\.+*?()|[]{}^$").

Fixpoint QuoteMeta (s : string) : string :=
  match s with
  | EmptyString => EmptyString
  | String c s' =>
      if special c then String "\" (String c (QuoteMeta s'))
      else String c (QuoteMeta s')
  end.

(** *** [regexp.Compile]

    The parser covers the syntax the program can produce and the plain
    part of what a user can give to [-m]: literal bytes, a backslash
    before punctuation, [.], classes, groups, [|], the greedy [*], [+]
    and [?], [^] and [$].  [SyntaxError] is an error of
    [regexp.Compile]; [Unsupported] is valid or invalid syntax that is
    not modelled (flags, named classes, counted or lazy repetition,
    bytes above 127); [NoFuel] is the parser running out of fuel. *)
Inductive parsed (A : Type) : Type :=
| Parsed (a : A)
| SyntaxError
| Unsupported
| NoFuel.
Arguments Parsed {A} _.
Arguments SyntaxError {A}.
Arguments Unsupported {A}.
Arguments NoFuel {A}.

Definition bindP {A B : Type} (x : parsed A) (f : A -> parsed B)
  : parsed B :=
  match x with
  | Parsed a => f a
  | SyntaxError => SyntaxError
  | Unsupported => Unsupported
  | NoFuel => NoFuel
  end.

Definition isAlnum (c : ascii) : bool :=
  member false [("0", "9"); ("A", "Z"); ("a", "z")]%char c.

Definition isAscii (c : ascii) : bool := nat_of_ascii c <? 128.

(** One byte of a class, possibly escaped. *)
Definition classChar (t : string) : parsed (ascii * string) :=
  match t with
  | EmptyString => SyntaxError
  | String "\" EmptyString => SyntaxError
  | String "\" (String c t') =>
      if isAscii c && negb (isAlnum c) then Parsed (c, t')
      else Unsupported
  | String c t' => if isAscii c then Parsed (c, t') else Unsupported
  end.

(** The items of a class up to its closing bracket, which is literal
    when it comes first. *)
Fixpoint classItems (fuel : nat) (t : string) (first : bool)
    (acc : list (ascii * ascii)) : parsed (list (ascii * ascii) * string) :=
  match fuel with
  | O => NoFuel
  | S fuel' =>
      match t, first with
      | String "]" t', false => Parsed (acc, t')
      | String "[" (String ":" _), _ => Unsupported
      | _, _ =>
          bindP (classChar t) (fun '(lo, t1) =>
            match t1 with
            | String "-" (String c2 t2) =>
                if Ascii.eqb c2 "]" then
                  classItems fuel' t1 false (acc ++ [(lo, lo)])
                else
                  bindP (classChar (String c2 t2)) (fun '(hi, t3) =>
                    if nat_of_ascii hi <? nat_of_ascii lo then SyntaxError
                    else classItems fuel' t3 false (acc ++ [(lo, hi)]))
            | _ => classItems fuel' t1 false (acc ++ [(lo, lo)])
            end)
      end
  end.

Definition parseClass (t : string) : parsed (regex * string) :=
  let '(negated, t) :=
    match t with
    | String "^" t' => (true, t')
    | _ => (false, t)
    end in
  bindP (classItems (S (len t)) t true [])
    (fun '(ranges, t') => Parsed (Class negated ranges, t')).

Definition isRepeatOp (c : ascii) : bool :=
  Ascii.eqb c "*" || Ascii.eqb c "+" || Ascii.eqb c "?".

(** An optional repetition operator after the atom [r]. *)
Definition repeatOp (r : regex) (t : string) : parsed (regex * string) :=
  match t with
  | String "{" _ => Unsupported
  | String c t' =>
      if isRepeatOp c then
        match r, t' with
        | BeginText, _ | EndText, _ => Unsupported
        | _, String "?" _ => Unsupported
        | _, String "{" _ => Unsupported
        | _, String c' _ =>
            if isRepeatOp c' then SyntaxError
            else Parsed (if Ascii.eqb c "+" then Plus r
                         else if Ascii.eqb c "?" then Quest r
                         else Quest (Plus r), t')
        | _, EmptyString =>
            Parsed (if Ascii.eqb c "+" then Plus r
                    else if Ascii.eqb c "?" then Quest r
                    else Quest (Plus r), t')
        end
      else Parsed (r, t)
  | EmptyString => Parsed (r, t)
  end.

(** [parseAlt] reads alternatives up to a closing parenthesis or the
    end, [parseCat] one alternative, [parsePiece] an atom with its
    repetition; [g] is the number of the next group. *)
Fixpoint parseAlt (fuel : nat) (t : string) (g : nat)
  : parsed (regex * string * nat) :=
  match fuel with
  | O => NoFuel
  | S fuel' =>
      bindP (parseCat fuel' t g) (fun '(r1, t1, g1) =>
        match t1 with
        | String "|" t2 =>
            bindP (parseAlt fuel' t2 g1) (fun '(r2, t3, g2) =>
              Parsed (Alt r1 r2, t3, g2))
        | _ => Parsed (r1, t1, g1)
        end)
  end
with parseCat (fuel : nat) (t : string) (g : nat)
  : parsed (regex * string * nat) :=
  match fuel with
  | O => NoFuel
  | S fuel' =>
      match t with
      | EmptyString | String "|" _ | String ")" _ => Parsed (Empty, t, g)
      | _ =>
          bindP (parsePiece fuel' t g) (fun '(r1, t1, g1) =>
            bindP (parseCat fuel' t1 g1) (fun '(r2, t2, g2) =>
              Parsed (Cat r1 r2, t2, g2)))
      end
  end
with parsePiece (fuel : nat) (t : string) (g : nat)
  : parsed (regex * string * nat) :=
  match fuel with
  | O => NoFuel
  | S fuel' =>
      let atom : parsed (regex * string * nat) :=
        match t with
        | EmptyString => SyntaxError
        | String "(" (String "?" _) => Unsupported
        | String "(" t1 =>
            bindP (parseAlt fuel' t1 (S g)) (fun '(r, t2, g1) =>
              match t2 with
              | String ")" t3 => Parsed (Capture g r, t3, g1)
              | _ => SyntaxError
              end)
        | String "[" t1 =>
            bindP (parseClass t1) (fun '(r, t2) => Parsed (r, t2, g))
        | String "\" EmptyString => SyntaxError
        | String "\" (String c t1) =>
            if isAscii c && negb (isAlnum c) then Parsed (Lit c, t1, g)
            else Unsupported
        | String "^" t1 => Parsed (BeginText, t1, g)
        | String "$" t1 => Parsed (EndText, t1, g)
        | String "." t1 => Parsed (Class true [("010", "010")]%char, t1, g)
        | String "{" _ => Unsupported
        | String c t1 =>
            if isRepeatOp c then SyntaxError
            else if isAscii c then Parsed (Lit c, t1, g)
            else Unsupported
        end in
      bindP atom (fun '(r, t1, g1) =>
        bindP (repeatOp r t1) (fun '(r', t2) => Parsed (r', t2, g1)))
  end.

Definition Compile (t : string) : parsed Regexp :=
  bindP (parseAlt (5 * len t + 5) t 1) (fun '(r, t', g) =>
    match t' with
    | EmptyString => Parsed (MkRegexp r (g - 1))
    | _ => SyntaxError
    end).

(** [regexp.MustCompile] for the package-level patterns, which do
    compile. *)
Definition MustCompile (t : string) : Regexp :=
  match Compile t with
  | Parsed re => re
  | _ => MkRegexp Empty 0
  end.

End Regexp.

(** ** What the program sees of the outside world, and its own state *)

Module World.

(** A directory tree as [ioutil.ReadDir] shows it: each entry of a
    readable directory has a name and is a directory or not (a symbolic
    link is not).  [Unreadable] is a directory that [ReadDir] fails
    on. *)
Inductive tree : Type :=
| File
| Dir (entries : list entry)
| Unreadable
with entry : Type :=
| Entry (name : string) (node : tree).

(** [entry.IsDir()] *)
Definition IsDir (t : tree) : bool :=
  match t with File => false | _ => true end.

(** The error of [build.Import]: none, [*build.NoGoError], or another
    one. *)
Inductive importErr : Type := NoErr | NoGoError | OtherErr.

(** The fields of [build.Package] that the program reads. *)
Record Package : Type := MkPackage {
  ImportPath : string;
  PkgDir : string;
  Imports : list string;
  TestImports : list string;
  XTestImports : list string
}.

(** A parsed file: the literals [ispec.Path.Value] of [f.Imports], in
    order, and everything else of the syntax tree. *)
Record AstFile (Rest : Type) : Type := MkAstFile {
  ImportValues : list string;
  rest : Rest
}.
Arguments MkAstFile {Rest} _ _.
Arguments ImportValues {Rest} _.
Arguments rest {Rest} _.

(** [type editPkg struct] *)
Record editPkg : Type := MkEditPkg {
  goFiles : list string;
  needsEdit : bool
}.

(** The lines that [logf] writes to standard error, by their format
    strings. *)
Inductive logLine : Type :=
| CannotReadDirectory (path : string)
| CannotImport (path : string)
| CannotImportFrom (path fromDir : string)
| Uses (path impPath : string)
| InconsistentPath (pkg impPath : string)
| CannotParse (path : string)
| CannotCreateFile
| CannotWriteFile
| NotVersioned (p : string)
| InvalidMatchPattern
| CannotGetWorkingDirectory
| UsageLine.

(** What is written to standard output: [fmt.Printf("%s\n", path)],
    or the help text of the last version. *)
Inductive outLine : Type :=
| PathLine (path : string)
| HelpText.

(** The mutable fields of [type context struct] and the part of the
    world the program changes: the contents of the files, the two
    output streams, and, as a record of what was done, the paths given
    to [buildCtxt.Import] by [checkPackage] and the paths given to
    [os.Create], whether it could open the file or not, both latest
    first. *)
Record state : Type := MkState {
  failed : bool;
  checked : gmap string bool;
  editPkgs : gmap string editPkg;
  files : gmap string string;
  stdout : list outLine;
  stderr : list logLine;
  imported : list string;
  created : list string
}.

Definition set_failed (st : state) : state :=
  MkState true (checked st) (editPkgs st) (files st) (stdout st)
    (stderr st) (imported st) (created st).

Definition set_checked (path : string) (st : state) : state :=
  MkState (failed st) (<[path := true]> (checked st)) (editPkgs st)
    (files st) (stdout st) (stderr st) (imported st) (created st).

Definition set_editPkg (path : string) (ep : editPkg) (st : state)
  : state :=
  MkState (failed st) (checked st) (<[path := ep]> (editPkgs st))
    (files st) (stdout st) (stderr st) (imported st) (created st).

(** [ep.needsEdit = true] through the pointer [ctxt.editPkgs[path]].
    Every entry of the map points to a structure of its own, so the
    assignment changes the entry at [path] and no other. *)
Definition set_needsEdit (path : string) (st : state) : state :=
  MkState (failed st) (checked st)
    (alter (fun ep => MkEditPkg (goFiles ep) true) path (editPkgs st))
    (files st) (stdout st) (stderr st) (imported st) (created st).

Definition logf (l : logLine) (st : state) : state :=
  MkState (failed st) (checked st) (editPkgs st) (files st) (stdout st)
    (stderr st ++ [l]) (imported st) (created st).

Definition printLine (l : outLine) (st : state) : state :=
  MkState (failed st) (checked st) (editPkgs st) (files st)
    (stdout st ++ [l]) (stderr st) (imported st) (created st).

Definition note_import (path : string) (st : state) : state :=
  MkState (failed st) (checked st) (editPkgs st) (files st) (stdout st)
    (stderr st) (path :: imported st) (created st).

(** How the two writes through [w := bufio.NewWriter(out)] can fail.
    What fits the buffer of [w] gets to the file in [w.Flush()] only,
    and an error of a write to the file stays in [w]: [Flush] gives
    again the error that [printConfig.Fprint] has given. *)
Inductive writeErr : Type :=
| FlushErr    (* [Fprint] returns nil, [Flush] an error *)
| FprintErr.  (* [Fprint] returns an error, and [Flush] the same *)

(** How [os.Create(path)] and the writes of the text end:
    - [Written]: without an error, and the file holds the text;
    - [CreateFails e]: [os.Create] returns an error and a nil file,
      to which nothing can be written: the file at [path] is left as
      it is, and [e] is the error of the writes, if [Fprint] or
      [Flush] gets as far as a write to the nil file;
    - [WriteFails e n]: [os.Create] has truncated the file, and a
      write to it fails after the first [n] bytes of the text. *)
Inductive writing : Type :=
| Written
| CreateFails (e : option writeErr)
| WriteFails (e : writeErr) (n : nat).

(** The lines of the tests [if err != nil] after [printConfig.Fprint]
    and after [w.Flush()]. *)
Definition writeLines (e : option writeErr) : list logLine :=
  match e with
  | None => []
  | Some FlushErr => [CannotWriteFile]
  | Some FprintErr => [CannotWriteFile; CannotWriteFile]
  end.

(** The lines on standard error of the end of [changeVersion], from
    [os.Create(path)] to [w.Flush()]. *)
Definition writingLines (w : writing) : list logLine :=
  match w with
  | Written => []
  | CreateFails e => CannotCreateFile :: writeLines e
  | WriteFails e _ => writeLines (Some e)
  end.

(** The files after it, when the text to print is [text]. *)
Definition writingFiles (w : writing) (path text : string)
    (fs : gmap string string) : gmap string string :=
  match w with
  | Written => <[path := text]> fs
  | CreateFails _ => fs
  | WriteFails _ n => <[path := Go.take n text]> fs
  end.

(** The end of [changeVersion]: [os.Create(path)], the print of the
    tree as [text] and the flush, which end as [w] says.  Every error
    is logged and nothing else is done about it. *)
Definition write_file (w : writing) (path text : string) (st : state)
  : state :=
  MkState (failed st) (checked st) (editPkgs st)
    (writingFiles w path text (files st)) (stdout st)
    (stderr st ++ writingLines w) (imported st) (path :: created st).

(** [ctxt.checked[path]]: a missing key reads as [false]. *)
Definition is_checked (path : string) (st : state) : bool :=
  default false (checked st !! path).

(** How a run of [main] ends: by returning or [os.Exit] with a status,
    or by a panic (which the Go runtime turns into status 2). *)
Inductive ending : Type := Exit (status : nat) | Panic.

Definition status_of (e : ending) : nat :=
  match e with Exit n => n | Panic => 2 end.

(** How a call that may panic ends; [OutOfFuel] is the model running
    out of fuel. *)
Inductive run (A : Type) : Type :=
| Returns (a : A) (st : state)
| Panics (st : state)
| OutOfFuel.
Arguments Returns {A} _ _.
Arguments Panics {A} _.
Arguments OutOfFuel {A}.

Definition bindR {A B : Type} (x : run A) (f : A -> state -> run B)
  : run B :=
  match x with
  | Returns a st => f a st
  | Panics st => Panics st
  | OutOfFuel => OutOfFuel
  end.

(** How the making of the pattern ends: with the pattern, or with
    the program stopping, by [fatalf] with a line for standard error
    or, for [None], by a panic. *)
Inductive setup (A : Type) : Type :=
| Ready (a : A)
| Stops (line : option logLine).
Arguments Ready {A} _.
Arguments Stops {A} _.

(** The state made by [main] before the walk. *)
Definition initial (fs : gmap string string) : state :=
  MkState false ∅ ∅ fs [] [] [] [].

End World.

(** ** The standard-library calls the program makes

    They are taken as given: [Rest] is the type of a syntax tree without
    its import literals. *)

Module Env.
Import World.

Record t (Rest : Type) : Type := Mk {
(** [filepath.Join(dir, name)] *)
Join : string -> string -> string;
(** [buildCtxt.Import(".", dir, build.FindOnly)]: the import path of
    the package in [dir], or [None] for an error. *)
ImportDir : string -> option string;
(** [buildCtxt.Import(path, srcDir, 0)]; the package is never nil. *)
Import : string -> string -> Package * importErr;
(** [parser.ParseFile] on the text of a file that could be read: the
    tree, and whether an error came with it. *)
parse : string -> AstFile Rest * bool;
(** The text that [printConfig.Fprint] prints for a tree. *)
Fprint : AstFile Rest -> string;
(** How [os.Create(path)] and the writes of the text [text] to the
    file end, for [Write path text]. *)
Write : string -> string -> writing;
(** [strconv.Unquote], [None] for an error, and [strconv.Quote] *)
Unquote : string -> option string;
Quote : string -> string;
(** The order in which the [n]-th [range] statement of [main] goes
    through the keys of [ctxt.editPkgs]. *)
rangeOrder : nat -> gmap string editPkg -> list string
}.
Arguments Join {Rest} _ _ _.
Arguments ImportDir {Rest} _ _.
Arguments Import {Rest} _ _ _.
Arguments parse {Rest} _ _.
Arguments Fprint {Rest} _ _.
Arguments Write {Rest} _ _ _.
Arguments Unquote {Rest} _ _.
Arguments Quote {Rest} _ _.
Arguments rangeOrder {Rest} _ _ _.

End Env.

(** ** The walk over the directories, the same in the three versions *)

Module Walk.
Import Go World.

Section WithEnv.
Context {Rest : Type} (E : Env.t Rest).

(** The loop [for _, entry := range entries] of [walkDir], with
    [walk] the recursive call and [ep] the local [editPkg]. *)
Fixpoint entriesLoop (walk : string -> tree -> state -> state)
    (path : string) (es : list entry) (ep : editPkg) (st : state)
    {struct es} : editPkg * state :=
  match es with
  | [] => (ep, st)
  | Entry name node :: es' =>
      if IsDir node then
        if negb (HasPrefix name ".") then
          entriesLoop walk path es' ep
            (walk (Env.Join E path name) node st)
        else entriesLoop walk path es' ep st
      else
        if HasSuffix name ".go" then
          entriesLoop walk path es'
            (MkEditPkg (goFiles ep ++ [Env.Join E path name])
               (needsEdit ep)) st
        else entriesLoop walk path es' ep st
  end.

(** [func (ctxt *context) walkDir(path string)], with [t] what is at
    [path]. *)
Fixpoint walkDir (path : string) (t : tree) (st : state) {struct t}
  : state :=
  match t with
  | Dir entries =>
      let '(ep, st) :=
        entriesLoop walkDir path entries (MkEditPkg [] false) st in
      match Env.ImportDir E path with
      | None => st
      | Some importPath => set_editPkg importPath ep st
      end
  | File | Unreadable => logf (CannotReadDirectory path) st
  end.

End WithEnv.
End Walk.

(** ** The loops of [main], the same in the three versions *)

Module Loops.
Import World.

Section WithCalls.
(** [ctxt.checkPackage] and [ctxt.changeVersion] of the version. *)
Variable checkPackage : string -> state -> run unit.
Variable changeVersion : string -> state -> run bool.

(** [for path := range ctxt.editPkgs { ctxt.checkPackage(path) }],
with [paths] the keys in the order of the iteration. *)
Fixpoint checkLoop (paths : list string) (st : state) : run unit :=
  match paths with
  | [] => Returns tt st
  | path :: paths' =>
      bindR (checkPackage path st) (fun _ st' => checkLoop paths' st')
  end.

(** [for _, file := range ep.goFiles {
       changed = ctxt.changeVersion(file) || changed }] *)
Fixpoint filesLoop (goFiles : list string) (changed : bool) (st : state)
  : run bool :=
  match goFiles with
  | [] => Returns changed st
  | file :: goFiles' =>
      bindR (changeVersion file st)
        (fun c st' => filesLoop goFiles' (c || changed) st')
  end.

(** The body of [for path, ep := range ctxt.editPkgs]. *)
Definition editOne (path : string) (ep : editPkg) (st : state)
  : run unit :=
  if negb (needsEdit ep) then Returns tt st
  else
    bindR (filesLoop (goFiles ep) false st)
      (fun changed st' =>
         Returns tt (if changed then printLine (PathLine path) st'
                     else st')).

(** [for path, ep := range ctxt.editPkgs { ... }], with [paths] the
    keys in the order of the iteration. *)
Fixpoint editLoop (paths : list string) (st : state) : run unit :=
  match paths with
  | [] => Returns tt st
  | path :: paths' =>
      match editPkgs st !! path with
      | None => editLoop paths' st
      | Some ep =>
          bindR (editOne path ep st) (fun _ st' => editLoop paths' st')
      end
  end.

(** The end of [main]: [if ctxt.failed { os.Exit(1) }]. *)
Definition finish (r : run unit) : option (ending * state) :=
  match r with
  | OutOfFuel => None
  | Panics st => Some (Panic, st)
  | Returns _ st =>
      if failed st then Some (Exit 1, st) else Some (Exit 0, st)
  end.

End WithCalls.
End Loops.

(** ** [src/govers.go] *)

Module V1.
Import Go World Regexp.

(** [var versPat = regexp.MustCompile("/v[0-9]+/")] *)
Definition versPat : Regexp :=
  Eval vm_compute in MustCompile "/v[0-9]+/".

Definition canonicalPath (p : string) : string :=
  ReplaceAllString versPat p "0".

Section WithEnv.
Context {Rest : Type} (E : Env.t Rest).
(** [ctxt.fixPackage] *)
Variable fixPackage : string.

(** [ctxt.fixPackageCanon] *)
Definition fixPackageCanon : string := canonicalPath fixPackage.

(** The loop [for _, impPath := range pkg.Imports] of [checkPackage],
with [check] the recursive call. *)
Fixpoint importsLoop (check : string -> state -> run unit)
    (path : string) (imps : list string) (st : state) : run unit :=
  match imps with
  | [] => Returns tt st
  | impPath :: imps' =>
      if String.eqb impPath "C" then importsLoop check path imps' st
      else if String.eqb (canonicalPath impPath) fixPackageCanon
              && negb (String.eqb impPath fixPackage) then
        match editPkgs st !! path with
        | Some _ =>
            bindR (check fixPackage (set_needsEdit path st))
              (fun _ st' => importsLoop check path imps' st')
        | None =>
            importsLoop check path imps'
              (set_failed (logf (Uses path impPath) st))
        end
      else
        bindR (check impPath st)
          (fun _ st' => importsLoop check path imps' st')
  end.

(** [func (ctxt *context) checkPackage(path string)]; [fuel] bounds
    the depth of the recursion. *)
Fixpoint checkPackage (fuel : nat) (path : string) (st : state)
  : run unit :=
  match fuel with
  | O => OutOfFuel
  | S fuel' =>
      if is_checked path st then Returns tt st else
      let '(pkg, err) := Env.Import E path "." in
      let st := set_checked (ImportPath pkg) (note_import path st) in
      match err with
      | NoGoError => Returns tt st
      | OtherErr => Returns tt (logf (CannotImport path) st)
      | NoErr => importsLoop (checkPackage fuel') path (Imports pkg) st
      end
  end.

(** The loop over [f.Imports] in [changeVersion]: the new literals
    and [changed], or [None] when [strconv.Unquote] fails and the
    function panics. *)
Fixpoint fixImports (values : list string) : option (list string * bool) :=
  match values with
  | [] => Some ([], false)
  | value :: values' =>
      match Env.Unquote E value with
      | None => None
      | Some impPath =>
          match fixImports values' with
          | None => None
          | Some (vs, changed) =>
              if String.eqb (canonicalPath impPath) fixPackageCanon
              then Some (Env.Quote E fixPackage :: vs, true)
              else Some (value :: vs, changed)
          end
      end
  end.

(** [func (ctxt *context) changeVersion(path string) bool].  A file
    that cannot be read gives a nil tree, and [f.Imports] panics.
    An error of [os.Create], of [printConfig.Fprint] or of
    [w.Flush] is logged, and the function goes on to
    [return true]. *)
Definition changeVersion (path : string) (st : state) : run bool :=
  match files st !! path with
  | None => Panics (logf (CannotParse path) st)
  | Some src =>
      let '(f, err) := Env.parse E src in
      let st := if err then logf (CannotParse path) st else st in
      match fixImports (ImportValues f) with
      | None => Panics st
      | Some (values, changed) =>
          if negb changed then Returns false st
          else
            let text := Env.Fprint E (MkAstFile values (rest f)) in
            Returns true
              (write_file (Env.Write E path text) path text st)
      end
  end.

(** [func main()] once the argument is known to be there and the
    working directory [cwd] is known, with the tree [root] at it and
    the files [fs].  The exit between the two loops is commented out
    in the source. *)
Definition run (fuel : nat) (cwd : string) (root : tree)
    (fs : gmap string string) : option (ending * state) :=
  let st := Walk.walkDir E cwd root (initial fs) in
  Loops.finish
    (bindR (Loops.checkLoop (checkPackage fuel)
              (Env.rangeOrder E 0 (editPkgs st)) st)
       (fun _ st =>
          Loops.editLoop changeVersion
            (Env.rangeOrder E 1 (editPkgs st)) st)).

End WithEnv.

(** [func main()], for the arguments left by [flag.Parse] and the
    result of [os.Getwd] ([None] for an error); [None] is the model
    running out of fuel. *)
Definition main {Rest : Type} (E : Env.t Rest) (fuel : nat)
    (args : list string) (cwd : option string) (root : tree)
    (fs : gmap string string) : option (ending * state) :=
  match args with
  | [arg] =>
      match cwd with
      | None => Some (Exit 2, logf CannotGetWorkingDirectory (initial fs))
      | Some cwd => run E arg fuel cwd root fs
      end
  | _ => Some (Exit 2, logf UsageLine (initial fs))
  end.

End V1.

(** ** The version with [pathPat] and [fixPath] *)

Module V2.
Import Go World Regexp.

(** [const versPat]; its group is opened and never closed. *)
Definition versPat : string := "/v([0-9.)]+".

(** [func pathPat(p string) *regexp.Regexp]: the pattern, or how the
    program stops instead: [Stops None] is the panic of
    [regexp.MustCompile] on a text that does not compile, [Stops (Some
    l)] is [fatalf], which logs [l] and exits with status 2.  [None] is
    a pattern outside the modelled syntax. *)
Definition pathPat (p : string) : option (setup Regexp) :=
  match Compile (versPat +:+ "(/|$)") with
  | Parsed versRe =>
      if negb (MatchString versRe p)
      then Some (Stops (Some (NotVersioned p)))
      else
        let p := QuoteMeta p in
        match Compile ("^(" +:+ ReplaceAllString versRe p versPat
                       +:+ ")(/|$)") with
        | Parsed re => Some (Ready re)
        | SyntaxError => Some (Stops None)
        | _ => None
        end
  | SyntaxError => Some (Stops None)
  | _ => None
  end.

Section WithEnv.
Context {Rest : Type} (E : Env.t Rest).
(** [ctxt.fixPackage] and [ctxt.fixPackagePat] *)
Variable fixPackage : string.
Variable fixPackagePat : Regexp.

(** [func (ctxt *context) fixPath(p string) string]; [None] is a
    panic: [loc[3]] out of range, or [-1] as the end of [p[0:i]]. *)
Definition fixPath (p : string) : option string :=
  match FindStringSubmatchIndex fixPackagePat p with
  | None => Some p
  | Some loc =>
      match loc !! 3 with
      | None => None
      | Some i =>
          if (i <? 0)%Z || (Z.of_nat (len p) <? i)%Z then None
          else
            let i := Z.to_nat i in
            if negb (String.eqb (take i p) fixPackage)
            then Some (fixPackage +:+ drop i p)
            else Some p
      end
  end.

(** The loop [for _, impPath := range pkg.Imports] of [checkPackage],
with [check] the recursive call and [ep] the pointer read from
[ctxt.editPkgs[path]] before the loop, nil or not. *)
Fixpoint importsLoop (check : string -> state -> run unit)
    (path : string) (ep : option editPkg) (imps : list string)
    (st : state) : run unit :=
  match imps with
  | [] => Returns tt st
  | impPath :: imps' =>
      match fixPath impPath with
      | None => Panics st
      | Some p =>
          if negb (String.eqb p impPath) then
            match ep with
            | None =>
                importsLoop check path ep imps'
                  (set_failed (logf (Uses path impPath) st))
            | Some _ =>
                bindR (check p (set_needsEdit path st))
                  (fun _ st' => importsLoop check path ep imps' st')
            end
          else
            bindR (check impPath st)
              (fun _ st' => importsLoop check path ep imps' st')
      end
  end.

(** [func (ctxt *context) checkPackage(path string)] *)
Fixpoint checkPackage (fuel : nat) (path : string) (st : state)
  : run unit :=
  match fuel with
  | O => OutOfFuel
  | S fuel' =>
      if String.eqb path "C" then Returns tt st else
      if is_checked path st then Returns tt st else
      let '(pkg, err) := Env.Import E path "." in
      let st := set_checked (ImportPath pkg) (note_import path st) in
      match err with
      | NoGoError => Returns tt st
      | OtherErr => Returns tt (logf (CannotImport path) st)
      | NoErr =>
          importsLoop (checkPackage fuel') path (editPkgs st !! path)
            (Imports pkg) st
      end
  end.

(** The loop over [f.Imports] in [changeVersion]; [None] is a
    panic. *)
Fixpoint fixImports (values : list string) : option (list string * bool) :=
  match values with
  | [] => Some ([], false)
  | value :: values' =>
      match Env.Unquote E value with
      | None => None
      | Some impPath =>
          match fixPath impPath with
          | None => None
          | Some p =>
              match fixImports values' with
              | None => None
              | Some (vs, changed) =>
                  if negb (String.eqb p impPath)
                  then Some (Env.Quote E p :: vs, true)
                  else Some (value :: vs, changed)
              end
          end
      end
  end.

(** [func (ctxt *context) changeVersion(path string) bool]; its
    end, from [os.Create(path)] on, is that of the first version. *)
Definition changeVersion (path : string) (st : state) : run bool :=
  match files st !! path with
  | None => Panics (logf (CannotParse path) st)
  | Some src =>
      let '(f, err) := Env.parse E src in
      let st := if err then logf (CannotParse path) st else st in
      match fixImports (ImportValues f) with
      | None => Panics st
      | Some (values, changed) =>
          if negb changed then Returns false st
          else
            let text := Env.Fprint E (MkAstFile values (rest f)) in
            Returns true
              (write_file (Env.Write E path text) path text st)
      end
  end.

(** [func main()] from [ctxt.walkDir(cwd)] on. *)
Definition run (fuel : nat) (cwd : string) (root : tree)
    (fs : gmap string string) : option (ending * state) :=
  let st := Walk.walkDir E cwd root (initial fs) in
  match Loops.checkLoop (checkPackage fuel)
          (Env.rangeOrder E 0 (editPkgs st)) st with
  | OutOfFuel => None
  | Panics st => Some (Panic, st)
  | Returns _ st =>
      if failed st then Some (Exit 1, st) else
      Loops.finish
        (Loops.editLoop changeVersion
           (Env.rangeOrder E 1 (editPkgs st)) st)
  end.

End WithEnv.

(** [func main()]; [None] is the model running out of fuel or a
    pattern outside the modelled syntax. *)
Definition main {Rest : Type} (E : Env.t Rest) (fuel : nat)
    (args : list string) (cwd : option string) (root : tree)
    (fs : gmap string string) : option (ending * state) :=
  match args with
  | [arg] =>
      match cwd with
      | None => Some (Exit 2, logf CannotGetWorkingDirectory (initial fs))
      | Some cwd =>
          match pathPat arg with
          | None => None
          | Some (Stops None) => Some (Panic, initial fs)
          | Some (Stops (Some l)) => Some (Exit 2, logf l (initial fs))
          | Some (Ready re) => run E arg re fuel cwd root fs
          end
      end
  | _ => Some (Exit 2, logf UsageLine (initial fs))
  end.

End V2.

(** ** The version with [pathVersionPat], [fixPath] and the flags *)

Module V3.
Import Go World Regexp.

(** The flags [-m], [-n] and [-d]. *)
Record flags : Type := MkFlags {
  match_ : string;
  noEdit : bool;
  noDependencies : bool
}.

(** [const versPat] *)
Definition versPat : string := "[/|\.]v[0-9]+(-unstable)?".

(** [strings.Replace(s, "#", by, -1)] *)
Fixpoint replaceHash (s by_ : string) : string :=
  match s with
  | EmptyString => EmptyString
  | String c s' =>
      if Ascii.eqb c "#" then by_ +:+ replaceHash s' by_
      else String c (replaceHash s' by_)
  end.

(** [func pathVersionPat(p string) *regexp.Regexp] *)
Definition pathVersionPat (p : string) : option (setup Regexp) :=
  match Compile (versPat +:+ "(/|$)") with
  | Parsed versRe =>
      if negb (MatchString versRe p)
      then Some (Stops (Some (NotVersioned p)))
      else
        let p := ReplaceAllString versRe p "#" in
        let p := QuoteMeta p in
        let p := "^(" +:+ replaceHash p versPat +:+ ")(/|$)" in
        match Compile p with
        | Parsed re => Some (Ready re)
        | SyntaxError => Some (Stops None)
        | _ => None
        end
  | SyntaxError => Some (Stops None)
  | _ => None
  end.

(** The choice of [oldPackagePat] in [main]. *)
Definition oldPackagePatOf (fl : flags) (newPackage : string)
  : option (setup Regexp) :=
  if negb (String.eqb (match_ fl) "") then
    match Compile ("^(" +:+ match_ fl +:+ ")") with
    | Parsed re => Some (Ready re)
    | SyntaxError => Some (Stops (Some InvalidMatchPattern))
    | _ => None
    end
  else pathVersionPat newPackage.

Section WithEnv.
Context {Rest : Type} (E : Env.t Rest).
Variable fl : flags.
(** [ctxt.newPackage] and [ctxt.oldPackagePat] *)
Variable newPackage : string.
Variable oldPackagePat : Regexp.

(** [func (ctxt *context) fixPath(p string) string]; [None] is a
    panic: [loc[3]] out of range, or [-1] as the end of [p[0:i]]. *)
Definition fixPath (p : string) : option string :=
  match FindStringSubmatchIndex oldPackagePat p with
  | None => Some p
  | Some loc =>
      match loc !! 3 with
      | None => None
      | Some i =>
          if (i <? 0)%Z || (Z.of_nat (len p) <? i)%Z then None
          else
            let i := Z.to_nat i in
            if negb (String.eqb (take i p) newPackage)
            then Some (newPackage +:+ drop i p)
            else Some p
      end
  end.

(** The loop [for _, impPath := range allImports] of [checkPackage],
with [check] the recursive call, [pkg] the package of [path] and
[ep] the pointer read from [ctxt.editPkgs[path]] before the
loop.  In the loop [err] is the error of the first import, which
is nil there, so its test never skips an import. *)
Fixpoint importsLoop (check : string -> string -> state -> run unit)
    (path : string) (pkg : Package) (ep : option editPkg)
    (imps : list string) (st : state) : run unit :=
  match imps with
  | [] => Returns tt st
  | impPath :: imps' =>
      let impPkg := fst (Env.Import E impPath (PkgDir pkg)) in
      let st := note_import impPath st in
      match fixPath (ImportPath impPkg) with
      | None => Panics st
      | Some p =>
          if negb (String.eqb p (ImportPath impPkg)) then
            match ep with
            | None =>
                importsLoop check path pkg ep imps'
                  (set_failed
                     (logf (InconsistentPath (ImportPath pkg)
                              (ImportPath impPkg)) st))
            | Some _ =>
                let st := set_needsEdit path st in
                if negb (noDependencies fl) then
                  bindR (check p (PkgDir impPkg) st)
                    (fun _ st' =>
                       importsLoop check path pkg ep imps' st')
                else importsLoop check path pkg ep imps' st
            end
          else
            if negb (noDependencies fl) then
              bindR (check impPath (PkgDir impPkg) st)
                (fun _ st' => importsLoop check path pkg ep imps' st')
            else importsLoop check path pkg ep imps' st
      end
  end.

(** [func (ctxt *context) checkPackage(path, fromDir string)] *)
Fixpoint checkPackage (fuel : nat) (path fromDir : string) (st : state)
  : run unit :=
  match fuel with
  | O => OutOfFuel
  | S fuel' =>
      if String.eqb path "C" then Returns tt st else
      if is_checked path st then Returns tt st else
      let '(pkg, err) := Env.Import E path fromDir in
      let st := set_checked (ImportPath pkg) (note_import path st) in
      match err with
      | NoGoError => Returns tt st
      | OtherErr => Returns tt (logf (CannotImportFrom path fromDir) st)
      | NoErr =>
          let ep := editPkgs st !! path in
          let allImports :=
            Imports pkg ++
            match editPkgs st !! path with
            | Some _ => TestImports pkg ++ XTestImports pkg
            | None => []
            end in
          importsLoop (checkPackage fuel') path pkg ep allImports st
      end
  end.

(** The loop over [f.Imports] in [changeVersion]; [None] is a
    panic. *)
Fixpoint fixImports (values : list string) : option (list string * bool) :=
  match values with
  | [] => Some ([], false)
  | value :: values' =>
      match Env.Unquote E value with
      | None => None
      | Some impPath =>
          match fixPath impPath with
          | None => None
          | Some p =>
              match fixImports values' with
              | None => None
              | Some (vs, changed) =>
                  if negb (String.eqb p impPath)
                  then Some (Env.Quote E p :: vs, true)
                  else Some (value :: vs, changed)
              end
          end
      end
  end.

(** [func (ctxt *context) changeVersion(path string) bool]; its
    end, from [os.Create(path)] on, is that of the first version. *)
Definition changeVersion (path : string) (st : state) : run bool :=
  match files st !! path with
  | None => Panics (logf (CannotParse path) st)
  | Some src =>
      let '(f, err) := Env.parse E src in
      let st := if err then logf (CannotParse path) st else st in
      match fixImports (ImportValues f) with
      | None => Panics st
      | Some (values, changed) =>
          if negb changed || noEdit fl then Returns changed st
          else
            let text := Env.Fprint E (MkAstFile values (rest f)) in
            Returns true
              (write_file (Env.Write E path text) path text st)
      end
  end.

(** [func main()] from [ctxt.walkDir(cwd)] on. *)
Definition run (fuel : nat) (cwd : string) (root : tree)
    (fs : gmap string string) : option (ending * state) :=
  let st := Walk.walkDir E cwd root (initial fs) in
  match Loops.checkLoop (fun path => checkPackage fuel path cwd)
          (Env.rangeOrder E 0 (editPkgs st)) st with
  | OutOfFuel => None
  | Panics st => Some (Panic, st)
  | Returns _ st =>
      if failed st then Some (Exit 1, st) else
      Loops.finish
        (Loops.editLoop changeVersion
           (Env.rangeOrder E 1 (editPkgs st)) st)
  end.

End WithEnv.

(** [func main()]; [flag.Usage] prints the help text to standard
    output.  [None] is the model running out of fuel or a pattern
    outside the modelled syntax. *)
Definition main {Rest : Type} (E : Env.t Rest) (fuel : nat) (fl : flags)
    (args : list string) (cwd : option string) (root : tree)
    (fs : gmap string string) : option (ending * state) :=
  match args with
  | [newPackage] =>
      match cwd with
      | None => Some (Exit 2, logf CannotGetWorkingDirectory (initial fs))
      | Some cwd =>
          match oldPackagePatOf fl newPackage with
          | None => None
          | Some (Stops None) => Some (Panic, initial fs)
          | Some (Stops (Some l)) => Some (Exit 2, logf l (initial fs))
          | Some (Ready re) => run E fl newPackage re fuel cwd root fs
          end
      end
  | _ => Some (Exit 2, printLine HelpText (initial fs))
  end.

End V3.

(** ** What the description says of [splitQuotedFields]

    These definitions follow the description, not the code: the fields
    of a text are read off a decomposition of the text, with no loop. *)

Module TagsSpec.
Import Go Tags.

(** Every byte of [s] satisfies [P]. *)
Fixpoint all (P : ascii -> bool) (s : string) : bool :=
  match s with
  | EmptyString => true
  | String c s' => P c && all P s'
  end.

(** White space only. *)
Definition blank (s : string) : Prop := all isSpaceByte s = true.

(** No white space. *)
Definition solid (s : string) : Prop :=
  all (fun c => negb (isSpaceByte c)) s = true.

(** The byte [q] does not occur in [s]. *)
Definition without (q : ascii) (s : string) : Prop :=
  all (fun c => negb (Ascii.eqb q c)) s = true.

(** [s] is empty or starts with a byte that satisfies [P]. *)
Definition endsOrStarts (P : ascii -> bool) (s : string) : Prop :=
  match s with
  | EmptyString => True
  | String c _ => P c = true
  end.

(** [s] starts with a byte that satisfies [P]. *)
Definition starts (P : ascii -> bool) (s : string) : Prop :=
  match s with
  | EmptyString => False
  | String c _ => P c = true
  end.

(** [Splits s fs]: [fs] are the fields of [s], in order.  After white
    space a field starts.  One that starts with a quote runs to the
    next occurrence of the same quote and is the text in between;
    another one is a longest run without white space. *)
Inductive Splits : string -> list string -> Prop :=
| Splits_end ws :
    blank ws -> Splits ws []
| Splits_quoted ws q body after fs :
    blank ws -> isQuoteByte q = true -> without q body ->
    Splits after fs ->
    Splits (ws +:+ String q (body +:+ String q after)) (body :: fs)
| Splits_bare ws w after fs :
    blank ws -> solid w ->
    starts (fun c => negb (isQuoteByte c)) w ->
    endsOrStarts isSpaceByte after ->
    Splits after fs ->
    Splits (ws +:+ w +:+ after) (w :: fs).

(** [Unclosed s q]: some field of [s] starts with the quote [q] and no
    [q] follows it; it is the first such field. *)
Inductive Unclosed : string -> ascii -> Prop :=
| Unclosed_here ws q body :
    blank ws -> isQuoteByte q = true -> without q body ->
    Unclosed (ws +:+ String q body) q
| Unclosed_quoted ws q body after q' :
    blank ws -> isQuoteByte q = true -> without q body ->
    Unclosed after q' ->
    Unclosed (ws +:+ String q (body +:+ String q after)) q'
| Unclosed_bare ws w after q' :
    blank ws -> solid w ->
    starts (fun c => negb (isQuoteByte c)) w ->
    endsOrStarts isSpaceByte after ->
    Unclosed after q' ->
    Unclosed (ws +:+ w +:+ after) q'.

End TagsSpec.

(** ** What each phase of [main] can change *)

Module Frames.
Import Go World.

(** What a call of [checkPackage] may do to the state: mark packages
    as checked, set [needsEdit] in entries that exist, set [failed],
    and add lines to standard error and imports to the record. *)
Record checkStep (st st' : state) : Prop := MkCheckStep {
  cs_files : files st' = files st;
  cs_created : created st' = created st;
  cs_stdout : stdout st' = stdout st;
  cs_failed : failed st = true -> failed st' = true;
  cs_stderr : exists more, stderr st' = stderr st ++ more;
  cs_imported : exists more, imported st' = more ++ imported st;
  cs_checked : forall p, is_checked p st = true -> is_checked p st' = true;
  cs_goFiles : forall p, goFiles <$> (editPkgs st' !! p)
                         = goFiles <$> (editPkgs st !! p);
  cs_needsEdit : forall p ep, editPkgs st !! p = Some ep ->
                   needsEdit ep = true ->
                   exists ep', editPkgs st' !! p = Some ep'
                               /\ needsEdit ep' = true
}.

(** What a call of [changeVersion] may do: write files, and add lines
    to standard error. *)
Record editStep (st st' : state) : Prop := MkEditStep {
  es_failed : failed st' = failed st;
  es_checked : checked st' = checked st;
  es_editPkgs : editPkgs st' = editPkgs st;
  es_imported : imported st' = imported st;
  es_stdout : exists more, stdout st' = stdout st ++ more;
  es_stderr : exists more, stderr st' = stderr st ++ more;
  es_created : exists more, created st' = more ++ created st
}.

(** What the walk may do: add entries to the edit set and lines to
    standard error. *)
Record walkStep (st st' : state) : Prop := MkWalkStep {
  ws_failed : failed st' = failed st;
  ws_checked : checked st' = checked st;
  ws_files : files st' = files st;
  ws_stdout : stdout st' = stdout st;
  ws_imported : imported st' = imported st;
  ws_created : created st' = created st
}.

(** A call keeps to [R] however it ends. *)
Definition keeps {A : Type} (R : state -> state -> Prop) (st : state)
    (r : run A) : Prop :=
  match r with
  | Returns _ st' | Panics st' => R st st'
  | OutOfFuel => True
  end.

End Frames.

(** ** A concrete world for the examples

    Source files are kept in a toy format: every line of a file is the
    literal of one import.  Packages and directories are given by
    tables. *)

Module Example.
Import Go World.

Definition dquote : ascii := "034"%char.
Definition newline : ascii := "010"%char.

Definition Quote (s : string) : string :=
String dquote (s +:+ String dquote EmptyString).

Fixpoint unquoteTail (s : string) : option string :=
  match s with
  | EmptyString => None
  | String c EmptyString =>
      if Ascii.eqb c dquote then Some EmptyString else None
  | String c s' => String c <$> unquoteTail s'
  end.

Definition Unquote (s : string) : option string :=
  match s with
  | String c s' => if Ascii.eqb c dquote then unquoteTail s' else None
  | EmptyString => None
  end.

(** The lines of a text; [cur] is the line read so far. *)
Fixpoint linesFrom (cur : string) (s : string) : list string :=
  match s with
  | EmptyString =>
      match cur with EmptyString => [] | _ => [cur] end
  | String c s' =>
      if Ascii.eqb c newline then cur :: linesFrom EmptyString s'
      else linesFrom (cur +:+ String c EmptyString) s'
  end.

Fixpoint unlines (ls : list string) : string :=
  match ls with
  | [] => EmptyString
  | l :: ls' => l +:+ String newline (unlines ls')
  end.

Definition parse (src : string) : AstFile unit * bool :=
  (MkAstFile (linesFrom EmptyString src) tt, false).

Definition Fprint (f : AstFile unit) : string := unlines (ImportValues f).

Fixpoint assoc {A : Type} (k : string) (l : list (string * A)) : option A :=
  match l with
  | [] => None
  | (k', a) :: l' => if String.eqb k k' then Some a else assoc k l'
  end.

(** A package that has no Go files: its import fails. *)
Definition missing (path : string) : Package * importErr :=
  (MkPackage path EmptyString [] [] [], OtherErr).

(** A package found under its own path, with the given imports. *)
Definition package (path : string) (imports : list string) : Package :=
  MkPackage path ("/src/" +:+ path) imports [] [].

(** The environment with directories [dirs] (directory, import path)
    and packages [pkgs] (path given to [Import], package found), in
    which the writing of every file ends as [w]. *)
Definition envWith (w : writing) (dirs : list (string * string))
    (pkgs : list (string * Package)) : Env.t unit :=
  Env.Mk unit
    (fun dir name => dir +:+ "/" +:+ name)
    (fun dir => assoc dir dirs)
    (fun path _ =>
       match assoc path pkgs with
       | Some pkg => (pkg, NoErr)
       | None => missing path
       end)
    parse Fprint (fun _ _ => w) Unquote Quote
    (fun _ m => (map_to_list m).*1).

(** The same where every file can be written. *)
Definition env (dirs : list (string * string))
    (pkgs : list (string * Package)) : Env.t unit :=
  envWith Written dirs pkgs.

(** A file that imports the given paths. *)
Definition source (imports : list string) : string :=
  unlines (Quote <$> imports).

(** A tree at [/w] with the package [r], which imports the old version
    [a/v1/b], a package below that path, and [d]; [d] is outside the
    tree and imports the old version too.  The directory [.git] would
    resolve to a package. *)
Definition root1 : tree :=
  Dir [Entry "a.go" File; Entry "README" File;
       Entry ".git" (Dir [Entry "x.go" File]);
       Entry "sub" (Dir [Entry "s.go" File])].

Definition E1 : Env.t unit :=
  env [("/w", "r"); ("/w/sub", "r/sub"); ("/w/.git", "r/.git")]
      [("r", package "r" ["a/v1/b"; "d"]);
       ("r/sub", package "r/sub" []);
       ("d", package "d" ["a/v1/b"]);
       ("a/v2/b", package "a/v2/b" [])].

Definition fs1 : gmap string string :=
  {[ "/w/a.go" := source ["a/v1/b"; "d"; "a/v1/b/c"];
     "/w/sub/s.go" := source ["fmt"] ]}.

(** The same with the version at the end of the path: [r] imports
    [t.v1] and [d], and [d], outside the tree, imports [t.v1]. *)
Definition root2 : tree := Dir [Entry "a.go" File].

Definition E2 : Env.t unit :=
  env [("/w", "r")]
      [("r", package "r" ["t.v1"; "d"]);
       ("d", package "d" ["t.v1"]);
       ("t.v2", package "t.v2" [])].

Definition fs2 : gmap string string :=
  {[ "/w/a.go" := source ["t.v1"; "d"] ]}.

(** The same without [d]: nothing is inconsistent. *)
Definition E3 : Env.t unit :=
  env [("/w", "r")]
      [("r", package "r" ["t.v1"]); ("t.v2", package "t.v2" [])].

Definition fs3 : gmap string string :=
  {[ "/w/a.go" := source ["t.v1"] ]}.

(** The same in a tree that cannot be written to: [os.Create] fails,
    and so does the write to the nil file in [w.Flush()]. *)
Definition E3readonly : Env.t unit :=
  envWith (CreateFails (Some FlushErr)) [("/w", "r")]
    [("r", package "r" ["t.v1"]); ("t.v2", package "t.v2" [])].

(** The same on a full disk: [os.Create] truncates the file, and the
    write in [w.Flush()] fails after the first four bytes. *)
Definition E3full : Env.t unit :=
  envWith (WriteFails FlushErr 4) [("/w", "r")]
    [("r", package "r" ["t.v1"]); ("t.v2", package "t.v2" [])].

(** Two packages that import each other. *)
Definition Ecycle : Env.t unit :=
  env [] [("a", package "a" ["b"]); ("b", package "b" ["a"])].

Definition noFlags : V3.flags := V3.MkFlags EmptyString false false.

End Example.

(** ** Words of the description, for [src/govers.go]

    The first version has no pattern of its own: a path is a version of
    the new package path when the two have the same canonical form. *)

Module V1Spec.
Import Go World.

(** [p] is the new package path up to the numbers of its version
    elements. *)
Definition sameUpToVersion (fixPackage p : string) : bool :=
String.eqb (V1.canonicalPath p) (V1.canonicalPath fixPackage).

(** The literal that [changeVersion] leaves for the import with the
    literal [value] and the path [impPath]. *)
Definition newValue {Rest : Type} (E : Env.t Rest) (fixPackage : string)
    (value impPath : string) : string :=
  if sameUpToVersion fixPackage impPath then Env.Quote E fixPackage
  else value.

End V1Spec.

(** ** Notions for the proofs about the matcher *)

Module RegexpSpec.
Import Go Regexp.

(** Every group recorded in [caps] ends at or before [N]. *)
Definition bounded (N : nat) (caps : captures) : Prop :=
  forall n a b, caps !! n = Some (Some (a, b)) -> b <= N.

(** What a successful match hands to its continuation. *)
Definition handsOver (s : string) (pos : nat) (caps : captures)
    (k : string -> nat -> captures -> option captures)
    (res : captures) : Prop :=
  exists s' pos' caps',
    k s' pos' caps' = Some res
    /\ pos' + len s' = pos + len s
    /\ pos <= pos'
    /\ length caps' = length caps
    /\ (forall N, bounded N caps -> pos + len s <= N -> bounded N caps')
    /\ s' = drop (pos' - pos) s.

End RegexpSpec.

(** ** Words of the description, for the walk *)

Module WalkSpec.
Import Go World.

Section WithEnv.
Context {Rest : Type} (E : Env.t Rest).

(** [Entered path t dir es]: in the tree [t] at [path], the
    directory [dir] with the entries [es] is [t] itself or is reached
    from it through readable directories whose names do not start
with a dot. *)
Inductive Entered : string -> tree -> string -> list entry -> Prop :=
| Entered_here path es : Entered path (Dir es) path es
| Entered_below path es name node dir es' :
    In (Entry name node) es ->
    HasPrefix name "." = false ->
    Entered (Env.Join E path name) node dir es' ->
    Entered path (Dir es) dir es'.

(** The entries of a directory that are not directories and whose
    names end in [.go], as paths. *)
Fixpoint goFilesOf (dir : string) (es : list entry) : list string :=
  match es with
  | [] => []
  | Entry name node :: es' =>
      if negb (IsDir node) && HasSuffix name ".go"
      then Env.Join E dir name :: goFilesOf dir es'
      else goFilesOf dir es'
  end.

(** The edit set [m] has, under the import path [ip], the entry of
    a directory entered in [t] that resolves to [ip]. *)
Definition registered (path : string) (t : tree)
    (m : gmap string editPkg) (ip : string) : Prop :=
  exists dir es,
    Entered path t dir es
    /\ Env.ImportDir E dir = Some ip
    /\ m !! ip = Some (MkEditPkg (goFilesOf dir es) false).

(** The edit set has, under [ip], the entry of a directory entered
    below [path] through one of the entries [es]. *)
Definition registeredBelow (path : string) (es : list entry)
    (m : gmap string editPkg) (ip : string) : Prop :=
  exists name node dir es',
    In (Entry name node) es
    /\ HasPrefix name "." = false
    /\ Entered (Env.Join E path name) node dir es'
    /\ Env.ImportDir E dir = Some ip
    /\ m !! ip = Some (MkEditPkg (goFilesOf dir es') false).

(** [walk] changes the entry under [ip] only to that of a
    directory entered in the node. *)
Definition walkChanges (walk : string -> tree -> state -> state)
    (ip : string) (node : tree) : Prop :=
  forall p st,
    editPkgs (walk p node st) !! ip = editPkgs st !! ip
    \/ registered p node (editPkgs (walk p node st)) ip.

(** [walk] leaves an entry under [ip] for every directory entered
    in the node that resolves to [ip]. *)
Definition walkRegisters (walk : string -> tree -> state -> state)
    (ip : string) (node : tree) : Prop :=
  forall p st dir es,
    Entered p node dir es -> Env.ImportDir E dir = Some ip ->
    registered p node (editPkgs (walk p node st)) ip.

End WithEnv.
End WalkSpec.

(** ** Words of the description, for the check of the dependencies *)

Module CheckSpec.
Import Go World.

Section WithEnv.
Context {Rest : Type} (E : Env.t Rest).

(** The import table is keyed by the package path: the package
    found for a path has that path as its import path. *)
Definition keyed : Prop :=
  forall p, ImportPath (fst (Env.Import E p ".")) = p.

(** The import graph is finite: only the packages in [univ] import
    anything. *)
Definition finiteGraph (univ : list string) : Prop :=
  forall p, ~ In p univ -> Imports (fst (Env.Import E p ".")) = [].

End WithEnv.

Section Reports.
Context {Rest : Type} (E : Env.t Rest).
Variable fixPackage : string.

(** In [src/govers.go], an import path that is the new package path
    up to its version, and not the new package path itself. *)
Definition otherVersion (impPath : string) : Prop :=
  V1.canonicalPath impPath = V1.canonicalPath fixPackage
  /\ impPath <> fixPackage.




End Reports.

(** The packages of [univ] that are not yet checked. *)
Definition unchecked (univ : list string) (st : state) : list string :=
  List.filter (fun p => negb (is_checked p st)) univ.

(** The record of the imports agrees with the memo: every path that
    was imported is marked as checked, and none was imported twice. *)
Definition traced (st : state) : Prop :=
  (forall p, In p (imported st) -> is_checked p st = true)
  /\ NoDup (imported st).

(** A call that ends, by returning or by a panic. *)
Definition ends (r : run unit) (st' : state) : Prop :=
  r = Returns tt st' \/ r = Panics st'.

(** What is known of a call that ends in a state [st']. *)
Definition good (st st' : state) : Prop :=
  traced st' /\ Frames.checkStep st st'.

End CheckSpec.

(** ** Words of the description, for what [main] prints *)

Module PrintSpec.
Import Go World.

(** [w] can be the files of the package [path] on which a run has
    called [os.Create]: none, or some of the files of a package that
    is marked as needing an edit, in their order. *)
Definition createdOf (m : gmap string editPkg) (path : string)
    (w : list string) : Prop :=
  w = []
  \/ exists ep, m !! path = Some ep /\ needsEdit ep = true
                /\ sublist w (goFiles ep).

(** One line for each package for which the list of these files is
    not empty, in the order of the iteration. *)
Fixpoint printedFor (paths : list string) (ws : list (list string))
  : list outLine :=
  match paths, ws with
  | path :: paths', w :: ws' =>
      match w with
      | [] => printedFor paths' ws'
      | _ :: _ => PathLine path :: printedFor paths' ws'
      end
  | _, _ => []
  end.

(** In the final state [st], reached by going through the packages
    in the order [paths], standard output has exactly one line for
    each package on a file of which the run has called [os.Create],
    whether the file could then be opened and written or not. *)
Definition printsCreated (paths : list string) (st : state) : Prop :=
  exists ws,
    Forall2 (createdOf (editPkgs st)) paths ws
    /\ created st = rev (concat ws)
    /\ stdout st = printedFor paths ws.

(** [changeVersion] calls [os.Create] on the file exactly when it
    returns true, and on no other file, and does nothing to the edit
    set and to standard output. *)
Definition writer (changeVersion : string -> state -> run bool) : Prop :=
  forall file st b st',
    changeVersion file st = Returns b st' ->
    stdout st' = stdout st /\ editPkgs st' = editPkgs st
    /\ created st' = (if b then [file] else []) ++ created st.

(** From [st] to [st'] every file on which [os.Create] was not
    called is left as it is. *)
Definition createsOnly (st st' : state) : Prop :=
  exists more,
    created st' = more ++ created st
    /\ forall f, ~ In f more -> files st' !! f = files st !! f.

(** In [st] every file on which [os.Create] was not called is as it
    is in [fs]. *)
Definition othersKept (fs : gmap string string) (st : state) : Prop :=
  forall f, ~ In f (created st) -> files st !! f = fs !! f.

Section Dry.
Context {Rest : Type} (E : Env.t Rest).
Variable newPackage : string.
Variable oldPackagePat : Regexp.Regexp.
Variable fs : gmap string string.

(** [changed] at the end of the loop of [changeVersion] of the last
    version over the imports of [file], as it is in [fs]: whether
    [fixPath] changes one of them.  It is false for a file on which
    [changeVersion] panics. *)
Definition changedIn (file : string) : bool :=
  match fs !! file with
  | Some src =>
      match V3.fixImports E newPackage oldPackagePat
              (ImportValues (fst (Env.parse E src))) with
      | Some (_, changed) => changed
      | None => false
      end
  | None => false
  end.

(** The package [path] is marked as needing an edit, and one of its
    files has such an import. *)
Definition wouldEdit (m : gmap string editPkg) (path : string) : bool :=
  match m !! path with
  | Some ep => needsEdit ep && existsb changedIn (goFiles ep)
  | None => false
  end.

(** One line for each of these packages, in the order of the
    iteration. *)
Definition dryLines (m : gmap string editPkg) (paths : list string)
  : list outLine :=
  PathLine <$> List.filter (wouldEdit m) paths.

End Dry.

End PrintSpec.

(** ** The pattern for a package path that ends in its version *)

Module VersionSpec.
Import Go Regexp.

Definition isSep (c : ascii) : bool :=
  member false [("/", "/"); ("|", "|"); (".", ".")]%char c.

Definition isDigit (c : ascii) : bool :=
  member false [("0", "9")]%char c.

(** The literal bytes of [L], then [r]. *)
Fixpoint litsThen (L : string) (r : regex) : regex :=
  match L with
  | EmptyString => r
  | String c L' => Cat (Lit c) (litsThen L' r)
  end.

(** What [versPat] compiles to, with [g] the number of its group. *)
Definition versExpr (g : nat) : regex :=
  Cat (Class false [("/", "/"); ("|", "|"); (".", ".")]%char)
    (Cat (Lit "v")
       (Cat (Plus (Class false [("0", "9")]%char))
          (Cat (Quest (Capture g (litsThen "-unstable" Empty))) Empty))).

(** What [(/|$)] compiles to. *)
Definition slashOrEnd (g : nat) : regex :=
  Capture g (Alt (Cat (Lit "/") Empty) (Cat EndText Empty)).

(** The pattern [^(L versPat)(/|$)] for the text [L] before the
    version. *)
Definition derived (L : string) : Regexp :=
  MkRegexp
    (Cat BeginText
       (Cat (Capture 1 (litsThen L (versExpr 2)))
          (Cat (slashOrEnd 3) Empty)))
    3.

(** A version element: a separator, [v], digits, and possibly
    [-unstable]. *)
Definition version (sep : ascii) (ds u : string) : string :=
String sep (String "v" (ds +:+ u)).

(** [s] is empty or starts with a slash. *)
Definition endOrSlash (s : string) : Prop :=
  s = EmptyString \/ exists t, s = String "/" t.

(** The captures after a version element matched at [pos]. *)
Definition afterVersion (pos : nat) (ds u : string) (caps : captures)
  : captures :=
  match u with
  | EmptyString => caps
  | _ => <[2 := Some (pos + 2 + len ds, pos + 2 + len ds + 9)]> caps
  end.

End VersionSpec.

(** ** Words for the flag [-tags] *)

Module TagsWords.
Import Go Tags TagsSpec.

(** [strings.Join(fs, " ")] *)
Fixpoint joinSpace (fs : list string) : string :=
  match fs with
  | [] => EmptyString
  | [f] => f
  | f :: fs' => f +:+ String " " (joinSpace fs')
  end.

(** A field as one writes it without quotes: not empty, no white
    space in it, and no quote at its start. *)
Definition bare (f : string) : Prop :=
  solid f /\ starts (fun c => negb (isQuoteByte c)) f.

(** No byte of [s] is a quote. *)
Definition quoteFree (s : string) : Prop :=
  all (fun c => negb (isQuoteByte c)) s = true.

(** The result [r] with the fields [f] before its own. *)
Definition prepend (f : list string) (r : result) : result :=
  match r with
  | Fields g => Fields (f ++ g)
  | Unterminated q => Unterminated q
  end.

End TagsWords.

(** ** Words for the walk and the check, for what they never do *)

Module RunWords.
Import Go World.

(** A line of [walkDir]: a directory that could not be read. *)
Definition readFailure (l : logLine) : Prop :=
  exists path, l = CannotReadDirectory path.

(** The lines added from [st] to [st'] are all of directories that
    could not be read. *)
Definition onlyReadFailures (st st' : state) : Prop :=
  exists more, stderr st' = stderr st ++ more /\ Forall readFailure more.

End RunWords.

(** ** The pattern [/v[0-9]+/] of [src/govers.go], read on the text *)

Module CanonWords.
Import Go Regexp VersionSpec.

(** [t] starts with digits, at least one unless [seen], and a slash:
    the length of that. *)
Fixpoint digitsSlash (t : string) (seen : bool) : option nat :=
  match t with
  | EmptyString => None
  | String c t' =>
      if isDigit c then S <$> digitsSlash t' true
      else if seen && Ascii.eqb c "/" then Some 1 else None
  end.

(** [s] starts with a version element, [/v], digits and a slash: the
    length of the element. *)
Definition versLen (s : string) : option nat :=
  match s with
  | String c1 (String c2 t) =>
      if Ascii.eqb c1 "/" && Ascii.eqb c2 "v"
      then (fun n => 2 + n) <$> digitsSlash t false
      else None
  | _ => None
  end.

(** The first version element of [s]: where it starts, and its
    length. *)
Fixpoint firstVers (s : string) : option (nat * nat) :=
  match versLen s with
  | Some n => Some (0, n)
  | None =>
      match s with
      | String _ s' => (fun an => (S (fst an), snd an)) <$> firstVers s'
      | EmptyString => None
      end
  end.

(** [s] has no version element. *)
Definition versionFree (s : string) : Prop := firstVers s = None.

(** Every version element replaced by [0], from left to right; [fuel]
    bounds the number of elements. *)
Fixpoint canonLoop (fuel : nat) (s : string) : string :=
  match fuel with
  | O => s
  | S fuel' =>
      match firstVers s with
      | Some (a, n) =>
          take a s +:+ String "0" (canonLoop fuel' (drop (a + n) s))
      | None => s
      end
  end.

End CanonWords.

(** ** Words for what the check of [src/govers.go] records *)

Module CheckWords.
Import Go World.

(** The property [Inv] holds after a step, whatever was before. *)
Definition holds (Inv : state -> Prop) (_ st' : state) : Prop := Inv st'.

Section WithEnv.
Context {Rest : Type} (E : Env.t Rest).
Variable fixPackage : string.

(** The package [q] can be imported, and [imp], one of its
    imports, is another version of the new package path. *)
Definition usesOther (q imp : string) : Prop :=
  exists pkg,
    Env.Import E q "." = (pkg, NoErr)
    /\ In imp (Imports pkg)
    /\ CheckSpec.otherVersion fixPackage imp.

(** Every line [q uses imp] on standard error is right: [q] is not
    one of the packages being edited and does import [imp], another
    version; and the failure is recorded. *)
Definition reportsRight (st : state) : Prop :=
  forall q imp,
    In (Uses q imp) (stderr st) ->
    editPkgs st !! q = None /\ failed st = true /\ usesOther q imp.

(** Every package that is marked as needing an edit imports
    another version. *)
Definition marksRight (st : state) : Prop :=
  forall q ep,
    editPkgs st !! q = Some ep -> needsEdit ep = true ->
    exists imp, usesOther q imp.

(** A recorded failure has its line on standard error. *)
Definition failureExplained (st : state) : Prop :=
  failed st = true -> exists q imp, In (Uses q imp) (stderr st).

Definition sound (st : state) : Prop :=
  reportsRight st /\ marksRight st /\ failureExplained st.

(** Every use of another version by one of the imports [imps] of
    the package [q], one of the packages being edited, has left
    the package marked as needing an edit. *)
Definition markedOf (st : state) (q : string) (imps : list string)
  : Prop :=
  forall ep imp,
    editPkgs st !! q = Some ep ->
    In imp imps -> CheckSpec.otherVersion fixPackage imp ->
    needsEdit ep = true.

(** The same for all the imports of [q], when it can be imported. *)
Definition marked (st : state) (q : string) : Prop :=
  forall pkg,
    Env.Import E q "." = (pkg, NoErr) -> markedOf st q (Imports pkg).

(** What a call of [checkPackage] that returns has done: every
    package it has imported is marked where it has to be. *)
Definition marksNew (st st' : state) : Prop :=
  Frames.checkStep st st'
  /\ forall q, In q (imported st') ->
               In q (imported st) \/ marked st' q.

End WithEnv.
End CheckWords.

(** ** The version pattern of the last version, read on the text *)

Module VersWords.
Import Go Regexp VersionSpec.

(** [regexp.MustCompile(versPat + "(/|$)")] of [pathVersionPat] *)
Definition versRe : Regexp :=
  Eval vm_compute in MustCompile (V3.versPat +:+ "(/|$)").

(** [s] starts with a separator, [v] and a digit, as every version
    element does. *)
Definition versStart (s : string) : bool :=
  match s with
  | String c1 (String c2 (String c3 _)) =>
      isSep c1 && Ascii.eqb c2 "v" && isDigit c3
  | _ => false
  end.

(** Nowhere in [s] does a version element start. *)
Fixpoint noVersStart (s : string) : bool :=
  negb (versStart s)
  && match s with
     | String _ s' => noVersStart s'
     | EmptyString => true
     end.

End VersWords.

(** ** Words for what the check of the last version records *)

Module CheckWords3.
Import Go World.

Section WithEnv.
Context {Rest : Type} (E : Env.t Rest).
Variable newPackage : string.
Variable oldPackagePat : Regexp.Regexp.

(** [fixPath] changes the path [b]. *)
Definition changes (b : string) : Prop :=
  exists p, V3.fixPath newPackage oldPackagePat b = Some p /\ p <> b.

(** The import path of the package that [build.Import] finds for
    the import [impPath] of [pkg]. *)
Definition resolved (pkg : Package) (impPath : string) : string :=
  ImportPath (fst (Env.Import E impPath (PkgDir pkg))).

(** All the imports that [checkPackage] looks at for a package that
    is being edited. *)
Definition allImports (pkg : Package) : list string :=
  Imports pkg ++ TestImports pkg ++ XTestImports pkg.

(** [a] is the import path of the package found for [path], and
    [b] the import path of one of its imports, which [fixPath]
    changes. *)
Definition inconsistent (path a b : string) : Prop :=
  exists fromDir pkg impPath,
    Env.Import E path fromDir = (pkg, NoErr)
    /\ a = ImportPath pkg
    /\ In impPath (Imports pkg)
    /\ b = resolved pkg impPath
    /\ changes b.

(** Every line [package a is using inconsistent path b] is right,
    and comes with the failure recorded. *)
Definition reportsRight (st : state) : Prop :=
  forall a b,
    In (InconsistentPath a b) (stderr st) ->
    failed st = true
    /\ exists path, editPkgs st !! path = None /\ inconsistent path a b.

(** Every package that is marked as needing an edit has an import,
    test imports included, that [fixPath] changes. *)
Definition marksRight (st : state) : Prop :=
  forall q ep,
    editPkgs st !! q = Some ep -> needsEdit ep = true ->
    exists fromDir pkg impPath,
      Env.Import E q fromDir = (pkg, NoErr)
      /\ In impPath (allImports pkg)
      /\ changes (resolved pkg impPath).

(** A recorded failure has its line on standard error. *)
Definition failureExplained (st : state) : Prop :=
  failed st = true ->
  exists a b, In (InconsistentPath a b) (stderr st).

Definition sound (st : state) : Prop :=
  reportsRight st /\ marksRight st /\ failureExplained st.

(** A step of the check that leaves [Inv] true. *)
Definition keepsTrue (Inv : state -> Prop) (st st' : state) : Prop :=
  Frames.checkStep st st' /\ Inv st'.

End WithEnv.

(** A line of [checkPackage] about a package that cannot be
    imported. *)
Definition importFailure (l : logLine) : Prop :=
  exists path fromDir, l = CannotImportFrom path fromDir.

(** With [-d]: the failure flag is as it was, and the lines added to
    standard error are of packages that cannot be imported. *)
Definition quietStep (st st' : state) : Prop :=
  Frames.checkStep st st'
  /\ failed st' = failed st
  /\ exists more,
       stderr st' = stderr st ++ more /\ Forall importFailure more.

End CheckWords3.

(** ** Words for [changeVersion] of the last version *)

Module ChangeWords3.
Import Go World.

Section WithEnv.
Context {Rest : Type} (E : Env.t Rest).

(** The literal that [changeVersion] leaves for an import with the
    literal [value] and the path [impPath], which [fixPath] turns
    into [p]. *)
Definition newValue (value impPath p : string) : string :=
  if negb (String.eqb p impPath) then Env.Quote E p else value.

Fixpoint newValues (values imps ps : list string) : list string :=
  match values, imps, ps with
  | v :: values', i :: imps', p :: ps' =>
      newValue v i p :: newValues values' imps' ps'
  | _, _, _ => []
  end.

(** [fixPath] has changed one of the paths [imps] into other than
    itself. *)
Fixpoint anyChanged (imps ps : list string) : bool :=
  match imps, ps with
  | i :: imps', p :: ps' =>
      negb (String.eqb p i) || anyChanged imps' ps'
  | _, _ => false
  end.

End WithEnv.
End ChangeWords3.

(** ** Words for the check of the last version as a walk of the graph *)

Module ReachWords3.
Import Go World.

Section WithEnv.
Context {Rest : Type} (E : Env.t Rest).

(** The import table is keyed by the package path, whatever the
    directory the import is made from. *)
Definition keyed : Prop :=
  forall p d, ImportPath (fst (Env.Import E p d)) = p.

(** The directory an import is made from does not matter: there
    are no vendor directories. *)
Definition dirFree : Prop :=
  forall p d, Env.Import E p d = Env.Import E p ".".

(** Only the packages in [univ] import anything, their tests
    included. *)
Definition finiteGraph (univ : list string) : Prop :=
  forall p d,
    ~ In p univ ->
    CheckWords3.allImports (fst (Env.Import E p d)) = [].

Variable fl : V3.flags.
Variable newPackage : string.
Variable oldPackagePat : Regexp.Regexp.

(** The imports of [pkg], found for [q], that [checkPackage] looks
    at: those of its tests too when [q] is being edited. *)
Definition considered (st : state) (q : string) (pkg : Package)
  : list string :=
  match editPkgs st !! q with
  | Some _ => CheckWords3.allImports pkg
  | None => Imports pkg
  end.

(** What the check has done for the imports [imps] of [q]: an
    import that [fixPath] changes has left [q] marked, when [q] is
    being edited, and is reported otherwise; and, without [-d],
    what [fixPath] gives for an import is checked too, the pseudo
    package [C] and the reported imports apart. *)
Definition settledOf (st : state) (q : string) (imps : list string)
  : Prop :=
  forall imp p,
    In imp imps ->
    V3.fixPath newPackage oldPackagePat imp = Some p ->
    (p <> imp ->
     match editPkgs st !! q with
     | Some ep => needsEdit ep = true
     | None => In (InconsistentPath q imp) (stderr st)
               /\ failed st = true
     end)
    /\ (V3.noDependencies fl = false ->
        p = imp \/ is_Some (editPkgs st !! q) ->
        p = "C" \/ is_checked p st = true).

(** The same for all the imports of [q] that are looked at, when
    [q] can be imported. *)
Definition settled (st : state) (q : string) : Prop :=
  forall pkg,
    Env.Import E q "." = (pkg, NoErr) ->
    settledOf st q (considered st q pkg).

(** What a call of [checkPackage] that returns has done: every
    package it has marked as checked is settled. *)
Definition settledNew (st st' : state) : Prop :=
  Frames.checkStep st st'
  /\ forall q, is_checked q st' = true ->
               is_checked q st = true \/ settled st' q.

End WithEnv.
End ReachWords3.

(** * Proofs *)

(** ** Facts about strings *)

Module GoFacts.
Import Go.

Lemma app_cons c a b : String c a +:+ b = String c (a +:+ b).
Proof. reflexivity. Qed.

Lemma app_nil_l a : EmptyString +:+ a = a.
Proof. reflexivity. Qed.

Lemma app_nil_r a : a +:+ EmptyString = a.
Proof. induction a as [|c a IH]; [reflexivity|]. rewrite app_cons, IH. reflexivity. Qed.

Lemma app_assoc a b c : (a +:+ b) +:+ c = a +:+ (b +:+ c).
Proof.
  induction a as [|x a IH]; [reflexivity|].
  rewrite !app_cons, IH. reflexivity.
Qed.

Lemma len_app a b : len (a +:+ b) = len a + len b.
Proof.
  induction a as [|x a IH]; [reflexivity|].
  rewrite app_cons. cbn [len String.length] in *. unfold len in IH.
  rewrite IH. reflexivity.
Qed.

Lemma len_cons c a : len (String c a) = S (len a).
Proof. reflexivity. Qed.

Lemma take_app a b : take (len a) (a +:+ b) = a.
Proof.
  induction a as [|x a IH]; [destruct b; reflexivity|].
  rewrite app_cons, len_cons. cbn [take]. rewrite IH. reflexivity.
Qed.

Lemma drop_app a b : drop (len a) (a +:+ b) = b.
Proof.
  induction a as [|x a IH]; [destruct b; reflexivity|].
  rewrite app_cons, len_cons. cbn [drop]. exact IH.
Qed.

Lemma take_drop n s : take n s +:+ drop n s = s.
Proof.
  revert s; induction n as [|n IH]; intros [|c s]; try reflexivity.
  cbn [take drop]. rewrite app_cons, IH. reflexivity.
Qed.

Lemma len_take n s : n <= len s -> len (take n s) = n.
Proof.
  revert s; induction n as [|n IH]; intros [|c s] H; try reflexivity.
  - cbn in H. lia.
  - cbn [take]. rewrite !len_cons in *. rewrite IH; lia.
Qed.

Lemma len_drop n s : len (drop n s) = len s - n.
Proof.
  revert s; induction n as [|n IH]; intros [|c s]; try reflexivity.
  cbn [drop]. rewrite len_cons, IH. reflexivity.
Qed.

Lemma drop_0 s : drop 0 s = s.
Proof. destruct s; reflexivity. Qed.

Lemma take_0 s : take 0 s = EmptyString.
Proof. destruct s; reflexivity. Qed.

Lemma take_all s : take (len s) s = s.
Proof. rewrite <- (app_nil_r s) at 2. apply take_app. Qed.

Lemma drop_all s : drop (len s) s = EmptyString.
Proof. rewrite <- (app_nil_r s) at 2. apply drop_app. Qed.

Lemma len_0 s : len s = 0 -> s = EmptyString.
Proof. destruct s; [reflexivity | discriminate]. Qed.

Lemma scan_le stop s : scan stop s <= len s.
Proof.
  induction s as [|c s IH]; [cbn; lia|].
  cbn [scan]. rewrite len_cons. destruct (stop c); lia.
Qed.

Lemma eqb_refl s : String.eqb s s = true.
Proof. apply String.eqb_refl. Qed.

Lemma app_inv_head a b c : a +:+ b = a +:+ c -> b = c.
Proof.
  induction a as [|x a IH]; [auto|].
  rewrite !app_cons. intros H. injection H. exact IH.
Qed.

Lemma drop_drop a b s : drop a (drop b s) = drop (b + a) s.
Proof.
  revert s; induction b as [|b IH]; intros s.
  - rewrite drop_0. reflexivity.
  - destruct s as [|c s]; [destruct a; reflexivity|]. cbn [drop plus].
    apply IH.
Qed.

End GoFacts.

(** ** [splitQuotedFields] against its description *)

Module TagsFacts.
Import Go Tags TagsSpec GoFacts.

Lemma all_app P a b : all P (a +:+ b) = all P a && all P b.
Proof.
  induction a as [|c a IH]; [reflexivity|].
  rewrite app_cons. cbn [all]. rewrite IH, andb_assoc. reflexivity.
Qed.

(** The scan stops at the first byte that satisfies [stop]. *)
Lemma scan_app stop a b :
  all (fun c => negb (stop c)) a = true ->
  endsOrStarts stop b ->
  scan stop (a +:+ b) = len a.
Proof.
  intros Ha Hb. induction a as [|c a IH].
  - rewrite app_nil_l. destruct b as [|c b]; [reflexivity|].
    cbn in Hb |- *. rewrite Hb. reflexivity.
  - cbn [all] in Ha. apply andb_true_iff in Ha as [Hc Ha].
    rewrite app_cons. cbn [scan]. apply negb_true_iff in Hc.
    rewrite Hc, IH by assumption. reflexivity.
Qed.

Lemma scan_take stop s : all (fun c => negb (stop c)) (take (scan stop s) s) = true.
Proof.
  induction s as [|c s IH]; [reflexivity|].
  cbn [scan]. destruct (stop c) eqn:Hc; [reflexivity|].
  cbn [take all]. rewrite Hc, IH. reflexivity.
Qed.

Lemma scan_drop stop s : endsOrStarts stop (drop (scan stop s) s).
Proof.
  induction s as [|c s IH]; [exact I|].
  cbn [scan]. destruct (stop c) eqn:Hc; [exact Hc|]. exact IH.
Qed.

Lemma skipSpaces_app ws s :
  blank ws -> skipSpaces (ws +:+ s) = skipSpaces s.
Proof.
  unfold blank. induction ws as [|c ws IH]; [reflexivity|].
  cbn [all]. intros [Hc Hws]%andb_true_iff.
  rewrite app_cons. cbn [skipSpaces]. rewrite Hc. auto.
Qed.

Lemma skipSpaces_blank ws : blank ws -> skipSpaces ws = EmptyString.
Proof.
  intros H. rewrite <- (app_nil_r ws), skipSpaces_app by assumption.
  reflexivity.
Qed.

Lemma skipSpaces_starts s :
  starts (fun c => negb (isSpaceByte c)) s -> skipSpaces s = s.
Proof.
  destruct s as [|c s]; [reflexivity|]. cbn. intros H.
  apply negb_true_iff in H. rewrite H. reflexivity.
Qed.

(** The white space that [skipSpaces] removes. *)
Lemma skipSpaces_split s :
  exists ws, blank ws /\ s = ws +:+ skipSpaces s
             /\ endsOrStarts (fun c => negb (isSpaceByte c)) (skipSpaces s).
Proof.
  induction s as [|c s (ws & Hws & Hs & Hn)].
  - exists EmptyString. repeat split.
  - cbn [skipSpaces]. destruct (isSpaceByte c) eqn:Hc.
    + exists (String c ws). repeat split; [| |exact Hn].
      * unfold blank in *. cbn [all]. rewrite Hc, Hws. reflexivity.
      * rewrite app_cons, <- Hs. reflexivity.
    + exists EmptyString. repeat split. cbn. rewrite Hc. reflexivity.
Qed.

Lemma quote_not_space q : isQuoteByte q = true -> isSpaceByte q = false.
Proof.
  unfold isQuoteByte, isSpaceByte.
  intros [H|H]%orb_true_iff; apply Ascii.eqb_eq in H; subst; reflexivity.
Qed.

Lemma len_skipSpaces s : len (skipSpaces s) <= len s.
Proof.
  induction s as [|c s IH]; [cbn; lia|].
  cbn [skipSpaces]. destruct (isSpaceByte c); rewrite ?len_cons in *; lia.
Qed.

Lemma without_stop q s :
  without q s -> all (fun c => negb (Ascii.eqb q c)) s = true.
Proof. exact (fun H => H). Qed.

(** One step of the loop on a text that starts with a quoted field. *)
Lemma splitLoop_quoted fuel ws q body after f :
  blank ws -> isQuoteByte q = true -> without q body ->
  splitLoop (S fuel) (ws +:+ String q (body +:+ String q after)) f
  = splitLoop fuel after (f ++ [body]).
Proof.
  intros Hws Hq Hb. cbn [splitLoop].
  destruct (len (ws +:+ String q (body +:+ String q after)) =? 0) eqn:Hl.
  { apply Nat.eqb_eq in Hl. rewrite len_app, len_cons in Hl. lia. }
  rewrite skipSpaces_app by assumption.
  cbn [skipSpaces]. rewrite (quote_not_space q Hq), Hq. cbv zeta.
  assert (Hs : scan (Ascii.eqb q) (body +:+ String q after) = len body).
  { apply scan_app; [exact Hb|]. cbn. apply Ascii.eqb_refl. }
  rewrite Hs.
  destruct (len (body +:+ String q after) <=? len body) eqn:Hle.
  { apply Nat.leb_le in Hle. rewrite len_app, len_cons in Hle. lia. }
  rewrite take_app.
  replace (len body + 1) with (len (body +:+ String q EmptyString))
    by (rewrite len_app; reflexivity).
  replace (body +:+ String q after)
with ((body +:+ String q EmptyString) +:+ after)
by (rewrite app_assoc; reflexivity).
rewrite drop_app. reflexivity.
Qed.

(** One step of the loop on a text that starts with an open quote. *)
Lemma splitLoop_unclosed fuel ws q body f :
  blank ws -> isQuoteByte q = true -> without q body ->
  splitLoop (S fuel) (ws +:+ String q body) f = Some (Unterminated q).
Proof.
  intros Hws Hq Hb. cbn [splitLoop].
  destruct (len (ws +:+ String q body) =? 0) eqn:Hl.
  { apply Nat.eqb_eq in Hl. rewrite len_app, len_cons in Hl. lia. }
  rewrite skipSpaces_app by assumption.
  cbn [skipSpaces]. rewrite (quote_not_space q Hq), Hq. cbv zeta.
  assert (Hs : scan (Ascii.eqb q) body = len body).
  { rewrite <- (app_nil_r body) at 1. apply scan_app; [exact Hb|exact I]. }
  rewrite Hs, Nat.leb_refl. reflexivity.
Qed.

(** One step of the loop on a text that starts with a bare field. *)
Lemma splitLoop_bare fuel ws w after f :
  blank ws -> solid w ->
  starts (fun c => negb (isQuoteByte c)) w ->
  endsOrStarts isSpaceByte after ->
  splitLoop (S fuel) (ws +:+ w +:+ after) f
  = splitLoop fuel after (f ++ [w]).
Proof.
  intros Hws Hw Hq Ha. cbn [splitLoop].
  destruct w as [|c w]; [destruct Hq|]. cbn in Hq.
  destruct (len (ws +:+ String c w +:+ after) =? 0) eqn:Hl.
  { apply Nat.eqb_eq in Hl. rewrite len_app, app_cons, len_cons in Hl. lia. }
  rewrite skipSpaces_app by assumption. rewrite app_cons.
  pose proof Hw as Hw'. unfold solid in Hw'. cbn [all] in Hw'.
  apply andb_true_iff in Hw' as [Hc Hw'].
  cbn [skipSpaces]. apply negb_true_iff in Hc. rewrite Hc.
  apply negb_true_iff in Hq. rewrite Hq. cbv zeta.
  rewrite <- app_cons.
  rewrite (scan_app isSpaceByte (String c w) after Hw Ha).
  rewrite take_app, drop_app. reflexivity.
Qed.

Lemma splitLoop_blank fuel ws f :
  blank ws -> len ws <= fuel -> splitLoop fuel ws f = Some (Fields f).
Proof.
  intros Hws Hlen. destruct fuel as [|fuel]; cbn [splitLoop].
  - rewrite (len_0 ws) by lia. reflexivity.
  - destruct (len ws =? 0); [reflexivity|].
    rewrite skipSpaces_blank by assumption. reflexivity.
Qed.

(** The description determines the result: fields. *)
Lemma splitLoop_Splits s fs :
  Splits s fs ->
  forall fuel f, len s <= fuel ->
    splitLoop fuel s f = Some (Fields (f ++ fs)).
Proof.
  induction 1 as [ws Hws | ws q body after fs Hws Hq Hb _ IH
                 | ws w after fs Hws Hw Hq Ha _ IH]; intros fuel f Hlen.
  - rewrite (List.app_nil_r f). apply splitLoop_blank; assumption.
  - rewrite len_app, len_cons, len_app, len_cons in Hlen.
    destruct fuel as [|fuel]; [lia|].
    rewrite splitLoop_quoted by assumption.
    rewrite IH by lia. rewrite <- List.app_assoc. reflexivity.
  - destruct w as [|c w]; [destruct Hq|].
    rewrite len_app, len_app, len_cons in Hlen.
    destruct fuel as [|fuel]; [lia|].
    rewrite splitLoop_bare by assumption.
    rewrite IH by lia. rewrite <- List.app_assoc. reflexivity.
Qed.

(** The description determines the result: the error. *)
Lemma splitLoop_Unclosed s q :
  Unclosed s q ->
  forall fuel f, len s <= fuel ->
    splitLoop fuel s f = Some (Unterminated q).
Proof.
  induction 1 as [ws q body Hws Hq Hb | ws q body after q' Hws Hq Hb _ IH
                 | ws w after q' Hws Hw Hq Ha _ IH]; intros fuel f Hlen.
  - rewrite len_app, len_cons in Hlen.
    destruct fuel as [|fuel]; [lia|].
    apply splitLoop_unclosed; assumption.
  - rewrite len_app, len_cons, len_app, len_cons in Hlen.
    destruct fuel as [|fuel]; [lia|].
    rewrite splitLoop_quoted by assumption. apply IH. lia.
  - destruct w as [|c w]; [destruct Hq|].
    rewrite len_app, len_app, len_cons in Hlen.
    destruct fuel as [|fuel]; [lia|].
    rewrite splitLoop_bare by assumption. apply IH. lia.
Qed.

(** Every text is described: it has fields, or an open quote. *)
Lemma described n :
  forall s, len s <= n ->
    (exists fs, Splits s fs) \/ (exists q, Unclosed s q).
Proof.
  induction n as [|n IH]; intros s Hlen.
  - left. exists []. rewrite (len_0 s) by lia. constructor. reflexivity.
  - destruct (skipSpaces_split s) as (ws & Hws & Hs & Hn).
    destruct (skipSpaces s) as [|c s1] eqn:Hsk.
    { left. exists []. rewrite Hs, app_nil_r. constructor. exact Hws. }
    cbn in Hn. rewrite Hs in Hlen. rewrite len_app, len_cons in Hlen.
    destruct (isQuoteByte c) eqn:Hq.
    + (* a field that starts with a quote *)
      pose proof (scan_take (Ascii.eqb c) s1) as Hbody.
      pose proof (scan_drop (Ascii.eqb c) s1) as Hafter.
      pose proof (scan_le (Ascii.eqb c) s1) as Hle.
      pose proof (take_drop (scan (Ascii.eqb c) s1) s1) as Hsplit.
      remember (take (scan (Ascii.eqb c) s1) s1) as body eqn:Ebody.
      destruct (drop (scan (Ascii.eqb c) s1) s1) as [|c' after] eqn:Hd.
      * right. exists c. rewrite Hs. rewrite app_nil_r in Hsplit.
        rewrite <- Hsplit. constructor; assumption.
      * cbn in Hafter. apply Ascii.eqb_eq in Hafter. subst c'.
        assert (Hl : len after <= n).
        { rewrite <- Hsplit, len_app, len_cons in Hlen. lia. }
        destruct (IH after Hl) as [[fs Hfs]|[q' Hq']].
        -- left. exists (body :: fs).
           rewrite Hs, <- Hsplit. constructor; assumption.
        -- right. exists q'. rewrite Hs, <- Hsplit.
           apply Unclosed_quoted; assumption.
    + (* a bare field *)
      set (s0 := String c s1) in *.
      pose proof (scan_take isSpaceByte s0) as Hw.
      pose proof (scan_drop isSpaceByte s0) as Hafter.
      pose proof (take_drop (scan isSpaceByte s0) s0) as Hsplit.
      assert (Hst : starts (fun c => negb (isQuoteByte c))
                      (take (scan isSpaceByte s0) s0)).
      { subst s0. cbn [scan]. apply negb_true_iff in Hn. rewrite Hn.
        cbn. rewrite Hq. reflexivity. }
      assert (Hl : len (drop (scan isSpaceByte s0) s0) <= n).
      { rewrite len_drop. subst s0. cbn [scan].
        apply negb_true_iff in Hn. rewrite Hn, len_cons. lia. }
      remember (take (scan isSpaceByte s0) s0) as w eqn:Ew.
      remember (drop (scan isSpaceByte s0) s0) as after eqn:Eafter.
      destruct (IH _ Hl) as [[fs Hfs]|[q' Hq']].
      * left. exists (w :: fs).
        rewrite Hs, <- Hsplit. constructor; assumption.
      * right. exists q'. rewrite Hs, <- Hsplit.
        apply Unclosed_bare; assumption.
Qed.

End TagsFacts.

(** ** What each phase of [main] can change *)

Module FramesFacts.
Import Go World Frames.

Lemma checkStep_refl st : checkStep st st.
Proof.
  split; auto; try (exists []; rewrite ?List.app_nil_r; reflexivity).
  intros p ep H1 H2. exists ep. auto.
Qed.

Lemma checkStep_trans st1 st2 st3 :
  checkStep st1 st2 -> checkStep st2 st3 -> checkStep st1 st3.
Proof.
  intros [] []. split.
  - congruence.
  - congruence.
  - congruence.
  - auto.
  - destruct cs_stderr0 as [m1 H1], cs_stderr1 as [m2 H2].
    exists (m1 ++ m2). rewrite H2, H1, List.app_assoc. reflexivity.
  - destruct cs_imported0 as [m1 H1], cs_imported1 as [m2 H2].
    exists (m2 ++ m1). rewrite H2, H1, List.app_assoc. reflexivity.
  - auto.
  - intros p. rewrite cs_goFiles1. apply cs_goFiles0.
  - intros p ep H1 H2.
    destruct (cs_needsEdit0 p ep H1 H2) as (ep' & H3 & H4). eauto.
Qed.

Lemma checkStep_set_checked p st : checkStep st (set_checked p st).
Proof.
  split; cbn; auto; try (exists []; rewrite ?List.app_nil_r; reflexivity).
  - intros q. unfold is_checked. cbn.
    destruct (decide (p = q)) as [->|Hne].
    + rewrite lookup_insert_eq. reflexivity.
    + rewrite lookup_insert_ne by exact Hne. auto.
  - intros q ep H1 H2. exists ep. auto.
Qed.

Lemma checkStep_note_import p st : checkStep st (note_import p st).
Proof.
  split; cbn; auto; try (exists []; rewrite ?List.app_nil_r; reflexivity).
  - exists [p]. reflexivity.
  - intros q ep H1 H2. exists ep. auto.
Qed.

Lemma checkStep_logf l st : checkStep st (logf l st).
Proof.
  split; cbn; auto; try (exists []; rewrite ?List.app_nil_r; reflexivity).
  - exists [l]. reflexivity.
  - intros q ep H1 H2. exists ep. auto.
Qed.

Lemma checkStep_set_failed st : checkStep st (set_failed st).
Proof.
  split; cbn; auto; try (exists []; rewrite ?List.app_nil_r; reflexivity).
  intros q ep H1 H2. exists ep. auto.
Qed.

Lemma checkStep_set_needsEdit p st : checkStep st (set_needsEdit p st).
Proof.
  split; cbn; auto; try (exists []; rewrite ?List.app_nil_r; reflexivity).
  - intros q. destruct (decide (p = q)) as [->|Hne].
    + rewrite lookup_alter_eq. destruct (editPkgs st !! q); reflexivity.
    + rewrite lookup_alter_ne by exact Hne. reflexivity.
  - intros q ep H1 H2. destruct (decide (p = q)) as [->|Hne].
    + rewrite lookup_alter_eq, H1. cbn. eauto.
    + rewrite lookup_alter_ne by exact Hne. eauto.
Qed.

Lemma editStep_refl st : editStep st st.
Proof. split; auto; exists []; rewrite ?List.app_nil_r; reflexivity. Qed.

Lemma editStep_trans st1 st2 st3 :
  editStep st1 st2 -> editStep st2 st3 -> editStep st1 st3.
Proof.
  intros [] []. split.
  - congruence.
  - congruence.
  - congruence.
  - congruence.
  - destruct es_stdout0 as [m1 H1], es_stdout1 as [m2 H2].
    exists (m1 ++ m2). rewrite H2, H1, List.app_assoc. reflexivity.
  - destruct es_stderr0 as [m1 H1], es_stderr1 as [m2 H2].
    exists (m1 ++ m2). rewrite H2, H1, List.app_assoc. reflexivity.
  - destruct es_created0 as [m1 H1], es_created1 as [m2 H2].
    exists (m2 ++ m1). rewrite H2, H1, List.app_assoc. reflexivity.
Qed.

Lemma editStep_logf l st : editStep st (logf l st).
Proof.
  split; cbn; auto; try (exists []; rewrite ?List.app_nil_r; reflexivity).
  exists [l]. reflexivity.
Qed.

Lemma editStep_printLine l st : editStep st (printLine l st).
Proof.
  split; cbn; auto; try (exists []; rewrite ?List.app_nil_r; reflexivity).
  exists [l]. reflexivity.
Qed.

Lemma editStep_write_file w p t st : editStep st (write_file w p t st).
Proof.
  split; cbn; auto; try (exists []; rewrite ?List.app_nil_r; reflexivity).
  - exists (writingLines w). reflexivity.
  - exists [p]. reflexivity.
Qed.

Lemma keeps_bindR {A B : Type} (R : state -> state -> Prop)
    (Rtrans : forall a b c, R a b -> R b c -> R a c)
    st (x : run A) (f : A -> state -> run B) :
  keeps R st x ->
  (forall a st', R st st' -> keeps R st' (f a st')) ->
  keeps R st (bindR x f).
Proof.
  destruct x as [a st'| st' |]; cbn; auto.
  intros H Hf. specialize (Hf a st' H).
  destruct (f a st'); cbn in *; eauto.
Qed.

Lemma keeps_weaken {A : Type} (R : state -> state -> Prop)
    (Rtrans : forall a b c, R a b -> R b c -> R a c)
    st st' (r : run A) :
  R st st' -> keeps R st' r -> keeps R st r.
Proof. destruct r; cbn; eauto. Qed.

Create HintDb frames.

#[global] Hint Resolve checkStep_refl checkStep_trans checkStep_set_checked
  checkStep_note_import checkStep_logf checkStep_set_failed
  checkStep_set_needsEdit editStep_refl editStep_trans editStep_logf
  editStep_printLine editStep_write_file : frames.

End FramesFacts.

(** ** The frames of the functions *)

Module WalkFacts.
Import Go World Frames FramesFacts.

(** Induction over a tree that reaches the nodes inside the entries. *)
Lemma tree_induction (P : tree -> Prop) :
  P File -> P Unreadable ->
  (forall es, (forall name node, In (Entry name node) es -> P node) ->
              P (Dir es)) ->
  forall t, P t.
Proof.
  intros HF HU HD. fix IH 1. intros [|es|]; [exact HF| |exact HU].
  apply HD. induction es as [|[name node] es IHes]; intros n t [].
  - injection H as <- <-. apply IH.
  - eapply IHes; eassumption.
Qed.

Lemma walkStep_refl st : walkStep st st.
Proof. split; reflexivity. Qed.

Lemma walkStep_trans a b c : walkStep a b -> walkStep b c -> walkStep a c.
Proof. intros [] []. split; congruence. Qed.

Section WithEnv.
Context {Rest : Type} (E : Env.t Rest).

Lemma entriesLoop_walkStep walk path es :
  (forall name node p st, In (Entry name node) es ->
     walkStep st (walk p node st)) ->
  forall ep st, walkStep st (snd (Walk.entriesLoop E walk path es ep st)).
Proof.
  induction es as [|[name node] es IH]; intros Hw ep st; cbn.
  - apply walkStep_refl.
  - assert (Hw' : forall name node p st, In (Entry name node) es ->
                    walkStep st (walk p node st)).
    { intros. eapply Hw. right. eassumption. }
    destruct (IsDir node).
    + destruct (negb (HasPrefix name ".")); [|apply IH, Hw'].
      eapply walkStep_trans; [|apply IH, Hw'].
      eapply Hw. left. reflexivity.
    + destruct (HasSuffix name ".go"); apply IH, Hw'.
Qed.

Lemma walkDir_walkStep t :
  forall path st, walkStep st (Walk.walkDir E path t st).
Proof.
  induction t as [| |es IH] using tree_induction; intros path st.
  - split; reflexivity.
  - split; reflexivity.
  - cbn [Walk.walkDir].
    pose proof (entriesLoop_walkStep (Walk.walkDir E) path es) as H.
    specialize (H (fun name node p st Hin => IH name node Hin p st)
                  (MkEditPkg [] false) st).
    destruct (Walk.entriesLoop E (Walk.walkDir E) path es
                (MkEditPkg [] false) st) as [ep st'].
    cbn in H. destruct (Env.ImportDir E path); [|exact H].
    eapply walkStep_trans; [exact H|]. split; reflexivity.
Qed.

End WithEnv.
End WalkFacts.

Module LoopFacts.
Import Go World Frames FramesFacts.

Section WithCalls.
Variable checkPackage : string -> state -> run unit.
Variable changeVersion : string -> state -> run bool.

Lemma checkLoop_keeps paths :
  (forall p st, keeps checkStep st (checkPackage p st)) ->
  forall st, keeps checkStep st (Loops.checkLoop checkPackage paths st).
Proof.
  intros Hc. induction paths as [|p paths IH]; intros st; cbn.
  - apply checkStep_refl.
  - apply keeps_bindR; [exact checkStep_trans|apply Hc|].
    intros _ st' Hs. eapply keeps_weaken;
      [exact checkStep_trans|apply checkStep_refl|apply IH].
Qed.

Lemma filesLoop_keeps goFiles :
  (forall p st, keeps editStep st (changeVersion p st)) ->
  forall changed st,
    keeps editStep st (Loops.filesLoop changeVersion goFiles changed st).
Proof.
  intros Hc. induction goFiles as [|f fs IH]; intros changed st; cbn.
  - apply editStep_refl.
  - apply keeps_bindR; [exact editStep_trans|apply Hc|].
    intros c st' Hs. apply IH.
Qed.

Lemma editLoop_keeps paths :
  (forall p st, keeps editStep st (changeVersion p st)) ->
  forall st, keeps editStep st (Loops.editLoop changeVersion paths st).
Proof.
  intros Hc. induction paths as [|p paths IH]; intros st; cbn.
  - apply editStep_refl.
  - destruct (editPkgs st !! p) as [ep|]; [|apply IH].
    apply keeps_bindR; [exact editStep_trans| |intros; apply IH].
    unfold Loops.editOne. destruct (negb (needsEdit ep)).
    { apply editStep_refl. }
    apply keeps_bindR; [exact editStep_trans|apply filesLoop_keeps, Hc|].
    intros [] st' Hs; cbn; auto with frames.
Qed.

(** The same for any relation that printing a line keeps. *)
Lemma editLoop_keeps_rel (R : state -> state -> Prop) paths :
  (forall st, R st st) ->
  (forall a b c, R a b -> R b c -> R a c) ->
  (forall l st, R st (printLine l st)) ->
  (forall p st, keeps R st (changeVersion p st)) ->
  forall st, keeps R st (Loops.editLoop changeVersion paths st).
Proof.
  intros Hrefl Htrans Hprint Hc.
  assert (Hfiles : forall gs changed st,
            keeps R st (Loops.filesLoop changeVersion gs changed st)).
  { induction gs as [|f fs IH]; intros changed st; cbn.
    - apply Hrefl.
    - apply keeps_bindR; [exact Htrans|apply Hc|]. intros; apply IH. }
  induction paths as [|p paths IH]; intros st; cbn.
  - apply Hrefl.
  - destruct (editPkgs st !! p) as [ep|]; [|apply IH].
    apply keeps_bindR; [exact Htrans| |intros; apply IH].
    unfold Loops.editOne. destruct (negb (needsEdit ep)).
    { apply Hrefl. }
    apply keeps_bindR; [exact Htrans|apply Hfiles|].
    intros [] st' Hs; cbn; auto.
Qed.

End WithCalls.
End LoopFacts.

Module V1Facts.
Import Go World Frames FramesFacts.

Section WithEnv.
Context {Rest : Type} (E : Env.t Rest).
Variable fixPackage : string.

Lemma V1_importsLoop_keeps check path imps :
  (forall p st, keeps checkStep st (check p st)) ->
  forall st,
    keeps checkStep st (V1.importsLoop fixPackage check path imps st).
Proof.
  intros Hc. induction imps as [|imp imps IH]; intros st;
    cbn [V1.importsLoop].
  - apply checkStep_refl.
  - destruct (String.eqb imp "C"); [apply IH|].
    destruct (_ && _).
    + destruct (editPkgs st !! path).
      * eapply keeps_weaken;
          [exact checkStep_trans|apply checkStep_set_needsEdit|].
        apply keeps_bindR; [exact checkStep_trans|apply Hc|].
        intros; apply IH.
      * eapply keeps_weaken; [exact checkStep_trans| |apply IH].
        eauto with frames.
    + apply keeps_bindR; [exact checkStep_trans|apply Hc|].
      intros; apply IH.
Qed.

Lemma V1_checkPackage_keeps fuel :
  forall path st,
    keeps checkStep st (V1.checkPackage E fixPackage fuel path st).
Proof.
  induction fuel as [|fuel IH]; intros path st; cbn [V1.checkPackage].
  - exact I.
  - destruct (is_checked path st); [apply checkStep_refl|].
    destruct (Env.Import E path ".") as [pkg err].
    assert (H0 : checkStep st
                   (set_checked (ImportPath pkg) (note_import path st)))
      by eauto with frames.
    destruct err.
    + eapply keeps_weaken; [exact checkStep_trans|exact H0|].
      apply V1_importsLoop_keeps, IH.
    + exact H0.
    + cbn. eauto with frames.
Qed.

Lemma V1_changeVersion_keeps path st :
  keeps editStep st (V1.changeVersion E fixPackage path st).
Proof.
  unfold V1.changeVersion.
  destruct (files st !! path) as [src|]; [|cbn; auto with frames].
  destruct (Env.parse E src) as [f err].
  assert (H0 : editStep st
            (if err then logf (CannotParse path) st else st))
    by (destruct err; auto with frames).
  destruct (V1.fixImports E fixPackage (ImportValues f))
    as [[values changed]|]; [|exact H0].
  destruct changed; cbn; eauto with frames.
Qed.

End WithEnv.
End V1Facts.

Module V2Facts.
Import Go World Frames FramesFacts.

Section WithEnv.
Context {Rest : Type} (E : Env.t Rest).
Variable fixPackage : string.
Variable fixPackagePat : Regexp.Regexp.

Lemma V2_importsLoop_keeps check path ep imps :
  (forall p st, keeps checkStep st (check p st)) ->
  forall st,
    keeps checkStep st
      (V2.importsLoop fixPackage fixPackagePat check path ep imps st).
Proof.
  intros Hc. induction imps as [|imp imps IH]; intros st;
    cbn [V2.importsLoop].
  - apply checkStep_refl.
  - destruct (V2.fixPath fixPackage fixPackagePat imp) as [p|];
      [|apply checkStep_refl].
    destruct (negb (String.eqb p imp)).
    + destruct ep.
      * eapply keeps_weaken;
          [exact checkStep_trans|apply checkStep_set_needsEdit|].
        apply keeps_bindR; [exact checkStep_trans|apply Hc|].
        intros; apply IH.
      * eapply keeps_weaken; [exact checkStep_trans| |apply IH].
        eauto with frames.
    + apply keeps_bindR; [exact checkStep_trans|apply Hc|].
      intros; apply IH.
Qed.

Lemma V2_checkPackage_keeps fuel :
  forall path st,
    keeps checkStep st
      (V2.checkPackage E fixPackage fixPackagePat fuel path st).
Proof.
  induction fuel as [|fuel IH]; intros path st; cbn [V2.checkPackage].
  - exact I.
  - destruct (String.eqb path "C"); [apply checkStep_refl|].
    destruct (is_checked path st); [apply checkStep_refl|].
    destruct (Env.Import E path ".") as [pkg err].
    assert (H0 : checkStep st
                   (set_checked (ImportPath pkg) (note_import path st)))
      by eauto with frames.
    destruct err.
    + eapply keeps_weaken; [exact checkStep_trans|exact H0|].
      apply V2_importsLoop_keeps, IH.
    + exact H0.
    + cbn. eauto with frames.
Qed.

Lemma V2_changeVersion_keeps path st :
  keeps editStep st
    (V2.changeVersion E fixPackage fixPackagePat path st).
Proof.
  unfold V2.changeVersion.
  destruct (files st !! path) as [src|]; [|cbn; auto with frames].
  destruct (Env.parse E src) as [f err].
  assert (H0 : editStep st
            (if err then logf (CannotParse path) st else st))
    by (destruct err; auto with frames).
  destruct (V2.fixImports E fixPackage fixPackagePat (ImportValues f))
    as [[values changed]|]; [|exact H0].
  destruct changed; cbn; eauto with frames.
Qed.

End WithEnv.
End V2Facts.

Module V3Facts.
Import Go World Frames FramesFacts.

Section WithEnv.
Context {Rest : Type} (E : Env.t Rest).
Variable fl : V3.flags.
Variable newPackage : string.
Variable oldPackagePat : Regexp.Regexp.

Lemma V3_importsLoop_keeps check path pkg ep imps :
  (forall p d st, keeps checkStep st (check p d st)) ->
  forall st,
    keeps checkStep st
      (V3.importsLoop E fl newPackage oldPackagePat check path pkg ep
         imps st).
Proof.
  intros Hc. induction imps as [|imp imps IH]; intros st;
    cbn [V3.importsLoop].
  - apply checkStep_refl.
  - cbv zeta.
    eapply keeps_weaken;
      [exact checkStep_trans|apply (checkStep_note_import imp)|].
    destruct (V3.fixPath newPackage oldPackagePat _) as [p|];
      [|apply checkStep_refl].
    destruct (negb (String.eqb p _)).
    + destruct ep.
      * eapply keeps_weaken;
          [exact checkStep_trans|apply checkStep_set_needsEdit|].
        destruct (negb (V3.noDependencies fl)); [|apply IH].
        apply keeps_bindR; [exact checkStep_trans|apply Hc|].
        intros; apply IH.
      * eapply keeps_weaken; [exact checkStep_trans| |apply IH].
        eauto with frames.
    + destruct (negb (V3.noDependencies fl)); [|apply IH].
      apply keeps_bindR; [exact checkStep_trans|apply Hc|].
      intros; apply IH.
Qed.

Lemma V3_checkPackage_keeps fuel :
  forall path fromDir st,
    keeps checkStep st
      (V3.checkPackage E fl newPackage oldPackagePat fuel path fromDir
         st).
Proof.
  induction fuel as [|fuel IH]; intros path fromDir st;
    cbn [V3.checkPackage].
  - exact I.
  - destruct (String.eqb path "C"); [apply checkStep_refl|].
    destruct (is_checked path st); [apply checkStep_refl|].
    destruct (Env.Import E path fromDir) as [pkg err].
    assert (H0 : checkStep st
                   (set_checked (ImportPath pkg) (note_import path st)))
      by eauto with frames.
    destruct err.
    + eapply keeps_weaken; [exact checkStep_trans|exact H0|].
      apply V3_importsLoop_keeps, IH.
    + exact H0.
    + cbn. eauto with frames.
Qed.

Lemma V3_changeVersion_keeps path st :
  keeps editStep st
    (V3.changeVersion E fl newPackage oldPackagePat path st).
Proof.
  unfold V3.changeVersion.
  destruct (files st !! path) as [src|]; [|cbn; auto with frames].
  destruct (Env.parse E src) as [f err].
  assert (H0 : editStep st
            (if err then logf (CannotParse path) st else st))
    by (destruct err; auto with frames).
  destruct (V3.fixImports E newPackage oldPackagePat (ImportValues f))
    as [[values changed]|]; [|exact H0].
  destruct (negb changed || V3.noEdit fl); cbn; eauto with frames.
Qed.

End WithEnv.
End V3Facts.

(** ** The two phases of [main] *)

Module MainFacts.
Import Go World Frames FramesFacts.

Section WithEnv.
Context {Rest : Type} (E : Env.t Rest).

(** After the walk nothing is written, printed or marked. *)
Lemma walked cwd root fs :
  let st := Walk.walkDir E cwd root (initial fs) in
  files st = fs /\ created st = [] /\ stdout st = []
  /\ failed st = false /\ imported st = [] /\ checked st = ∅.
Proof.
  destruct (WalkFacts.walkDir_walkStep E root cwd (initial fs)).
  cbn. repeat split; assumption.
Qed.

(** A run that goes on to the rewrite only without a failure ends
with [failed] set only if no file was written. *)
Lemma guarded_run checkPackage changeVersion order0 order1 st0 e st :
  (forall p st, keeps checkStep st (checkPackage p st)) ->
  (forall p st, keeps editStep st (changeVersion p st)) ->
  match Loops.checkLoop checkPackage order0 st0 with
  | OutOfFuel => None
  | Panics st => Some (Panic, st)
  | Returns _ st =>
      if failed st then Some (Exit 1, st)
      else Loops.finish (Loops.editLoop changeVersion (order1 st) st)
  end = Some (e, st) ->
  failed st = true ->
  files st = files st0 /\ created st = created st0
  /\ stdout st = stdout st0 /\ status_of e <> 0.
Proof.
  intros Hc Hv Hrun Hfailed.
  pose proof (LoopFacts.checkLoop_keeps checkPackage order0 Hc st0) as Hk.
  destruct (Loops.checkLoop checkPackage order0 st0) as [[] st1|st1|];
    cbn in Hk; [| |discriminate].
  - destruct (failed st1) eqn:Hf1.
    + injection Hrun as <- <-. destruct Hk. cbn. auto.
    + pose proof (LoopFacts.editLoop_keeps changeVersion (order1 st1)
                    Hv st1) as Hk2.
      destruct (Loops.editLoop changeVersion (order1 st1) st1)
        as [[] st2|st2|]; cbn in Hk2, Hrun; [| |discriminate].
      * destruct Hk2. destruct (failed st2) eqn:Hf2; [congruence|].
        injection Hrun as <- <-. congruence.
      * destruct Hk2. injection Hrun as <- <-. congruence.
  - injection Hrun as <- <-. destruct Hk. cbn. auto.
Qed.

End WithEnv.

(** The text that [pathPat] gives to [regexp.MustCompile] has an
    opening parenthesis too many, whatever the package path: the
    version with [pathPat] panics before it walks. *)
Lemma V2_pathPat_panics p : V2.pathPat p = Some (Stops None).
Proof. reflexivity. Qed.

Lemma V2_main_panics {Rest : Type} (E : Env.t Rest) fuel arg cwd root fs :
  V2.main E fuel [arg] (Some cwd) root fs = Some (Panic, initial fs).
Proof. reflexivity. Qed.

End MainFacts.

(** ** [changeVersion] of [src/govers.go] *)

Module V1ChangeFacts.
Import Go World V1Spec.

Section WithEnv.
Context {Rest : Type} (E : Env.t Rest).
Variable fixPackage : string.

(** The loop over the imports, import by import. *)
Lemma V1_fixImports_spec values :
  V1.fixImports E fixPackage values
  = match mapM (Env.Unquote E) values with
    | None => None
    | Some imps =>
        Some (zip_with (newValue E fixPackage) values imps,
              existsb (sameUpToVersion fixPackage) imps)
    end.
Proof.
  induction values as [|v values IH]; [reflexivity|].
  cbn [V1.fixImports mapM]. unfold mbind, option_bind at 1.
  destruct (Env.Unquote E v) as [p|]; [|reflexivity].
  rewrite IH. cbn. destruct (mapM (Env.Unquote E) values) as [imps|];
    [|reflexivity].
  cbn. unfold newValue, sameUpToVersion, V1.fixPackageCanon.
  destruct (String.eqb _ _); reflexivity.
Qed.

Lemma mapM_length {A B : Type} (f : A -> option B) l k :
  mapM f l = Some k -> length k = length l.
Proof.
  revert k. induction l as [|x l IH]; intros k; cbn.
  - intros [= <-]. reflexivity.
  - destruct (f x); cbn; [|discriminate].
    destruct (mapM f l); cbn; [|discriminate].
    intros [= <-]. cbn. rewrite (IH l0); reflexivity.
Qed.

Lemma mapM_lookup {A B : Type} (f : A -> option B) l k i x :
  mapM f l = Some k -> l !! i = Some x ->
  exists y, f x = Some y /\ k !! i = Some y.
Proof.
  revert k i. induction l as [|a l IH]; intros k i; cbn; [discriminate|].
  destruct (f a) as [b|] eqn:Hfa; cbn; [|discriminate].
  destruct (mapM f l) as [k'|]; cbn; [|discriminate].
  intros [= <-]. destruct i as [|i]; cbn.
  - intros [= <-]. eauto.
  - intros H. apply (IH k' i eq_refl H).
Qed.

(** The loop run again over its own result changes nothing more,
    when [strconv.Unquote] reads back what [strconv.Quote] wrote. *)
Lemma V1_fixImports_twice values vs changed :
  Env.Unquote E (Env.Quote E fixPackage) = Some fixPackage ->
  V1.fixImports E fixPackage values = Some (vs, changed) ->
  V1.fixImports E fixPackage vs = Some (vs, changed).
Proof.
  intros Hq. revert vs changed.
  induction values as [|v values IH]; intros vs changed; cbn [V1.fixImports].
  - intros [= <- <-]. reflexivity.
  - destruct (Env.Unquote E v) as [p|] eqn:Hv; [|discriminate].
    destruct (V1.fixImports E fixPackage values) as [[vs' c']|];
      [|discriminate].
    specialize (IH vs' c' eq_refl).
    destruct (String.eqb (V1.canonicalPath p) _) eqn:Hsame;
      intros [= <- <-]; cbn [V1.fixImports].
    + rewrite Hq, IH. unfold V1.fixPackageCanon.
      rewrite String.eqb_refl. reflexivity.
    + rewrite Hv, IH, Hsame. reflexivity.
Qed.

End WithEnv.
End V1ChangeFacts.

(** ** The matcher stays inside the text *)

Module RegexpFacts.
Import Go Regexp GoFacts RegexpSpec.

Lemma bounded_insert N caps n a b :
  bounded N caps -> b <= N -> bounded N (<[n := Some (a, b)]> caps).
Proof.
  intros Hc Hb n' a' b' H.
  destruct (decide (n = n')) as [->|Hne].
  - destruct (decide (n' < length caps)) as [Hlt|Hge].
    + rewrite list_lookup_insert_eq in H by exact Hlt.
      injection H as <- <-. exact Hb.
    + rewrite list_insert_ge in H by lia. eapply Hc, H.
  - rewrite list_lookup_insert_ne in H by exact Hne. eapply Hc, H.
Qed.

Lemma bounded_replicate N n : bounded N (replicate n None).
Proof.
  intros i a b H. apply lookup_replicate in H as [H _]. discriminate.
Qed.

Lemma handsOver_here s pos caps k res :
  k s pos caps = Some res -> handsOver s pos caps k res.
Proof.
  intros H. exists s, pos, caps. repeat split; auto.
  rewrite Nat.sub_diag, drop_0. reflexivity.
Qed.

Lemma handsOver_step s pos caps s1 pos1 caps1 k res :
  pos1 + len s1 = pos + len s -> pos <= pos1 ->
  length caps1 = length caps ->
  (forall N, bounded N caps -> pos + len s <= N -> bounded N caps1) ->
  s1 = drop (pos1 - pos) s ->
  handsOver s1 pos1 caps1 k res -> handsOver s pos caps k res.
Proof.
  intros H1 H2 H3 H4 H5 (s' & pos' & caps' & Hk & Ha & Hb & Hc & Hd & He).
  exists s', pos', caps'. repeat split; try lia; try congruence.
  - intros N HN Hle. apply Hd; [apply H4; assumption|lia].
  - rewrite He, H5, drop_drop. f_equal. lia.
Qed.

Lemma m_handsOver r :
  forall s pos caps k res,
    m r s pos caps k = Some res -> handsOver s pos caps k res.
Proof.
  induction r as [|c|neg ranges|r1 IH1 r2 IH2|r1 IH1 r2 IH2|r1 IH1|r1 IH1
                 |n r1 IH1| |]; intros s pos caps k res H; cbn [m] in H.
  - apply handsOver_here, H.
  - destruct s as [|c' s']; [discriminate|].
    destruct (Ascii.eqb c' c); [|discriminate].
    eapply handsOver_step; [| | | | |apply handsOver_here, H];
      rewrite ?len_cons; auto; try lia.
    replace (S pos - pos) with 1 by lia. reflexivity.
  - destruct s as [|c' s']; [discriminate|].
    destruct (member neg ranges c'); [|discriminate].
    eapply handsOver_step; [| | | | |apply handsOver_here, H];
      rewrite ?len_cons; auto; try lia.
    replace (S pos - pos) with 1 by lia. reflexivity.
  - apply IH1 in H as (s1 & pos1 & caps1 & Hk & Ha & Hb & Hc & Hd & He).
    apply IH2 in Hk. eapply handsOver_step; eauto.
  - destruct (m r1 s pos caps k) as [c|] eqn:H1.
    + injection H as <-. apply IH1, H1.
    + apply IH2, H.
  - revert H. generalize (len s) at 1. intros fuel. revert s pos caps.
    induction fuel as [|fuel IHf]; intros s pos caps H;
      cbn [plusLoop] in H.
    + apply IH1 in H as (s1 & pos1 & caps1 & Hk & Ha & Hb & Hc & Hd & He).
      exists s1, pos1, caps1. repeat split; auto.
    + apply IH1 in H as (s1 & pos1 & caps1 & Hk & Ha & Hb & Hc & Hd & He).
      destruct (pos <? pos1) eqn:Hlt.
      * match type of Hk with
        | match ?x with _ => _ end = _ => destruct x as [c|] eqn:Hloop
        end.
        -- injection Hk as <-. apply IHf in Hloop.
           eapply handsOver_step; eauto.
        -- exists s1, pos1, caps1. repeat split; auto.
      * exists s1, pos1, caps1. repeat split; auto.
  - destruct (m r1 s pos caps k) as [c|] eqn:H1.
    + injection H as <-. apply IH1, H1.
    + apply handsOver_here, H.
  - apply IH1 in H as (s1 & pos1 & caps1 & Hk & Ha & Hb & Hc & Hd & He).
    exists s1, pos1, (<[n := Some (pos, pos1)]> caps1).
    repeat split; auto.
    + rewrite length_insert. exact Hc.
    + intros N HN Hle. apply bounded_insert; [auto|lia].
  - destruct (pos =? 0); [|discriminate]. apply handsOver_here, H.
  - destruct s; [|discriminate]. apply handsOver_here, H.
Qed.

(** The groups of a match end inside the text. *)
Lemma matchAt_bounded re s pos res :
  matchAt re s pos = Some res -> bounded (pos + len s) res.
Proof.
  unfold matchAt. intros H.
  apply m_handsOver in H as (s1 & pos1 & caps1 & Hk & Ha & Hb & Hc & Hd & _).
  injection Hk as <-. apply bounded_insert; [|lia].
  apply Hd; [apply bounded_replicate|lia].
Qed.

Lemma findFrom_bounded re s :
  forall pos res,
    findFrom re s pos = Some res -> bounded (pos + len s) res.
Proof.
  induction s as [|c s IH]; intros pos res H; cbn [findFrom] in H.
  - destruct (matchAt re EmptyString pos) eqn:Hm; [|discriminate].
    injection H as <-. eapply matchAt_bounded, Hm.
  - destruct (matchAt re (String c s) pos) eqn:Hm.
    + injection H as <-. eapply matchAt_bounded, Hm.
    + apply IH in H. rewrite len_cons.
      replace (pos + S (len s)) with (S pos + len s) by lia. exact H.
Qed.

(** Where the end of the first group is in the slice of offsets. *)
Lemma locOf_group1 caps c :
  caps !! 1 = Some c ->
  locOf caps !! 3
  = Some (match c with
          | Some (_, b) => Z.of_nat b
          | None => (-1)%Z
          end).
Proof.
  destruct caps as [|c0 [|c1 caps]]; cbn; try discriminate.
  intros [= <-]. destruct c0 as [[]|], c1 as [[]|]; reflexivity.
Qed.

End RegexpFacts.

Module ReplaceFacts.
Import Go Regexp GoFacts RegexpSpec RegexpFacts.

(** A match starts with the offsets of the whole match, in order. *)
Lemma matchAt_group0 re s pos res :
  matchAt re s pos = Some res ->
  exists a1 tl, res = Some (pos, a1) :: tl /\ pos <= a1.
Proof.
  unfold matchAt. intros H.
  apply m_handsOver in H as (s1 & pos1 & caps1 & Hk & _ & Hle & Hlen & _ & _).
  injection Hk as <-. rewrite length_replicate in Hlen.
  destruct caps1 as [|c tl]; [discriminate|].
  exists pos1, tl. split; [reflexivity|exact Hle].
Qed.

Lemma findFrom_group0 re s :
  forall pos res,
    findFrom re s pos = Some res ->
    exists a0 a1 tl, res = Some (a0, a1) :: tl /\ a0 <= a1.
Proof.
  induction s as [|c s IH]; intros pos res H; cbn [findFrom] in H.
  - destruct (matchAt re EmptyString pos) eqn:Hm; [|discriminate].
    injection H as <-. apply matchAt_group0 in Hm as (a1 & tl & -> & Hle).
    eauto.
  - destruct (matchAt re (String c s) pos) eqn:Hm.
    + injection H as <-. apply matchAt_group0 in Hm as (a1 & tl & -> & Hle).
      eauto.
    + eapply IH, H.
Qed.

(** A text in which a match was replaced by [0] is not the one letter
    [C]. *)
Lemma ReplaceAllString_C re src :
  ReplaceAllString re src "0" = "C" -> src = "C".
Proof.
  unfold ReplaceAllString. cbn [replaceLoop].
  rewrite drop_0.
  destruct (findFrom re src 0) as [res|] eqn:Hf; [|auto].
  destruct (findFrom_group0 _ _ _ _ Hf) as (a0 & a1 & tl & -> & Hle).
  assert (Hc : (0 <? a1) || (a0 =? 0) = true).
  { destruct a1; [|reflexivity]. replace a0 with 0 by lia. reflexivity. }
  rewrite Hc. intros H. exfalso.
  destruct (take (a0 - 0) src) as [|x [|y t]]; cbn in H; discriminate.
Qed.

End ReplaceFacts.

(** ** What the walk registers *)

Module WalkRegisters.
Import Go World WalkSpec WalkFacts.

Section WithEnv.
Context {Rest : Type} (E : Env.t Rest).

(** The local [editPkg] after the loop over the entries. *)
Lemma entriesLoop_goFiles walk path es :
  forall ep st,
    fst (Walk.entriesLoop E walk path es ep st)
    = MkEditPkg (goFiles ep ++ goFilesOf E path es) (needsEdit ep).
Proof.
  induction es as [|[name node] es IH]; intros ep st;
    cbn [Walk.entriesLoop goFilesOf].
  - rewrite List.app_nil_r. destruct ep; reflexivity.
  - destruct (IsDir node); cbn [negb andb].
    + destruct (negb (HasPrefix name ".")); apply IH.
    + destruct (HasSuffix name ".go"); [|apply IH].
      rewrite IH. cbn. rewrite <- List.app_assoc. reflexivity.
Qed.

Lemma registeredBelow_cons path e es m ip :
  registeredBelow E path es m ip -> registeredBelow E path (e :: es) m ip.
Proof.
  intros (name & node & dir & es' & Hin & H).
  exists name, node, dir, es'. split; [right; exact Hin|exact H].
Qed.

Section Loop.
Variable walk : string -> tree -> state -> state.
Variable path : string.
Variable ip : string.

Lemma entriesLoop_changes es :
  (forall name node, In (Entry name node) es -> walkChanges E walk ip node) ->
  forall ep st,
    let m := editPkgs (snd (Walk.entriesLoop E walk path es ep st)) in
    m !! ip = editPkgs st !! ip \/ registeredBelow E path es m ip.
Proof.
  induction es as [|[name node] es IH]; intros Hw ep st;
    cbn [Walk.entriesLoop].
  - left. reflexivity.
  - assert (Hw' : forall name node, In (Entry name node) es ->
                    walkChanges E walk ip node)
      by (intros; eapply Hw; right; eassumption).
    assert (Hskip : forall ep st,
      let m := editPkgs (snd (Walk.entriesLoop E walk path es ep st)) in
      m !! ip = editPkgs st !! ip
      \/ registeredBelow E path (Entry name node :: es) m ip).
    { intros ep' st'. destruct (IH Hw' ep' st') as [H|H];
        [left; exact H|right; apply registeredBelow_cons, H]. }
    destruct (IsDir node); [|destruct (HasSuffix name ".go"); apply Hskip].
    destruct (HasPrefix name ".") eqn:Hdot; cbn [negb]; [apply Hskip|].
    destruct (IH Hw' ep (walk (Env.Join E path name) node st))
      as [H|H]; [|right; apply registeredBelow_cons, H].
    destruct (Hw name node (or_introl eq_refl) (Env.Join E path name) st)
      as [H1|(dir & es' & He & Hi & Hm)].
    + left. cbn. rewrite H. exact H1.
    + right. exists name, node, dir, es'.
      split; [left; reflexivity|]. split; [exact Hdot|].
      split; [exact He|]. split; [exact Hi|].
      cbn. rewrite H. exact Hm.
Qed.

Lemma entriesLoop_registers es :
  (forall name node, In (Entry name node) es -> walkChanges E walk ip node) ->
  (forall name node, In (Entry name node) es -> walkRegisters E walk ip node) ->
  forall name node dir es',
    In (Entry name node) es ->
    HasPrefix name "." = false ->
    Entered E (Env.Join E path name) node dir es' ->
    Env.ImportDir E dir = Some ip ->
    forall ep st,
      registeredBelow E path es
        (editPkgs (snd (Walk.entriesLoop E walk path es ep st))) ip.
Proof.
  induction es as [|[name0 node0] es IH];
    intros Hw Hr name node dir es' Hin Hdot He Hi ep st; [destruct Hin|].
  assert (Hw' : forall name node, In (Entry name node) es ->
                  walkChanges E walk ip node)
    by (intros; eapply Hw; right; eassumption).
  assert (Hr' : forall name node, In (Entry name node) es ->
                  walkRegisters E walk ip node)
    by (intros; eapply Hr; right; eassumption).
  cbn [Walk.entriesLoop].
  destruct Hin as [Heq|Hin].
  - injection Heq as -> ->.
    assert (Hd : IsDir node = true) by (inversion He; reflexivity).
    rewrite Hd, Hdot. cbn [negb].
    pose proof (Hr name node (or_introl eq_refl) (Env.Join E path name)
                  st dir es' He Hi) as (d1 & e1 & H1 & H2 & H3).
    destruct (entriesLoop_changes es Hw' ep
                (walk (Env.Join E path name) node st)) as [H|H].
    + exists name, node, d1, e1.
      split; [left; reflexivity|]. split; [exact Hdot|].
      split; [exact H1|]. split; [exact H2|].
      cbn in H. rewrite H. exact H3.
    + apply registeredBelow_cons, H.
  - assert (Hgo : forall ep st,
      registeredBelow E path (Entry name0 node0 :: es)
        (editPkgs (snd (Walk.entriesLoop E walk path es ep st))) ip).
    { intros. apply registeredBelow_cons.
      eapply IH; eassumption. }
    destruct (IsDir node0); [|destruct (HasSuffix name0 ".go"); apply Hgo].
    destruct (negb (HasPrefix name0 ".")); apply Hgo.
Qed.

End Loop.

Lemma registeredBelow_registered path es m ip :
  registeredBelow E path es m ip -> registered E path (Dir es) m ip.
Proof.
  intros (name & node & dir & es' & Hin & Hdot & He & Hi & Hm).
  exists dir, es'. split; [|split; assumption].
  eapply Entered_below; eassumption.
Qed.

(** The walk of a tree changes the entry under [ip] only to the
    entry of an entered directory that resolves to [ip], and leaves
    such an entry for every entered directory that resolves to
    [ip]. *)
Lemma walkDir_registers ip t :
  walkChanges E (Walk.walkDir E) ip t /\ walkRegisters E (Walk.walkDir E) ip t.
Proof.
  induction t as [| |es IH] using tree_induction.
  - split; [intros p st; left; reflexivity|].
    intros p st dir es He. inversion He.
  - split; [intros p st; left; reflexivity|].
    intros p st dir es He. inversion He.
  - assert (Hw : forall name node, In (Entry name node) es ->
                   walkChanges E (Walk.walkDir E) ip node)
      by (intros; eapply IH; eassumption).
    assert (Hr : forall name node, In (Entry name node) es ->
                   walkRegisters E (Walk.walkDir E) ip node)
      by (intros; eapply IH; eassumption).
    assert (Hfinal : forall p st,
      let r := Walk.entriesLoop E (Walk.walkDir E) p es
                 (MkEditPkg [] false) st in
      editPkgs (Walk.walkDir E p (Dir es) st) !! ip
      = if decide (Env.ImportDir E p = Some ip)
        then Some (MkEditPkg (goFilesOf E p es) false)
        else editPkgs (snd r) !! ip).
    { intros p st. cbn [Walk.walkDir].
      pose proof (entriesLoop_goFiles (Walk.walkDir E) p es
                    (MkEditPkg [] false) st) as Hep.
      destruct (Walk.entriesLoop E (Walk.walkDir E) p es
                  (MkEditPkg [] false) st) as [ep st1].
      cbn in Hep. subst ep. cbn.
      destruct (Env.ImportDir E p) as [ip'|] eqn:Hip.
      - destruct (decide (Some ip' = Some ip)) as [[= ->]|Hne].
        + cbn. apply lookup_insert_eq.
        + cbn. apply lookup_insert_ne. congruence.
      - destruct (decide (None = Some ip)); [discriminate|reflexivity]. }
    split.
    + intros p st. rewrite Hfinal.
      destruct (decide (Env.ImportDir E p = Some ip)) as [Hip|Hip].
      * right. exists p, es. split; [constructor|]. split; [exact Hip|].
        rewrite Hfinal, decide_True by exact Hip. reflexivity.
      * destruct (entriesLoop_changes (Walk.walkDir E) p ip es Hw
                    (MkEditPkg [] false) st) as [H|H].
        -- left. exact H.
        -- right. apply registeredBelow_registered in H.
           destruct H as (d & e & H1 & H2 & H3).
           exists d, e. split; [exact H1|]. split; [exact H2|].
           rewrite Hfinal, decide_False by exact Hip. exact H3.
    + intros p st dir es' He Hi.
      destruct (decide (Env.ImportDir E p = Some ip)) as [Hip|Hip].
      * exists p, es. split; [constructor|]. split; [exact Hip|].
        rewrite Hfinal, decide_True by exact Hip. reflexivity.
      * inversion He as [|? ? name node ? ? Hin Hdot He']; subst.
        { contradiction. }
        pose proof (entriesLoop_registers (Walk.walkDir E) p ip es Hw Hr
                      name node dir es' Hin Hdot He' Hi
                      (MkEditPkg [] false) st) as H.
        apply registeredBelow_registered in H.
        destruct H as (d & e & H1 & H2 & H3).
        exists d, e. split; [exact H1|]. split; [exact H2|].
        rewrite Hfinal, decide_False by exact Hip. exact H3.
Qed.

End WithEnv.
End WalkRegisters.

(** ** The check of the dependencies ends, and imports no path twice *)

Module CheckFacts.
Import Go World Frames FramesFacts CheckSpec.

Lemma unchecked_mono univ st st' :
  (forall p, is_checked p st = true -> is_checked p st' = true) ->
  length (unchecked univ st') <= length (unchecked univ st).
Proof.
  intros H. unfold unchecked. induction univ as [|p univ IH]; cbn; [lia|].
  destruct (is_checked p st) eqn:Hp.
  - rewrite (H p Hp). cbn. exact IH.
  - cbn. destruct (negb (is_checked p st')); cbn; lia.
Qed.

Lemma unchecked_checkStep univ st st' :
  checkStep st st' ->
  length (unchecked univ st') <= length (unchecked univ st).
Proof. intros []. apply unchecked_mono. assumption. Qed.

(** Marking a package of [univ] that was not checked shortens the
    list. *)
Lemma unchecked_set_checked univ p st :
  In p univ -> is_checked p st = false ->
  length (unchecked univ (set_checked p (note_import p st)))
  < length (unchecked univ st).
Proof.
  intros Hin Hp. unfold unchecked.
  induction univ as [|q univ IH]; [destruct Hin|].
  cbn [List.filter].
  assert (Hle : length (List.filter
                   (fun p0 => negb (is_checked p0
                                      (set_checked p (note_import p st))))
                   univ)
                <= length (List.filter
                             (fun p0 => negb (is_checked p0 st)) univ)).
  { apply (unchecked_mono univ st (set_checked p (note_import p st))).
    intros r Hr. unfold is_checked in *. cbn.
    destruct (decide (p = r)) as [->|Hne].
    - rewrite lookup_insert_eq. reflexivity.
    - rewrite lookup_insert_ne by exact Hne. exact Hr. }
  destruct (String.eqb_spec q p) as [->|Hne].
  - rewrite Hp. cbn [negb].
    assert (Hc : is_checked p (set_checked p (note_import p st)) = true).
    { unfold is_checked. cbn. rewrite lookup_insert_eq. reflexivity. }
    rewrite Hc. cbn. lia.
  - destruct Hin as [Heq|Hin]; [congruence|]. specialize (IH Hin).
    assert (Hq : is_checked q (set_checked p (note_import p st))
                 = is_checked q st).
    { unfold is_checked. cbn. rewrite lookup_insert_ne by congruence.
      reflexivity. }
    rewrite Hq. destruct (negb (is_checked q st)); cbn; lia.
Qed.

Lemma traced_same st st' :
  checked st' = checked st -> imported st' = imported st ->
  traced st -> traced st'.
Proof.
  intros Hc Hi [H1 H2]. unfold traced, is_checked in *.
  rewrite Hc, Hi. auto.
Qed.

(** Importing a path that is not checked and marking it keeps the
    record in agreement. *)
Lemma traced_import p st :
  is_checked p st = false -> traced st ->
  traced (set_checked p (note_import p st)).
Proof.
  intros Hp [H1 H2]. split; cbn.
  - intros q [<-|Hq]; unfold is_checked; cbn.
    + rewrite lookup_insert_eq. reflexivity.
    + destruct (decide (p = q)) as [->|Hne].
      * rewrite lookup_insert_eq. reflexivity.
      * rewrite lookup_insert_ne by exact Hne. apply H1, Hq.
  - constructor; [|exact H2]. intros Hin.
    apply list_elem_of_In, H1 in Hin. congruence.
Qed.

Lemma good_trans a b c : checkStep a b -> good b c -> good a c.
Proof. intros H [H1 H2]. split; [exact H1|eauto with frames]. Qed.

Lemma good_refl st : traced st -> good st st.
Proof. intros H. split; [exact H|apply checkStep_refl]. Qed.

Section V1.
Context {Rest : Type} (E : Env.t Rest).
Variable fixPackage : string.
Variable univ : list string.
Hypothesis Hkey : keyed E.
Hypothesis Hfin : finiteGraph E univ.

Lemma V1_importsLoop_total check path k :
  (forall p st, length (unchecked univ st) <= k -> traced st ->
     exists st', check p st = Returns tt st' /\ good st st') ->
  forall imps st,
    length (unchecked univ st) <= k -> traced st ->
    exists st',
      V1.importsLoop fixPackage check path imps st = Returns tt st'
      /\ good st st'.
Proof.
  intros Hcheck. induction imps as [|imp imps IH]; intros st Hm Ht;
    cbn [V1.importsLoop].
  - exists st. split; [reflexivity|apply good_refl, Ht].
  - destruct (String.eqb imp "C"); [apply IH; assumption|].
    destruct (_ && _).
    + destruct (editPkgs st !! path).
      * destruct (Hcheck fixPackage (set_needsEdit path st))
          as (st1 & Hr & Ht1 & Hs1);
          [exact Hm|eapply traced_same; [| |exact Ht]; reflexivity|].
        rewrite Hr. cbn [bindR].
        assert (Hs : checkStep st st1)
          by (eapply checkStep_trans;
              [apply checkStep_set_needsEdit|exact Hs1]).
        destruct (IH st1) as (st2 & Hr2 & Hg2);
          [pose proof (unchecked_checkStep univ _ _ Hs); lia|exact Ht1|].
        exists st2. split; [exact Hr2|]. eapply good_trans; eassumption.
      * destruct (IH (set_failed (logf (Uses path imp) st)))
          as (st2 & Hr2 & Hg2);
          [exact Hm|eapply traced_same; [| |exact Ht]; reflexivity|].
        exists st2. split; [exact Hr2|].
        eapply good_trans; [|exact Hg2]. eauto with frames.
    + destruct (Hcheck imp st Hm Ht) as (st1 & Hr & Ht1 & Hs1).
      rewrite Hr. cbn [bindR].
      destruct (IH st1) as (st2 & Hr2 & Hg2);
        [pose proof (unchecked_checkStep univ _ _ Hs1); lia|exact Ht1|].
      exists st2. split; [exact Hr2|]. eapply good_trans; eassumption.
Qed.

Lemma V1_checkPackage_total n :
  forall path st,
    length (unchecked univ st) <= n -> traced st ->
    exists st',
      V1.checkPackage E fixPackage (S n) path st = Returns tt st'
      /\ good st st'.
Proof.
  induction n as [|n IHn]; intros path st Hm Ht;
    cbn [V1.checkPackage];
    (destruct (is_checked path st) eqn:Hp;
     [exists st; split; [reflexivity|apply good_refl, Ht]|]);
    pose proof (Hkey path) as Hk;
    destruct (Env.Import E path ".") as [pkg err] eqn:HI;
    cbn [fst] in Hk; rewrite Hk;
    pose proof (traced_import path st Hp Ht) as Ht1;
    (assert (Hs1 : checkStep st (set_checked path (note_import path st)))
       by eauto with frames);
    (destruct err;
     [|exists (set_checked path (note_import path st)); split;
       [reflexivity|split; assumption]
      |eexists; split; [reflexivity|];
       split; [eapply traced_same; [| |exact Ht1]; reflexivity
              |eauto with frames]]);
    (destruct (in_dec string_dec path univ) as [Hin|Hout];
     [|pose proof (Hfin path Hout) as Hnil; rewrite HI in Hnil;
       cbn [fst] in Hnil; rewrite Hnil; cbn [V1.importsLoop];
       exists (set_checked path (note_import path st)); split;
       [reflexivity|split; assumption]]);
    pose proof (unchecked_set_checked univ path st Hin Hp) as Hlt.
  - lia.
  - destruct (V1_importsLoop_total (V1.checkPackage E fixPackage (S n))
                path n IHn (Imports pkg)
                (set_checked path (note_import path st)))
      as (st2 & Hr2 & Hg2); [lia|exact Ht1|].
    exists st2. split; [exact Hr2|]. eapply good_trans; eassumption.
Qed.

End V1.

Section V2.
Context {Rest : Type} (E : Env.t Rest).
Variable fixPackage : string.
Variable fixPackagePat : Regexp.Regexp.
Variable univ : list string.
Hypothesis Hkey : keyed E.
Hypothesis Hfin : finiteGraph E univ.

Lemma ends_bindR (x : run unit) (f : unit -> state -> run unit) st1 :
  ends x st1 ->
  (x = Returns tt st1 /\ bindR x f = f tt st1)
  \/ (x = Panics st1 /\ bindR x f = Panics st1).
Proof. intros [->| ->]; [left|right]; split; reflexivity. Qed.

Lemma V2_importsLoop_total check path ep k :
  (forall p st, length (unchecked univ st) <= k -> traced st ->
     exists st', ends (check p st) st' /\ good st st') ->
  forall imps st,
    length (unchecked univ st) <= k -> traced st ->
    exists st',
      ends (V2.importsLoop fixPackage fixPackagePat check path ep imps
              st) st'
      /\ good st st'.
Proof.
  intros Hcheck. induction imps as [|imp imps IH]; intros st Hm Ht;
    cbn [V2.importsLoop].
  - exists st. split; [left; reflexivity|apply good_refl, Ht].
  - destruct (V2.fixPath fixPackage fixPackagePat imp) as [p|];
      [|exists st; split; [right; reflexivity|apply good_refl, Ht]].
    destruct (negb (String.eqb p imp)).
    + destruct ep.
      * destruct (Hcheck p (set_needsEdit path st))
          as (st1 & Hr & Ht1 & Hs1);
          [exact Hm|eapply traced_same; [| |exact Ht]; reflexivity|].
        assert (Hs : checkStep st st1)
          by (eapply checkStep_trans;
              [apply checkStep_set_needsEdit|exact Hs1]).
        destruct (ends_bindR _
                    (fun _ st' =>
                       V2.importsLoop fixPackage fixPackagePat check
                         path (Some e) imps st') _ Hr)
          as [[_ ->]|[_ ->]].
        -- destruct (IH st1) as (st2 & Hr2 & Hg2);
             [pose proof (unchecked_checkStep univ _ _ Hs); lia
             |exact Ht1|].
           exists st2. split; [exact Hr2|].
           eapply good_trans; eassumption.
        -- exists st1. split; [right; reflexivity|split; assumption].
      * destruct (IH (set_failed (logf (Uses path imp) st)))
          as (st2 & Hr2 & Hg2);
          [exact Hm|eapply traced_same; [| |exact Ht]; reflexivity|].
        exists st2. split; [exact Hr2|].
        eapply good_trans; [|exact Hg2]. eauto with frames.
    + destruct (Hcheck imp st Hm Ht) as (st1 & Hr & Ht1 & Hs1).
      destruct (ends_bindR _
                  (fun _ st' =>
                     V2.importsLoop fixPackage fixPackagePat check
                       path ep imps st') _ Hr)
        as [[_ ->]|[_ ->]].
      * destruct (IH st1) as (st2 & Hr2 & Hg2);
          [pose proof (unchecked_checkStep univ _ _ Hs1); lia|exact Ht1|].
        exists st2. split; [exact Hr2|]. eapply good_trans; eassumption.
      * exists st1. split; [right; reflexivity|split; assumption].
Qed.

Lemma V2_checkPackage_total n :
  forall path st,
    length (unchecked univ st) <= n -> traced st ->
    exists st',
      ends (V2.checkPackage E fixPackage fixPackagePat (S n) path st) st'
      /\ good st st'.
Proof.
  induction n as [|n IHn]; intros path st Hm Ht;
    cbn [V2.checkPackage];
    (destruct (String.eqb path "C");
     [exists st; split; [left; reflexivity|apply good_refl, Ht]|]);
    (destruct (is_checked path st) eqn:Hp;
     [exists st; split; [left; reflexivity|apply good_refl, Ht]|]);
    pose proof (Hkey path) as Hk;
    destruct (Env.Import E path ".") as [pkg err] eqn:HI;
    cbn [fst] in Hk; rewrite Hk;
    pose proof (traced_import path st Hp Ht) as Ht1;
    (assert (Hs1 : checkStep st (set_checked path (note_import path st)))
       by eauto with frames);
    (destruct err;
     [|exists (set_checked path (note_import path st)); split;
       [left; reflexivity|split; assumption]
      |eexists; split; [left; reflexivity|];
       split; [eapply traced_same; [| |exact Ht1]; reflexivity
              |eauto with frames]]);
    (destruct (in_dec string_dec path univ) as [Hin|Hout];
     [|pose proof (Hfin path Hout) as Hnil; rewrite HI in Hnil;
       cbn [fst] in Hnil; rewrite Hnil; cbn [V2.importsLoop];
       exists (set_checked path (note_import path st)); split;
       [left; reflexivity|split; assumption]]);
    pose proof (unchecked_set_checked univ path st Hin Hp) as Hlt.
  - lia.
  - destruct (V2_importsLoop_total
                (V2.checkPackage E fixPackage fixPackagePat (S n))
                path
                (editPkgs (set_checked path (note_import path st))
                   !! path)
                n IHn (Imports pkg)
                (set_checked path (note_import path st)))
      as (st2 & Hr2 & Hg2); [lia|exact Ht1|].
    exists st2. split; [exact Hr2|]. eapply good_trans; eassumption.
Qed.

End V2.

End CheckFacts.

Module RunFacts.
Import Go World Frames FramesFacts CheckSpec CheckFacts.

Section V1.
Context {Rest : Type} (E : Env.t Rest).
Variable fixPackage : string.
Variable univ : list string.
Hypothesis Hkey : keyed E.
Hypothesis Hfin : finiteGraph E univ.


End V1.

Section Edit.
Variable changeVersion : string -> state -> run bool.
Hypothesis Hends : forall p st, changeVersion p st <> OutOfFuel.

Lemma filesLoop_ends goFiles :
  forall changed st,
    Loops.filesLoop changeVersion goFiles changed st <> OutOfFuel.
Proof.
  induction goFiles as [|f fs IH]; intros changed st;
    cbn [Loops.filesLoop]; [discriminate|].
  pose proof (Hends f st) as H.
  destruct (changeVersion f st); cbn [bindR];
    [apply IH|discriminate|congruence].
Qed.

Lemma editLoop_ends paths :
  forall st, Loops.editLoop changeVersion paths st <> OutOfFuel.
Proof.
  induction paths as [|p paths IH]; intros st; cbn [Loops.editLoop];
    [discriminate|].
  destruct (editPkgs st !! p) as [ep|]; [|apply IH].
  unfold Loops.editOne. destruct (negb (needsEdit ep)); cbn [bindR];
    [apply IH|].
  pose proof (filesLoop_ends (goFiles ep) false st) as H.
  destruct (Loops.filesLoop changeVersion (goFiles ep) false st);
    cbn [bindR]; [apply IH|discriminate|congruence].
Qed.

End Edit.


End RunFacts.

(** ** [src/govers.go] reports every other version that it meets *)

Module ReportFacts.
Import Go World Frames FramesFacts CheckSpec.

Section WithEnv.
Context {Rest : Type} (E : Env.t Rest).
Variable fixPackage : string.

Lemma checkStep_absent st st' q :
  checkStep st st' ->
  (editPkgs st' !! q = None <-> editPkgs st !! q = None).
Proof.
  intros Hs. pose proof (cs_goFiles _ _ Hs q) as H.
  destruct (editPkgs st' !! q), (editPkgs st !! q); cbn in H;
    split; intros; congruence.
Qed.










End WithEnv.
End ReportFacts.

(** ** What the rewrite loop prints *)

Module PrintFacts.
Import Go World Frames FramesFacts PrintSpec.

Section WithWriter.
Variable changeVersion : string -> state -> run bool.
Hypothesis Hw : writer changeVersion.

Lemma filesLoop_created goFiles :
  forall changed st c st',
    Loops.filesLoop changeVersion goFiles changed st = Returns c st' ->
    exists w,
      sublist w goFiles
      /\ created st' = rev w ++ created st
      /\ stdout st' = stdout st
      /\ editPkgs st' = editPkgs st
      /\ c = changed || match w with [] => false | _ => true end.
Proof.
  induction goFiles as [|f fs IH]; intros changed st c st' Hrun;
    cbn [Loops.filesLoop] in Hrun.
  - injection Hrun as <- <-. exists []. repeat split.
    + constructor.
    + rewrite orb_false_r. reflexivity.
  - destruct (changeVersion f st) as [b st1|st1|] eqn:Hc;
      cbn [bindR] in Hrun; try discriminate.
    destruct (Hw f st b st1 Hc) as (H1 & H2 & H3).
    destruct (IH _ _ _ _ Hrun) as (w & Hs & H4 & H5 & H6 & H7).
    destruct b.
    + exists (f :: w). split; [constructor; exact Hs|].
      split; [rewrite H4, H3; cbn; rewrite <- List.app_assoc;
              reflexivity|].
      split; [congruence|]. split; [congruence|].
      rewrite H7. cbn. rewrite orb_true_r. reflexivity.
    + exists w. split; [apply sublist_cons; exact Hs|].
      split; [rewrite H4, H3; reflexivity|].
      split; [congruence|]. split; [congruence|].
      rewrite H7. reflexivity.
Qed.

Lemma editLoop_created paths :
  forall st st',
    Loops.editLoop changeVersion paths st = Returns tt st' ->
    exists ws,
      Forall2 (createdOf (editPkgs st)) paths ws
      /\ created st' = rev (concat ws) ++ created st
      /\ stdout st' = stdout st ++ printedFor paths ws
      /\ editPkgs st' = editPkgs st.
Proof.
  induction paths as [|p paths IH]; intros st st' Hrun;
    cbn [Loops.editLoop] in Hrun.
  - injection Hrun as <-. exists []. repeat split.
    + constructor.
    + cbn. rewrite List.app_nil_r. reflexivity.
  - assert (Hskip : forall st,
        Loops.editLoop changeVersion paths st = Returns tt st' ->
        exists ws,
          Forall2 (createdOf (editPkgs st)) (p :: paths) ws
          /\ created st' = rev (concat ws) ++ created st
          /\ stdout st' = stdout st ++ printedFor (p :: paths) ws
          /\ editPkgs st' = editPkgs st).
    { intros st0 H0. destruct (IH _ _ H0) as (ws & H1 & H2 & H3 & H4).
      exists ([] :: ws). repeat split; try assumption.
      constructor; [left; reflexivity|exact H1]. }
    destruct (editPkgs st !! p) as [ep|] eqn:Hep; [|apply Hskip, Hrun].
    unfold Loops.editOne in Hrun.
    destruct (needsEdit ep) eqn:Hne; cbn [negb bindR] in Hrun;
      [|apply Hskip, Hrun].
    destruct (Loops.filesLoop changeVersion (goFiles ep) false st)
      as [c st1|st1|] eqn:Hf; cbn [bindR] in Hrun; try discriminate.
    destruct (filesLoop_created _ _ _ _ _ Hf)
      as (w & Hs & H1 & H2 & H3 & H4).
    cbn [orb] in H4.
    destruct (IH _ _ Hrun) as (ws & H5 & H6 & H7 & H8).
    exists (w :: ws). repeat split.
    + constructor.
      * right. exists ep. repeat split; assumption.
      * destruct c; cbn in H5; rewrite H3 in H5; exact H5.
    + rewrite H6. cbn [concat]. rewrite rev_app_distr.
      destruct c; cbn; rewrite H1, <- List.app_assoc; reflexivity.
    + rewrite H7. destruct w as [|f w]; subst c; cbn.
      * rewrite H2. reflexivity.
      * rewrite H2, <- List.app_assoc. reflexivity.
    + rewrite H8. destruct c; cbn; exact H3.
Qed.

End WithWriter.

(** A run that has called [os.Create] on no file and printed
    nothing. *)
Lemma printsCreated_nothing paths st :
  created st = [] -> stdout st = [] -> printsCreated paths st.
Proof.
  intros Hc Ho. exists (List.map (fun _ => []) paths). repeat split.
  - induction paths; constructor; [left; reflexivity|assumption].
  - rewrite Hc. induction paths; [reflexivity|exact IHpaths].
  - rewrite Ho. induction paths; [reflexivity|exact IHpaths].
Qed.

(** The rewrite loop after a check that has called [os.Create] on no
    file and printed nothing. *)
Lemma printsCreated_editLoop changeVersion paths st st' :
  writer changeVersion ->
  created st = [] -> stdout st = [] ->
  Loops.editLoop changeVersion paths st = Returns tt st' ->
  printsCreated paths st' /\ editPkgs st' = editPkgs st.
Proof.
  intros Hw Hc Ho Hrun.
  destruct (editLoop_created changeVersion Hw paths st st' Hrun)
    as (ws & H1 & H2 & H3 & H4).
  split; [|exact H4]. exists ws. repeat split.
  - rewrite H4. exact H1.
  - rewrite H2, Hc, List.app_nil_r. reflexivity.
  - rewrite H3, Ho. reflexivity.
Qed.

Section Writers.
Context {Rest : Type} (E : Env.t Rest).

Lemma V1_writer fixPackage : writer (V1.changeVersion E fixPackage).
Proof.
  intros file st b st' Hrun. unfold V1.changeVersion in Hrun.
  destruct (files st !! file); [|discriminate].
  destruct (Env.parse E s) as [f err].
  destruct (V1.fixImports E fixPackage (ImportValues f)) as [[v c]|];
    [|discriminate].
  destruct c; cbn in Hrun; injection Hrun as <- <-;
    destruct err; repeat split.
Qed.

Lemma V2_writer fixPackage pat :
  writer (V2.changeVersion E fixPackage pat).
Proof.
  intros file st b st' Hrun. unfold V2.changeVersion in Hrun.
  destruct (files st !! file); [|discriminate].
  destruct (Env.parse E s) as [f err].
  destruct (V2.fixImports E fixPackage pat (ImportValues f)) as [[v c]|];
    [|discriminate].
  destruct c; cbn in Hrun; injection Hrun as <- <-;
    destruct err; repeat split.
Qed.

Lemma V3_writer fl newPackage pat :
  V3.noEdit fl = false ->
  writer (V3.changeVersion E fl newPackage pat).
Proof.
  intros Hn file st b st' Hrun. unfold V3.changeVersion in Hrun.
  rewrite Hn in Hrun.
  destruct (files st !! file); [|discriminate].
  destruct (Env.parse E s) as [f err].
  destruct (V3.fixImports E newPackage pat (ImportValues f)) as [[v c]|];
    [|discriminate].
  destruct c; cbn in Hrun; injection Hrun as <- <-;
    destruct err; repeat split.
Qed.

(** Every version leaves alone the files on which it does not call
    [os.Create]. *)
Lemma createsOnly_refl st : createsOnly st st.
Proof. exists []. split; [reflexivity|]. intros f _. reflexivity. Qed.

Lemma createsOnly_trans a b c :
  createsOnly a b -> createsOnly b c -> createsOnly a c.
Proof.
  intros (m1 & H1 & K1) (m2 & H2 & K2). exists (m2 ++ m1). split.
  - rewrite H2, H1, List.app_assoc. reflexivity.
  - intros f Hf. rewrite K2, K1; [reflexivity| |];
      intros Hin; apply Hf, in_or_app; auto.
Qed.

Lemma createsOnly_same st st' :
  files st' = files st -> created st' = created st ->
  createsOnly st st'.
Proof.
  intros Hf Hc. exists []. split; [exact Hc|].
  intros f _. rewrite Hf. reflexivity.
Qed.

Lemma createsOnly_write w path text st :
  createsOnly st (write_file w path text st).
Proof.
  exists [path]. split; [reflexivity|]. intros f Hf. cbn.
  assert (Hne : path <> f) by (intros ->; apply Hf; left; reflexivity).
  destruct w as [|e|e n]; cbn [writingFiles];
    rewrite ?lookup_insert_ne by exact Hne; reflexivity.
Qed.

Lemma V1_createsOnly fixPackage file st :
  keeps createsOnly st (V1.changeVersion E fixPackage file st).
Proof.
  unfold V1.changeVersion.
  destruct (files st !! file);
    [|cbn; apply createsOnly_same; reflexivity].
  destruct (Env.parse E s) as [f err].
  assert (H0 : createsOnly st
            (if err then logf (CannotParse file) st else st))
    by (destruct err; apply createsOnly_same; reflexivity).
  destruct (V1.fixImports E fixPackage (ImportValues f)) as [[v c]|];
    [|exact H0].
  destruct c; cbn; [|exact H0].
  eapply createsOnly_trans; [exact H0|apply createsOnly_write].
Qed.

Lemma V2_createsOnly fixPackage pat file st :
  keeps createsOnly st (V2.changeVersion E fixPackage pat file st).
Proof.
  unfold V2.changeVersion.
  destruct (files st !! file);
    [|cbn; apply createsOnly_same; reflexivity].
  destruct (Env.parse E s) as [f err].
  assert (H0 : createsOnly st
            (if err then logf (CannotParse file) st else st))
    by (destruct err; apply createsOnly_same; reflexivity).
  destruct (V2.fixImports E fixPackage pat (ImportValues f)) as [[v c]|];
    [|exact H0].
  destruct c; cbn; [|exact H0].
  eapply createsOnly_trans; [exact H0|apply createsOnly_write].
Qed.

Lemma V3_createsOnly fl newPackage pat file st :
  keeps createsOnly st (V3.changeVersion E fl newPackage pat file st).
Proof.
  unfold V3.changeVersion.
  destruct (files st !! file);
    [|cbn; apply createsOnly_same; reflexivity].
  destruct (Env.parse E s) as [f err].
  assert (H0 : createsOnly st
            (if err then logf (CannotParse file) st else st))
    by (destruct err; apply createsOnly_same; reflexivity).
  destruct (V3.fixImports E newPackage pat (ImportValues f)) as [[v c]|];
    [|exact H0].
  destruct (negb c || V3.noEdit fl); cbn; [exact H0|].
  eapply createsOnly_trans; [exact H0|apply createsOnly_write].
Qed.

Lemma editLoop_createsOnly changeVersion paths :
  (forall p st, keeps createsOnly st (changeVersion p st)) ->
  forall st,
    keeps createsOnly st (Loops.editLoop changeVersion paths st).
Proof.
  apply LoopFacts.editLoop_keeps_rel.
  - apply createsOnly_refl.
  - apply createsOnly_trans.
  - intros l st. apply createsOnly_same; reflexivity.
Qed.

(** With [-n] nothing is written. *)
Lemma V3_dry fl newPackage pat file st :
  V3.noEdit fl = true ->
  keeps (fun st st' => files st' = files st /\ created st' = created st)
    st (V3.changeVersion E fl newPackage pat file st).
Proof.
  intros Hn. unfold V3.changeVersion. rewrite Hn.
  destruct (files st !! file); [|cbn; auto].
  destruct (Env.parse E s) as [f err].
  destruct (V3.fixImports E newPackage pat (ImportValues f)) as [[v c]|];
    [|destruct err; cbn; auto].
  rewrite orb_true_r. destruct err; cbn; auto.
Qed.

(** With [-n] a call says whether the file has an import to
    change, and leaves the files, the edit set and standard output
    as they are. *)
Lemma V3_dry_returns fl newPackage pat fs file st b st' :
  V3.noEdit fl = true ->
  files st = fs ->
  V3.changeVersion E fl newPackage pat file st = Returns b st' ->
  b = changedIn E newPackage pat fs file
  /\ files st' = fs /\ stdout st' = stdout st
  /\ editPkgs st' = editPkgs st.
Proof.
  intros Hn Hfs Hrun. unfold V3.changeVersion in Hrun.
  unfold changedIn. rewrite <- Hfs. rewrite Hn in Hrun.
  destruct (files st !! file) as [src|]; [|discriminate].
  destruct (Env.parse E src) as [f err]. cbn [fst].
  destruct (V3.fixImports E newPackage pat (ImportValues f)) as [[v c]|];
    [|discriminate].
  rewrite orb_true_r in Hrun. injection Hrun as <- <-.
  destruct err; repeat split.
Qed.

Lemma filesLoop_dry fl newPackage pat fs goFiles :
  V3.noEdit fl = true ->
  forall changed st c st',
    files st = fs ->
    Loops.filesLoop (V3.changeVersion E fl newPackage pat) goFiles
      changed st = Returns c st' ->
    c = changed || existsb (changedIn E newPackage pat fs) goFiles
    /\ files st' = fs /\ stdout st' = stdout st
    /\ editPkgs st' = editPkgs st.
Proof.
  intros Hn.
  induction goFiles as [|g gs IH]; intros changed st c st' Hfs Hrun;
    cbn [Loops.filesLoop] in Hrun.
  - injection Hrun as <- <-. rewrite orb_false_r. auto.
  - destruct (V3.changeVersion E fl newPackage pat g st)
      as [b st1|st1|] eqn:Hc; cbn [bindR] in Hrun; try discriminate.
    destruct (V3_dry_returns _ _ _ _ _ _ _ _ Hn Hfs Hc)
      as (Hb & H1 & H2 & H3).
    destruct (IH _ _ _ _ H1 Hrun) as (H4 & H5 & H6 & H7).
    split; [|split; [exact H5|split; congruence]].
    rewrite H4. cbn [existsb]. rewrite <- Hb.
    destruct b, changed; reflexivity.
Qed.

Lemma editLoop_dry fl newPackage pat fs paths :
  V3.noEdit fl = true ->
  forall st st',
    files st = fs ->
    Loops.editLoop (V3.changeVersion E fl newPackage pat) paths st
    = Returns tt st' ->
    stdout st'
    = stdout st ++ dryLines E newPackage pat fs (editPkgs st) paths
    /\ files st' = fs /\ editPkgs st' = editPkgs st.
Proof.
  intros Hn. unfold dryLines.
  induction paths as [|p paths IH]; intros st st' Hfs Hrun;
    cbn [Loops.editLoop] in Hrun.
  - injection Hrun as <-. cbn. rewrite List.app_nil_r. auto.
  - cbn [List.filter]. unfold wouldEdit at 1.
    destruct (editPkgs st !! p) as [ep|] eqn:Hep; [|apply IH; assumption].
    unfold Loops.editOne in Hrun.
    destruct (needsEdit ep) eqn:Hne; cbn [negb bindR andb] in Hrun |- *;
      [|apply IH; assumption].
    destruct (Loops.filesLoop _ (goFiles ep) false st)
      as [c st1|st1|] eqn:Hf; cbn [bindR] in Hrun; try discriminate.
    destruct (filesLoop_dry _ _ _ _ _ Hn _ _ _ _ Hfs Hf)
      as (Hc & H1 & H2 & H3).
    cbn [orb] in Hc. rewrite <- Hc.
    destruct c.
    + destruct (IH (printLine (PathLine p) st1) st' H1 Hrun)
        as (H4 & H5 & H6).
      cbn in H4, H6. rewrite H3 in H4, H6.
      split; [|split; assumption].
      rewrite H4, H2. cbn. rewrite <- List.app_assoc. reflexivity.
    + destruct (IH _ _ H1 Hrun) as (H4 & H5 & H6).
      rewrite H3 in H4, H6.
      split; [|split; assumption].
      rewrite H4, H2. reflexivity.
Qed.

End Writers.
End PrintFacts.

(** ** [fixPath] twice, for a package path that ends in its version *)

Module IdemFacts.
Import Go Regexp GoFacts RegexpSpec RegexpFacts VersionSpec.

(** A pattern that starts with [^] matches at the start only. *)
Lemma anchored_matchAt r n s pos :
  pos <> 0 -> matchAt (MkRegexp (Cat BeginText r) n) s pos = None.
Proof.
  intros Hpos. unfold matchAt. cbn [expr m].
  destruct (Nat.eqb_spec pos 0); [contradiction|reflexivity].
Qed.

Lemma anchored_findFrom r n s :
  forall pos, pos <> 0 ->
    findFrom (MkRegexp (Cat BeginText r) n) s pos = None.
Proof.
  induction s as [|c s IH]; intros pos Hpos; cbn [findFrom];
    rewrite anchored_matchAt by exact Hpos; [reflexivity|].
  apply IH. lia.
Qed.

Lemma anchored_find r n s :
  findFrom (MkRegexp (Cat BeginText r) n) s 0
  = matchAt (MkRegexp (Cat BeginText r) n) s 0.
Proof.
  destruct s as [|c s]; cbn [findFrom];
    destruct (matchAt _ _ 0); try reflexivity.
  apply anchored_findFrom. lia.
Qed.

(** Literal bytes match themselves. *)
Lemma m_litsThen L r :
  forall t pos caps k,
    m (litsThen L r) (L +:+ t) pos caps k = m r t (pos + len L) caps k.
Proof.
  induction L as [|c L IH]; intros t pos caps k; cbn [litsThen].
  - rewrite app_nil_l. cbn. rewrite Nat.add_0_r. reflexivity.
  - rewrite app_cons. cbn [m]. rewrite Ascii.eqb_refl, IH, len_cons.
    f_equal. lia.
Qed.

(** The greedy loop over digits: when what follows the pattern
    accepts the text after all the digits, that is the match. *)
Lemma plusLoop_stop k t :
  TagsSpec.endsOrStarts (fun c => negb (isDigit c)) t ->
  forall fuel pos caps,
    plusLoop (m (Class false [("0", "9")]%char)) k fuel t pos caps = None.
Proof.
  intros Ht fuel pos caps. destruct fuel; cbn [plusLoop m];
    (destruct t as [|c t]; [reflexivity|]);
    cbn [TagsSpec.endsOrStarts] in Ht; apply negb_true_iff in Ht;
    unfold isDigit in Ht; rewrite Ht; reflexivity.
Qed.

Lemma m_class_cons neg ranges c s pos caps k :
  member neg ranges c = true ->
  m (Class neg ranges) (String c s) pos caps k = k s (S pos) caps.
Proof. intros H. cbn [m]. rewrite H. reflexivity. Qed.

Lemma plusLoop_S body k fuel s pos caps :
  plusLoop body k (S fuel) s pos caps
  = body s pos caps (fun s' pos' caps' =>
      match (if pos <? pos' then plusLoop body k fuel s' pos' caps'
             else None) with
      | Some c => Some c
      | None => k s' pos' caps'
      end).
Proof. reflexivity. Qed.

Lemma plusLoop_O body k s pos caps :
  plusLoop body k 0 s pos caps = body s pos caps k.
Proof. reflexivity. Qed.

Lemma plusLoop_digits ds :
  forall t pos caps k res fuel,
    ds <> EmptyString ->
    TagsSpec.all isDigit ds = true ->
    TagsSpec.endsOrStarts (fun c => negb (isDigit c)) t ->
    len ds <= S fuel ->
    k t (pos + len ds) caps = Some res ->
    plusLoop (m (Class false [("0", "9")]%char)) k fuel (ds +:+ t) pos caps
    = Some res.
Proof.
  induction ds as [|d ds IH]; intros t pos caps k res fuel Hne Hd Ht Hf Hk;
    [contradiction|].
  cbn [TagsSpec.all] in Hd. apply andb_true_iff in Hd as [Hd Hds].
  rewrite len_cons in Hf, Hk. unfold isDigit in Hd.
  replace (pos + S (len ds)) with (S pos + len ds) in Hk by lia.
  rewrite app_cons.
  destruct ds as [|d' ds].
  - (* the last digit *)
    rewrite app_nil_l. change (len EmptyString) with 0 in Hk.
    rewrite Nat.add_0_r in Hk.
    destruct fuel as [|fuel].
    + rewrite plusLoop_O, m_class_cons by exact Hd. exact Hk.
    + rewrite plusLoop_S, m_class_cons by exact Hd.
      replace (pos <? S pos) with true
        by (symmetry; apply Nat.ltb_lt; lia).
      rewrite (plusLoop_stop k t Ht). exact Hk.
  - (* more digits follow *)
    destruct fuel as [|fuel]; [rewrite len_cons in Hf; lia|].
    rewrite plusLoop_S, m_class_cons by exact Hd.
    replace (pos <? S pos) with true by (symmetry; apply Nat.ltb_lt; lia).
    rewrite (IH t (S pos) caps k res fuel); [reflexivity|discriminate
      |exact Hds|exact Ht|lia|exact Hk].
Qed.

(** The equations of the matcher. *)
Lemma m_Cat r1 r2 s pos caps k :
  m (Cat r1 r2) s pos caps k
  = m r1 s pos caps (fun s' pos' caps' => m r2 s' pos' caps' k).
Proof. reflexivity. Qed.

Lemma m_Capture n r s pos caps k :
  m (Capture n r) s pos caps k
  = m r s pos caps (fun s' pos' caps' =>
      k s' pos' (<[n := Some (pos, pos')]> caps')).
Proof. reflexivity. Qed.

Lemma m_Quest r s pos caps k :
  m (Quest r) s pos caps k
  = match m r s pos caps k with
    | Some c => Some c
    | None => k s pos caps
    end.
Proof. reflexivity. Qed.

Lemma m_Plus r s pos caps k :
  m (Plus r) s pos caps k = plusLoop (m r) k (len s) s pos caps.
Proof. reflexivity. Qed.

Lemma m_Empty s pos caps k : m Empty s pos caps k = k s pos caps.
Proof. reflexivity. Qed.

Lemma m_Lit_cons c s pos caps k :
  m (Lit c) (String c s) pos caps k = k s (S pos) caps.
Proof. cbn [m]. rewrite Ascii.eqb_refl. reflexivity. Qed.

(** [-unstable] does not start a text that is empty or starts with a
    slash. *)
Lemma m_unstable_fails rest pos caps k :
  endOrSlash rest ->
  m (litsThen "-unstable" Empty) rest pos caps k = None.
Proof. intros [->|[t ->]]; reflexivity. Qed.

Lemma endOrSlash_no_digit u rest :
  u = EmptyString \/ u = "-unstable" -> endOrSlash rest ->
  TagsSpec.endsOrStarts (fun c => negb (isDigit c)) (u +:+ rest).
Proof.
  intros [->| ->] Hr; [|reflexivity].
  rewrite app_nil_l. destruct Hr as [->|[t ->]]; [exact I|reflexivity].
Qed.

(** The version pattern takes a version element that is followed by
    the end or a slash, when the rest of the pattern accepts what
    follows. *)
Lemma m_versExpr sep ds u rest pos caps k res :
  isSep sep = true ->
  ds <> EmptyString ->
  TagsSpec.all isDigit ds = true ->
  u = EmptyString \/ u = "-unstable" ->
  endOrSlash rest ->
  k rest (pos + len (version sep ds u)) (afterVersion pos ds u caps)
  = Some res ->
  m (versExpr 2) (version sep ds u +:+ rest) pos caps k = Some res.
Proof.
  intros Hsep Hne Hds Hu Hrest Hk. unfold versExpr, version.
  rewrite !app_cons, app_assoc.
  rewrite m_Cat, m_class_cons by exact Hsep.
  rewrite m_Cat, m_Lit_cons, m_Cat, m_Plus.
  apply plusLoop_digits;
    [exact Hne|exact Hds|apply endOrSlash_no_digit; assumption
    |rewrite len_app; lia|].
  rewrite m_Cat, m_Quest, m_Capture.
  unfold version in Hk. rewrite !len_cons, len_app in Hk.
  destruct Hu as [->| ->].
  - rewrite app_nil_l, (m_unstable_fails rest) by exact Hrest.
    rewrite m_Empty. cbn [afterVersion] in Hk.
    change (len EmptyString) with 0 in Hk.
    rewrite <- Hk. f_equal. lia.
  - rewrite (m_litsThen "-unstable" Empty rest), !m_Empty.
    cbn [afterVersion] in Hk. change (len "-unstable") with 9 in *.
    replace (S (S pos) + len ds) with (pos + 2 + len ds) by lia.
    replace (pos + S (S (len ds + 9))) with (pos + 2 + len ds + 9) in Hk
      by lia.
    rewrite Hk. reflexivity.
Qed.

(** After the pattern for [L] matched the start of [p], its first
    group is a prefix of [p], and what follows it is the end of [p] or
    a slash. *)
Lemma derived_match_inv L p res :
  matchAt (derived L) p 0 = Some res ->
  exists i, res !! 1 = Some (Some (0, i)) /\ endOrSlash (drop i p).
Proof.
  unfold matchAt, derived. cbn [expr numSubexp]. intros H.
  rewrite m_Cat in H. cbn [m Nat.eqb] in H.
  apply m_handsOver in H
    as (s1 & i & caps1 & Hk & _ & _ & Hlen & _ & Hs1).
  rewrite length_replicate in Hlen. rewrite Nat.sub_0_r in Hs1.
  exists i. rewrite <- Hs1.
  assert (Hres : forall a b,
             (<[0 := a]> (<[3 := b]> (<[1 := Some (0, i)]> caps1)))
               !! 1 = Some (Some (0, i))).
  { intros a b.
    rewrite list_lookup_insert_ne, list_lookup_insert_ne by lia.
    apply list_lookup_insert_eq. lia. }
  unfold slashOrEnd in Hk. destruct s1 as [|c t]; cbn [m] in Hk.
  - injection Hk as <-. split; [apply Hres|left; reflexivity].
  - destruct (Ascii.eqb_spec c "/") as [->|Hc]; [|discriminate].
    injection Hk as <-. split; [apply Hres|right; eauto].
Qed.

(** The pattern for [L] matches a path that starts with [L] and a
    version element, followed by the end or by a slash, and its first
    group is [L] with the version element. *)
Lemma derived_match L sep ds u rest :
  isSep sep = true ->
  ds <> EmptyString ->
  TagsSpec.all isDigit ds = true ->
  u = EmptyString \/ u = "-unstable" ->
  endOrSlash rest ->
  exists res,
    matchAt (derived L) ((L +:+ version sep ds u) +:+ rest) 0 = Some res
    /\ res !! 1 = Some (Some (0, len (L +:+ version sep ds u))).
Proof.
  intros Hsep Hne Hds Hu Hrest.
  unfold matchAt, derived. cbn [expr numSubexp].
  rewrite m_Cat. cbn [m Nat.eqb]. rewrite app_assoc, m_litsThen.
  cbn [Nat.add].
  set (caps := afterVersion (len L) ds u (replicate 4 None)).
  assert (Hcaps : length caps = 4).
  { unfold caps. destruct u; cbn [afterVersion];
      rewrite ?length_insert; reflexivity. }
  assert (Hres : forall a b,
             (<[0 := a]>
                (<[3 := b]>
                   (<[1 := Some (0, len L + len (version sep ds u))]>
                      caps)))
               !! 1 = Some (Some (0, len (L +:+ version sep ds u)))).
  { intros a b.
    rewrite list_lookup_insert_ne, list_lookup_insert_ne by lia.
    rewrite len_app. apply list_lookup_insert_eq. lia. }
  destruct Hrest as [->|[t ->]].
  - eexists. split; [|apply Hres].
    apply m_versExpr;
      [exact Hsep|exact Hne|exact Hds|exact Hu|left; reflexivity|].
    unfold slashOrEnd. cbn [m]. reflexivity.
  - eexists. split; [|apply Hres].
    apply m_versExpr;
      [exact Hsep|exact Hne|exact Hds|exact Hu|right; eauto|].
    unfold slashOrEnd. cbn [m]. rewrite Ascii.eqb_refl. reflexivity.
Qed.

(** [fixPath] of the last version, from the first group of the
    match. *)
Lemma V3_fixPath_group1 newPackage pat p caps i :
  findFrom pat p 0 = Some caps ->
  caps !! 1 = Some (Some (0, i)) ->
  V3.fixPath newPackage pat p = Some (newPackage +:+ drop i p).
Proof.
  intros Hfind Hcap.
  assert (Hi : i <= len p).
  { apply (findFrom_bounded pat p 0 caps Hfind 1 0 i Hcap). }
  unfold V3.fixPath, FindStringSubmatchIndex. rewrite Hfind.
  cbn [fmap option_fmap option_map].
  rewrite (locOf_group1 caps _ Hcap).
  destruct (Z.ltb_spec (Z.of_nat i) 0); [lia|].
  destruct (Z.ltb_spec (Z.of_nat (len p)) (Z.of_nat i)); [lia|].
  cbn [orb]. rewrite Nat2Z.id.
  destruct (String.eqb_spec (take i p) newPackage) as [Heq|Hne];
    cbn [negb]; [|reflexivity].
  rewrite <- Heq, take_drop. reflexivity.
Qed.

(** For the pattern [^(L versPat)(/|$)] and the new package path
    [L] with a version element, [fixPath] leaves its own results as
    they are. *)
Lemma fixPath_derived_twice L sep ds u p q :
  isSep sep = true ->
  ds <> EmptyString ->
  TagsSpec.all isDigit ds = true ->
  u = EmptyString \/ u = "-unstable" ->
  V3.fixPath (L +:+ version sep ds u) (derived L) p = Some q ->
  V3.fixPath (L +:+ version sep ds u) (derived L) q = Some q.
Proof.
  intros Hsep Hne Hds Hu Hp.
  destruct (findFrom (derived L) p 0) as [caps|] eqn:Hfind.
  - pose proof Hfind as Hm. unfold derived in Hm.
    rewrite anchored_find in Hm.
    apply (derived_match_inv L) in Hm as (i & Hcap & Hrest).
    rewrite (V3_fixPath_group1 _ _ _ _ _ Hfind Hcap) in Hp.
    injection Hp as <-.
    destruct (derived_match L sep ds u (drop i p) Hsep Hne Hds Hu Hrest)
      as (res & Hm & Hres).
    unfold derived in Hm. rewrite <- anchored_find in Hm.
    rewrite (V3_fixPath_group1 _ _ _ _ _ Hm Hres).
    rewrite drop_app. reflexivity.
  - assert (Hq : q = p).
    { unfold V3.fixPath, FindStringSubmatchIndex in Hp.
      rewrite Hfind in Hp. cbn in Hp. congruence. }
    subst q. exact Hp.
Qed.

End IdemFacts.

(** ** The toy quoting of the examples *)

Module ExampleFacts.
Import Go Example.

Lemma unquoteTail_app s :
  unquoteTail (s +:+ String dquote EmptyString) = Some s.
Proof.
  induction s as [|c s IH]; [reflexivity|].
  rewrite GoFacts.app_cons.
  destruct s as [|c' s]; [reflexivity|].
  rewrite GoFacts.app_cons in IH |- *.
  change (unquoteTail (String c (String c' (s +:+ String dquote EmptyString))))
with (String c <$> unquoteTail (String c' (s +:+ String dquote EmptyString))).
rewrite IH. reflexivity.
Qed.

Lemma Unquote_Quote s : Unquote (Quote s) = Some s.
Proof. apply unquoteTail_app. Qed.

(** The tables of the examples as import tables. *)
Lemma env_Import dirs pkgs p d :
  Env.Import (env dirs pkgs) p d
  = match assoc p pkgs with
    | Some pkg => (pkg, World.NoErr)
    | None => missing p
    end.
Proof. reflexivity. Qed.

Lemma env_keyed dirs pkgs :
  Forall (fun kp => World.ImportPath (snd kp) = fst kp) pkgs ->
  ReachWords3.keyed (env dirs pkgs).
Proof.
  intros Hall p d. rewrite env_Import.
  induction Hall as [|[k pkg] pkgs Hk _ IH]; [reflexivity|].
  cbn [assoc]. destruct (String.eqb_spec p k) as [->|Hne]; [exact Hk|].
  exact IH.
Qed.

Lemma env_dirFree dirs pkgs : ReachWords3.dirFree (env dirs pkgs).
Proof. intros p d. reflexivity. Qed.


End ExampleFacts.

(** ** More on [splitQuotedFields]: texts put together *)

Module TagsMore.
Import Go Tags TagsSpec TagsWords GoFacts TagsFacts.

Lemma split_Fields s fs :
  splitQuotedFields s = Some (Fields fs) -> Splits s fs.
Proof.
  unfold splitQuotedFields. intros H.
  destruct (described (len s) s (le_n _)) as [[fs0 H0]|[q0 H0]].
  - rewrite (splitLoop_Splits s fs0 H0 (len s) [] (le_n _)) in H.
    injection H as <-. exact H0.
  - rewrite (splitLoop_Unclosed s q0 H0 (len s) [] (le_n _)) in H.
    discriminate.
Qed.

Lemma split_Unterminated s q :
  splitQuotedFields s = Some (Unterminated q) -> Unclosed s q.
Proof.
  unfold splitQuotedFields. intros H.
  destruct (described (len s) s (le_n _)) as [[fs0 H0]|[q0 H0]].
  - rewrite (splitLoop_Splits s fs0 H0 (len s) [] (le_n _)) in H.
    discriminate.
  - rewrite (splitLoop_Unclosed s q0 H0 (len s) [] (le_n _)) in H.
    injection H as <-. exact H0.
Qed.

Lemma Splits_split s fs :
  Splits s fs -> splitQuotedFields s = Some (Fields fs).
Proof.
  intros H. apply (splitLoop_Splits s fs H (len s) [] (le_n _)).
Qed.

Lemma Unclosed_split s q :
  Unclosed s q -> splitQuotedFields s = Some (Unterminated q).
Proof.
  intros H. apply (splitLoop_Unclosed s q H (len s) [] (le_n _)).
Qed.

Lemma split_total s : splitQuotedFields s <> None.
Proof.
  unfold splitQuotedFields.
  destruct (described (len s) s (le_n _)) as [[fs0 H0]|[q0 H0]].
  - rewrite (splitLoop_Splits s fs0 H0 (len s) [] (le_n _)). discriminate.
  - rewrite (splitLoop_Unclosed s q0 H0 (len s) [] (le_n _)). discriminate.
Qed.

Lemma blank_app a b : blank a -> blank b -> blank (a +:+ b).
Proof.
  unfold blank. intros Ha Hb. rewrite all_app, Ha, Hb. reflexivity.
Qed.

(** White space before a text changes nothing. *)
Lemma Splits_blank ws s fs :
  blank ws -> Splits s fs -> Splits (ws +:+ s) fs.
Proof.
  intros Hws H. destruct H as [ws' H1 | ws' q body after fs H1 H2 H3 H4
                              | ws' w after fs H1 H2 H3 H4 H5].
  - constructor. apply blank_app; assumption.
  - rewrite <- app_assoc. constructor; try assumption.
    apply blank_app; assumption.
  - rewrite <- (app_assoc ws ws'). constructor; try assumption.
    apply blank_app; assumption.
Qed.

Lemma Unclosed_blank ws s q :
  blank ws -> Unclosed s q -> Unclosed (ws +:+ s) q.
Proof.
  intros Hws H. destruct H as [ws' q body H1 H2 H3
                              | ws' q body after q' H1 H2 H3 H4
                              | ws' w after q' H1 H2 H3 H4 H5].
  - rewrite <- app_assoc. constructor; try assumption.
    apply blank_app; assumption.
  - rewrite <- app_assoc. apply Unclosed_quoted; try assumption.
    apply blank_app; assumption.
  - rewrite <- (app_assoc ws ws'). apply Unclosed_bare; try assumption.
    apply blank_app; assumption.
Qed.

Lemma endsOrStarts_app c after t :
  isSpaceByte c = true ->
  endsOrStarts isSpaceByte after ->
  endsOrStarts isSpaceByte (after +:+ String c t).
Proof.
  intros Hc Ha. destruct after as [|x after]; [exact Hc|exact Ha].
Qed.

(** The fields of a text, white space, and another text. *)
Lemma Splits_app s1 f1 c s2 f2 :
  isSpaceByte c = true ->
  Splits s1 f1 -> Splits s2 f2 ->
  Splits (s1 +:+ String c s2) (f1 ++ f2).
Proof.
  intros Hc H1 H2.
  induction H1 as [ws Hws | ws q body after fs Hws Hq Hb _ IH
                  | ws w after fs Hws Hw Hq Ha _ IH].
  - apply Splits_blank; [exact Hws|].
    apply (Splits_blank (String c EmptyString)); [|exact H2].
    unfold blank. cbn. rewrite Hc. reflexivity.
  - rewrite app_assoc, app_cons, app_assoc, app_cons.
    cbn [List.app]. constructor; assumption.
  - rewrite !app_assoc. cbn [List.app]. constructor; try assumption.
    apply endsOrStarts_app; assumption.
Qed.

Lemma Unclosed_app s1 f1 c s2 q :
  isSpaceByte c = true ->
  Splits s1 f1 -> Unclosed s2 q ->
  Unclosed (s1 +:+ String c s2) q.
Proof.
  intros Hc H1 H2.
  induction H1 as [ws Hws | ws q0 body after fs Hws Hq Hb _ IH
                  | ws w after fs Hws Hw Hq Ha _ IH].
  - apply Unclosed_blank; [exact Hws|].
    apply (Unclosed_blank (String c EmptyString)); [|exact H2].
    unfold blank. cbn. rewrite Hc. reflexivity.
  - rewrite app_assoc, app_cons, app_assoc, app_cons.
    apply Unclosed_quoted; assumption.
  - rewrite !app_assoc. apply Unclosed_bare; try assumption.
    apply endsOrStarts_app; assumption.
Qed.

(** One field without quotes, alone. *)
Lemma Splits_one f : bare f -> Splits f [f].
Proof.
  intros [Hs Hq].
  pose proof (Splits_bare EmptyString f EmptyString [] eq_refl Hs Hq I
                (Splits_end EmptyString eq_refl)) as H.
  rewrite app_nil_l, app_nil_r in H. exact H.
Qed.

Lemma Splits_join fs : Forall bare fs -> Splits (joinSpace fs) fs.
Proof.
  induction 1 as [|f fs Hf _ IH].
  - constructor. reflexivity.
  - destruct fs as [|g fs]; [apply Splits_one, Hf|].
    change (joinSpace (f :: g :: fs))
with (f +:+ String " " (joinSpace (g :: fs))).
apply (Splits_app f [f] " " _ (g :: fs) eq_refl);
[apply Splits_one, Hf|exact IH].
Qed.

(** Without a quote in the text there is no open quote, and the
    fields are not empty and have no white space. *)
Lemma quoteFree_app a b :
  quoteFree (a +:+ b) -> quoteFree a /\ quoteFree b.
Proof.
  unfold quoteFree. rewrite all_app. intros H.
  apply andb_true_iff in H. exact H.
Qed.

Lemma quoteFree_cons c s :
  quoteFree (String c s) -> isQuoteByte c = false /\ quoteFree s.
Proof.
  unfold quoteFree. cbn [all]. intros H.
  apply andb_true_iff in H as [H1 H2]. apply negb_true_iff in H1. auto.
Qed.

Lemma quoteFree_not_Unclosed s q : quoteFree s -> ~ Unclosed s q.
Proof.
  intros Hs H.
  induction H as [ws q body Hws Hq Hb | ws q body after q' Hws Hq Hb _ IH
                 | ws w after q' Hws Hw Hq Ha _ IH].
  - apply quoteFree_app in Hs as [_ Hs].
    apply quoteFree_cons in Hs as [Hs _]. congruence.
  - apply quoteFree_app in Hs as [_ Hs].
    apply quoteFree_cons in Hs as [Hs _]. congruence.
  - apply quoteFree_app in Hs as [_ Hs].
    apply quoteFree_app in Hs as [_ Hs]. auto.
Qed.

Lemma quoteFree_Splits s fs :
  quoteFree s -> Splits s fs ->
  Forall (fun f => f <> EmptyString /\ solid f) fs.
Proof.
  intros Hs H.
  induction H as [ws Hws | ws q body after fs Hws Hq Hb _ IH
                 | ws w after fs Hws Hw Hq Ha _ IH].
  - constructor.
  - apply quoteFree_app in Hs as [_ Hs].
    apply quoteFree_cons in Hs as [Hs _]. congruence.
  - apply quoteFree_app in Hs as [_ Hs].
    apply quoteFree_app in Hs as [_ Hs].
    constructor; [|auto]. split; [|exact Hw].
    destruct w; [destruct Hq|discriminate].
Qed.

End TagsMore.

(** ** More on [walkDir]: what it writes to standard error *)

Module WalkMore.
Import Go World RunWords WalkFacts.

Section WithEnv.
Context {Rest : Type} (E : Env.t Rest).

Lemma onlyReadFailures_refl st : onlyReadFailures st st.
Proof. exists []. rewrite List.app_nil_r. split; [reflexivity|constructor]. Qed.

Lemma onlyReadFailures_trans a b c :
  onlyReadFailures a b -> onlyReadFailures b c -> onlyReadFailures a c.
Proof.
  intros (m1 & H1 & F1) (m2 & H2 & F2). exists (m1 ++ m2).
  rewrite H2, H1, <- List.app_assoc. split; [reflexivity|].
  apply Forall_app; split; assumption.
Qed.

Lemma entriesLoop_stderr walk path es :
  (forall name node p st, In (Entry name node) es ->
     onlyReadFailures st (walk p node st)) ->
  forall ep st,
    onlyReadFailures st (snd (Walk.entriesLoop E walk path es ep st)).
Proof.
  induction es as [|[name node] es IH]; intros Hw ep st;
    cbn [Walk.entriesLoop].
  - apply onlyReadFailures_refl.
  - assert (Hw' : forall name node p st, In (Entry name node) es ->
                    onlyReadFailures st (walk p node st)).
    { intros n0 nd p0 st0 Hin. apply (Hw n0 nd). right. exact Hin. }
    destruct (IsDir node).
    + destruct (negb (HasPrefix name ".")); [|apply (IH Hw')].
      eapply onlyReadFailures_trans; [|apply (IH Hw')].
      apply (Hw name node). left. reflexivity.
    + destruct (HasSuffix name ".go"); apply (IH Hw').
Qed.

Lemma walkDir_stderr t :
  forall path st, onlyReadFailures st (Walk.walkDir E path t st).
Proof.
  induction t as [| |es IH] using tree_induction; intros path st.
  - exists [CannotReadDirectory path]. split; [reflexivity|].
    constructor; [eexists; reflexivity|constructor].
  - exists [CannotReadDirectory path]. split; [reflexivity|].
    constructor; [eexists; reflexivity|constructor].
  - cbn [Walk.walkDir].
    pose proof (entriesLoop_stderr (Walk.walkDir E) path es) as H.
    specialize (H (fun name node p st Hin => IH name node Hin p st)
                  (MkEditPkg [] false) st).
    destruct (Walk.entriesLoop E (Walk.walkDir E) path es
                (MkEditPkg [] false) st) as [ep st1].
    cbn [snd] in H. destruct (Env.ImportDir E path); exact H.
Qed.

End WithEnv.
End WalkMore.

(** ** [canonicalPath] of [src/govers.go], read on the text *)

Module CanonFacts.
Import Go Regexp VersionSpec CanonWords GoFacts IdemFacts.

Lemma digit_not_slash c : isDigit c = true -> Ascii.eqb c "/" = false.
Proof.
  intros H. destruct (Ascii.eqb_spec c "/") as [->|]; [|reflexivity].
  discriminate.
Qed.

(** The greedy loop over the digits, followed by the slash: all the
    digits are taken, and with fewer no slash follows. *)
Lemma plusLoop_digitsSlash kf :
  forall fuel t pos caps,
    len t <= S fuel ->
    plusLoop (m (Class false [("0", "9")]%char))
      (fun s' pos' caps' => m (Cat (Lit "/") Empty) s' pos' caps' kf)
      fuel t pos caps
    = match digitsSlash t false with
      | Some n => kf (drop n t) (pos + n) caps
      | None => None
      end.
Proof.
  induction fuel as [|fuel IH]; intros t pos caps Hlen.
  - rewrite plusLoop_O. destruct t as [|c t]; [reflexivity|].
    rewrite len_cons in Hlen. rewrite (len_0 t) by lia.
    cbn [m digitsSlash]. fold (isDigit c).
    destruct (isDigit c); reflexivity.
  - rewrite plusLoop_S. destruct t as [|c t]; [reflexivity|].
    rewrite len_cons in Hlen.
    cbn [m digitsSlash]. fold (isDigit c).
    destruct (isDigit c) eqn:Hc; [|reflexivity].
    replace (pos <? S pos) with true by (symmetry; apply Nat.ltb_lt; lia).
    rewrite IH by lia.
    destruct t as [|c' t]; [reflexivity|].
    cbn [digitsSlash m]. destruct (isDigit c') eqn:Hc'.
    + rewrite (digit_not_slash c' Hc').
      destruct (digitsSlash t true) as [n|];
        cbn [fmap option_fmap option_map drop]; [|reflexivity].
      replace (S pos + S n) with (pos + S (S n)) by lia.
      destruct (kf _ _ _); reflexivity.
    + cbn [andb fmap option_fmap option_map].
      destruct (Ascii.eqb c' "/");
        cbn [fmap option_fmap option_map drop]; [|reflexivity].
      replace (pos + 2) with (S (S pos)) by lia. reflexivity.
Qed.

(** A match of the pattern at the start of the text. *)
Lemma matchAt_versPat s pos :
  matchAt V1.versPat s pos
  = (fun n => [Some (pos, pos + n)]) <$> versLen s.
Proof.
  unfold matchAt, V1.versPat, versLen. cbn [expr numSubexp replicate].
  rewrite m_Cat. destruct s as [|c1 s]; [reflexivity|].
  destruct (Ascii.eqb_spec c1 "/") as [->|H1].
  2: { cbn [m]. apply Ascii.eqb_neq in H1. rewrite H1.
       destruct s; reflexivity. }
  rewrite m_Lit_cons, m_Cat. destruct s as [|c2 s]; [reflexivity|].
  destruct (Ascii.eqb_spec c2 "v") as [->|H2].
  2: { cbn [m]. apply Ascii.eqb_neq in H2. rewrite H2.
       rewrite andb_false_r. reflexivity. }
  rewrite m_Lit_cons, m_Cat, m_Plus, plusLoop_digitsSlash by lia.
  rewrite ?Ascii.eqb_refl. cbn [andb].
  destruct (digitsSlash s false) as [n|]; cbn; [|reflexivity].
  repeat f_equal. lia.
Qed.

Lemma findFrom_versPat s :
  forall pos,
    findFrom V1.versPat s pos
    = (fun an => [Some (pos + fst an, pos + fst an + snd an)])
        <$> firstVers s.
Proof.
  induction s as [|c s IH]; intros pos; cbn [findFrom firstVers];
    rewrite matchAt_versPat.
  - reflexivity.
  - destruct (versLen (String c s)) as [n|]; cbn.
    + rewrite Nat.add_0_r. reflexivity.
    + rewrite IH. destruct (firstVers s) as [[a n]|]; cbn; [|reflexivity].
      repeat f_equal; lia.
Qed.

(** The length that [digitsSlash] and [versLen] give is that of a
    part of the text. *)
Lemma digitsSlash_le t :
  forall seen n, digitsSlash t seen = Some n -> 1 <= n <= len t.
Proof.
  induction t as [|c t IH]; intros seen n; cbn [digitsSlash];
    [discriminate|].
  rewrite len_cons. destruct (isDigit c).
  - destruct (digitsSlash t true) as [k|] eqn:Hk;
      cbn [fmap option_fmap option_map]; [|discriminate].
    intros [= <-]. specialize (IH _ _ Hk). lia.
  - destruct (seen && Ascii.eqb c "/"); [|discriminate].
    intros [= <-]. lia.
Qed.

Lemma versLen_le s n : versLen s = Some n -> 3 <= n <= len s.
Proof.
  unfold versLen. destruct s as [|c1 [|c2 t]]; try discriminate.
  destruct (_ && _); [|discriminate].
  destruct (digitsSlash t false) as [k|] eqn:Hk;
    cbn [fmap option_fmap option_map]; [|discriminate].
  intros [= <-]. apply digitsSlash_le in Hk. rewrite !len_cons. lia.
Qed.

Lemma firstVers_le s :
  forall a n, firstVers s = Some (a, n) -> 3 <= n /\ a + n <= len s.
Proof.
  induction s as [|c s IH]; intros a n; cbn [firstVers].
  - destruct (versLen EmptyString) eqn:H; [|discriminate].
    cbn in H. discriminate.
  - destruct (versLen (String c s)) as [k|] eqn:Hk.
    + intros [= <- <-]. apply versLen_le in Hk. lia.
    + destruct (firstVers s) as [[a' n']|];
        cbn [fmap option_fmap option_map fst snd]; [|discriminate].
      intros [= <- <-]. specialize (IH _ _ eq_refl). rewrite len_cons.
      lia.
Qed.

(** The loop of [ReplaceAllString] for this pattern and [0]. *)
Lemma replaceLoop_canon :
  forall fuel src e,
    e <= len src ->
    replaceLoop fuel V1.versPat "0" src e e = canonLoop fuel (drop e src).
Proof.
  induction fuel as [|fuel IH]; intros src e He; [reflexivity|].
  cbn [replaceLoop canonLoop].
  replace (len src <? e) with false
    by (symmetry; apply Nat.ltb_ge; lia).
  rewrite findFrom_versPat.
  destruct (firstVers (drop e src)) as [[a n]|] eqn:Hf;
    cbn [fmap option_fmap option_map fst snd]; [|reflexivity].
  destruct (firstVers_le _ _ _ Hf) as [Hn Han].
  rewrite len_drop in Han.
  replace (e + a - e) with a by lia.
  replace (e <? e + a + n) with true by (symmetry; apply Nat.ltb_lt; lia).
  replace (e + a + n <? e + 1) with false
    by (symmetry; apply Nat.ltb_ge; lia).
  cbn [orb]. rewrite IH by lia. rewrite drop_drop.
  replace (e + (a + n)) with (e + a + n) by lia. reflexivity.
Qed.

Lemma canonicalPath_canon p :
  V1.canonicalPath p = canonLoop (S (len p)) p.
Proof.
  unfold V1.canonicalPath, ReplaceAllString.
  rewrite replaceLoop_canon by lia. rewrite drop_0. reflexivity.
Qed.

(** More fuel than the text is long changes nothing. *)
Lemma canonLoop_S :
  forall fuel s, len s <= fuel -> canonLoop (S fuel) s = canonLoop fuel s.
Proof.
  induction fuel as [|fuel IH]; intros s Hlen.
  - rewrite (len_0 s) by lia. reflexivity.
  - cbn [canonLoop]. destruct (firstVers s) as [[a n]|] eqn:Hf;
      [|reflexivity].
    destruct (firstVers_le _ _ _ Hf) as [Hn Han].
    f_equal. f_equal. apply IH. rewrite len_drop. lia.
Qed.

Lemma canonLoop_enough fuel s :
  len s <= fuel -> canonLoop fuel s = canonLoop (len s) s.
Proof.
  intros Hlen. replace fuel with ((fuel - len s) + len s) by lia.
  induction (fuel - len s) as [|d IH]; [reflexivity|].
  cbn [Nat.add]. rewrite canonLoop_S by lia. exact IH.
Qed.

Lemma canonicalPath_enough fuel p :
  len p <= fuel -> canonLoop fuel p = V1.canonicalPath p.
Proof.
  intros Hlen. rewrite canonicalPath_canon.
  rewrite (canonLoop_enough fuel) by exact Hlen.
  rewrite (canonLoop_enough (S (len p))) by lia. reflexivity.
Qed.

Lemma len_canonLoop :
  forall fuel s, len (canonLoop fuel s) <= len s.
Proof.
  induction fuel as [|fuel IH]; intros s; cbn [canonLoop]; [lia|].
  destruct (firstVers s) as [[a n]|] eqn:Hf; [|lia].
  destruct (firstVers_le _ _ _ Hf) as [Hn Han].
  rewrite len_app, len_cons, len_take by lia.
  specialize (IH (drop (a + n) s)). rewrite len_drop in IH. lia.
Qed.

(** What follows the slash after the text does not matter for a
    version element that starts in the text. *)
Lemma digitsSlash_app u w :
  forall seen,
    digitsSlash (u +:+ String "/" w) seen
    = digitsSlash (u +:+ "/") seen.
Proof.
  induction u as [|c u IH]; intros seen.
  - rewrite !app_nil_l. reflexivity.
  - rewrite !app_cons. cbn [digitsSlash]. rewrite IH. reflexivity.
Qed.

Lemma versLen_app c u w :
  versLen (String c u +:+ String "/" w) = versLen (String c u +:+ "/").
Proof.
  rewrite !app_cons. unfold versLen.
  destruct u as [|c2 u].
  - rewrite !app_nil_l. destruct (Ascii.eqb c "/"); reflexivity.
  - rewrite !app_cons. rewrite digitsSlash_app. reflexivity.
Qed.

Lemma firstVers_app a w :
  versionFree (a +:+ "/") ->
  firstVers (a +:+ String "/" w)
  = (fun an => (len a + fst an, snd an)) <$> firstVers (String "/" w).
Proof.
  unfold versionFree.
  remember (firstVers (String "/" w)) as r eqn:Hr.
  induction a as [|c a IH]; intros Hfree.
  - rewrite app_nil_l, <- Hr. destruct r as [[]|]; reflexivity.
  - rewrite app_cons in Hfree. cbn [firstVers] in Hfree.
    rewrite <- app_cons in Hfree.
    destruct (versLen (String c a +:+ "/")) eqn:Hv; [discriminate|].
    destruct (firstVers (a +:+ "/")) as [[]|] eqn:Hf; [discriminate|].
    rewrite app_cons. cbn [firstVers]. rewrite <- app_cons.
    rewrite versLen_app, Hv. rewrite IH by reflexivity.
    destruct r as [[]|]; reflexivity.
Qed.

(** A version element at the start of the text. *)
Lemma digitsSlash_digits ds b :
  forall seen,
    TagsSpec.all isDigit ds = true ->
    (ds = EmptyString -> seen = true) ->
    digitsSlash (ds +:+ String "/" b) seen = Some (S (len ds)).
Proof.
  induction ds as [|d ds IH]; intros seen Hds Hseen.
  - rewrite app_nil_l, Hseen by reflexivity. reflexivity.
  - cbn [TagsSpec.all] in Hds. apply andb_true_iff in Hds as [Hd Hds].
    rewrite app_cons. cbn [digitsSlash]. rewrite Hd.
    rewrite IH by auto. reflexivity.
Qed.

Lemma firstVers_version ds b :
  ds <> EmptyString -> TagsSpec.all isDigit ds = true ->
  firstVers ("/v" +:+ ds +:+ String "/" b) = Some (0, 3 + len ds).
Proof.
  intros Hne Hds.
  change ("/v" +:+ ds +:+ String "/" b)
with (String "/" (String "v" (ds +:+ String "/" b))).
assert (H : versLen (String "/" (String "v" (ds +:+ String "/" b)))
          = Some (3 + len ds)).
{ unfold versLen. rewrite !Ascii.eqb_refl. cbn [andb].
rewrite digitsSlash_digits by (auto; contradiction). reflexivity. }
cbn [firstVers]. rewrite H. reflexivity.
Qed.

End CanonFacts.

(** ** What [checkPackage] of [src/govers.go] keeps true *)

Module CheckInv.
Import Go World Frames FramesFacts CheckSpec CheckWords.

Section WithEnv.
Context {Rest : Type} (E : Env.t Rest).
Variable fixPackage : string.

(** A property of the state that every step of the check keeps. *)
Section Generic.
Variable Inv : state -> Prop.
Hypothesis Inv_checked : forall p st, Inv st -> Inv (set_checked p st).
Hypothesis Inv_import : forall p st, Inv st -> Inv (note_import p st).
Hypothesis Inv_log :
  forall p st, Inv st -> Inv (logf (CannotImport p) st).
Hypothesis Inv_needs :
  forall path imp st,
    usesOther E fixPackage path imp ->
    is_Some (editPkgs st !! path) ->
    Inv st -> Inv (set_needsEdit path st).
Hypothesis Inv_fail :
  forall path imp st,
    usesOther E fixPackage path imp ->
    editPkgs st !! path = None ->
    Inv st -> Inv (set_failed (logf (Uses path imp) st)).

Local Abbreviation holds := (CheckWords.holds Inv).

Lemma holds_trans a b c : holds a b -> holds b c -> holds a c.
Proof. auto. Qed.

Lemma holds_from {A : Type} a b (r : run A) :
  keeps holds a r -> keeps holds b r.
Proof. destruct r; auto. Qed.

Lemma V1_importsLoop_inv check path pkg :
  Env.Import E path "." = (pkg, NoErr) ->
  (forall p st, Inv st -> keeps holds st (check p st)) ->
  forall imps,
    (forall imp, In imp imps -> In imp (Imports pkg)) ->
    forall st,
      Inv st ->
      keeps holds st (V1.importsLoop fixPackage check path imps st).
Proof.
  intros HI Hc. induction imps as [|imp imps IH]; intros Hin st Hst;
    cbn [V1.importsLoop]; [exact Hst|].
  assert (Hin' : forall i, In i imps -> In i (Imports pkg))
    by (intros i Hi; apply Hin; right; exact Hi).
  specialize (IH Hin').
  destruct (String.eqb imp "C"); [apply IH, Hst|].
  destruct (String.eqb_spec (V1.canonicalPath imp)
              (V1.fixPackageCanon fixPackage)) as [Hcanon|Hcanon];
    [destruct (String.eqb_spec imp fixPackage) as [Hsame|Hdiff]|];
    cbn [andb negb].
  - apply keeps_bindR; [exact holds_trans|apply Hc, Hst|].
    intros _ st' Hs. apply IH, Hs.
  - assert (Hu : usesOther E fixPackage path imp).
    { exists pkg. split; [exact HI|]. split; [apply Hin; left; reflexivity|].
      split; assumption. }
    destruct (editPkgs st !! path) as [ep|] eqn:Hep.
    + apply keeps_bindR; [exact holds_trans| |].
      * apply (holds_from (set_needsEdit path st)), Hc.
        eapply Inv_needs; [exact Hu|rewrite Hep; eauto|exact Hst].
      * intros _ st' Hs. apply IH, Hs.
    + apply (holds_from (set_failed (logf (Uses path imp) st))), IH.
      eapply Inv_fail; eassumption.
  - apply keeps_bindR; [exact holds_trans|apply Hc, Hst|].
    intros _ st' Hs. apply IH, Hs.
Qed.

Lemma V1_checkPackage_inv fuel :
  forall path st,
    Inv st ->
    keeps holds st (V1.checkPackage E fixPackage fuel path st).
Proof.
  induction fuel as [|fuel IH]; intros path st Hst;
    cbn [V1.checkPackage]; [exact I|].
  destruct (is_checked path st); [exact Hst|].
  destruct (Env.Import E path ".") as [pkg err] eqn:HI.
  assert (H0 : Inv (set_checked (ImportPath pkg) (note_import path st)))
    by auto.
  destruct err.
  - apply (holds_from
             (set_checked (ImportPath pkg) (note_import path st))).
    apply (V1_importsLoop_inv _ path pkg HI IH); auto.
  - exact H0.
  - apply Inv_log, H0.
Qed.

Lemma V1_checkLoop_inv fuel paths :
  forall st,
    Inv st ->
    keeps holds st
      (Loops.checkLoop (V1.checkPackage E fixPackage fuel) paths st).
Proof.
  induction paths as [|p paths IH]; intros st Hst;
    cbn [Loops.checkLoop]; [exact Hst|].
  apply keeps_bindR; [exact holds_trans|apply V1_checkPackage_inv, Hst|].
  intros _ st' Hs. apply IH, Hs.
Qed.

End Generic.

(** The steps keep the records right. *)
Lemma sound_checked p st :
  sound E fixPackage st -> sound E fixPackage (set_checked p st).
Proof. intros H. exact H. Qed.

Lemma sound_import p st :
  sound E fixPackage st -> sound E fixPackage (note_import p st).
Proof. intros H. exact H. Qed.

Lemma sound_log l st :
  (forall q imp, l <> Uses q imp) ->
  sound E fixPackage st -> sound E fixPackage (logf l st).
Proof.
  intros Hl (H1 & H2 & H3). split; [|split].
  - intros q imp Hin. cbn in Hin. apply in_app_or in Hin as [Hin|[->|[]]].
    + apply H1, Hin.
    + destruct (Hl q imp eq_refl).
  - exact H2.
  - intros Hf. destruct (H3 Hf) as (q & imp & Hin).
    exists q, imp. cbn. apply in_or_app. left. exact Hin.
Qed.

Lemma sound_needs path imp st :
  usesOther E fixPackage path imp ->
  is_Some (editPkgs st !! path) ->
  sound E fixPackage st -> sound E fixPackage (set_needsEdit path st).
Proof.
  intros Hu Hsome (H1 & H2 & H3). split; [|split].
  - intros q i Hin. destruct (H1 q i Hin) as (Ha & Hb & Hc).
    split; [|auto]. cbn.
    destruct (decide (path = q)) as [->|Hne].
    + rewrite Ha in Hsome. destruct Hsome; discriminate.
    + rewrite lookup_alter_ne by exact Hne. exact Ha.
  - intros q ep. cbn.
    destruct (decide (path = q)) as [->|Hne].
    + intros _ _. exists imp. exact Hu.
    + rewrite lookup_alter_ne by exact Hne. apply H2.
  - exact H3.
Qed.

Lemma sound_fail path imp st :
  usesOther E fixPackage path imp ->
  editPkgs st !! path = None ->
  sound E fixPackage st ->
  sound E fixPackage (set_failed (logf (Uses path imp) st)).
Proof.
  intros Hu Hnone (H1 & H2 & H3). split; [|split].
  - intros q i Hin. cbn in Hin |- *.
    apply in_app_or in Hin as [Hin|[[= <- <-]|[]]].
    + destruct (H1 q i Hin) as (Ha & _ & Hc). auto.
    + auto.
  - exact H2.
  - intros _. exists path, imp. cbn. apply in_or_app. right. left.
    reflexivity.
Qed.

Lemma sound_print l st :
  sound E fixPackage st -> sound E fixPackage (printLine l st).
Proof. intros H. exact H. Qed.

Lemma sound_write w p t st :
  sound E fixPackage st -> sound E fixPackage (write_file w p t st).
Proof.
  intros (H1 & H2 & H3). split; [|split].
  - intros q imp Hin. cbn in Hin. apply in_app_or in Hin as [Hin|Hin].
    + apply H1, Hin.
    + destruct w as [|[[]|]|[] n]; cbn in Hin;
        repeat (destruct Hin as [Hin|Hin]; [discriminate|]);
        destruct Hin.
  - exact H2.
  - intros Hf. destruct (H3 Hf) as (q & imp & Hin).
    exists q, imp. cbn. apply in_or_app. left. exact Hin.
Qed.

Lemma V1_checkLoop_sound fuel paths st :
  sound E fixPackage st ->
  keeps (CheckWords.holds (sound E fixPackage)) st
    (Loops.checkLoop (V1.checkPackage E fixPackage fuel) paths st).
Proof.
  apply V1_checkLoop_inv.
  - apply sound_checked.
  - apply sound_import.
  - intros p s. apply sound_log. discriminate.
  - apply sound_needs.
  - apply sound_fail.
Qed.

Lemma V1_changeVersion_sound path st :
  sound E fixPackage st ->
  keeps (CheckWords.holds (sound E fixPackage)) st
    (V1.changeVersion E fixPackage path st).
Proof.
  intros Hst. unfold V1.changeVersion.
  destruct (files st !! path) as [src|];
    [|cbn; apply sound_log; [discriminate|exact Hst]].
  destruct (Env.parse E src) as [f err].
  assert (H0 : sound E fixPackage
            (if err then logf (CannotParse path) st else st)).
  { destruct err; [apply sound_log; [discriminate|]|]; exact Hst. }
  destruct (V1.fixImports E fixPackage (ImportValues f))
    as [[values changed]|]; [|exact H0].
  destruct changed; cbn; [apply sound_write|]; exact H0.
Qed.

(** After the walk from the initial state nothing is recorded. *)
Lemma walked_sound cwd root fs :
  sound E fixPackage (Walk.walkDir E cwd root (initial fs)).
Proof.
  destruct (MainFacts.walked E cwd root fs) as (_ & _ & _ & Hf & _ & _).
  destruct (WalkMore.walkDir_stderr E root cwd (initial fs))
    as (more & Hmore & Hall).
  split; [|split].
  - intros q imp Hin. rewrite Hmore in Hin. cbn in Hin.
    rewrite List.Forall_forall in Hall.
    destruct (Hall _ Hin) as [p Hp]. discriminate.
  - intros q ep Hq Hn.
    destruct (proj1 (WalkRegisters.walkDir_registers E q root) cwd
                (initial fs)) as [Heq|(dir & es & _ & _ & H3)].
    + rewrite Heq in Hq. cbn in Hq. rewrite lookup_empty in Hq.
      discriminate.
    + rewrite H3 in Hq. injection Hq as <-. discriminate.
  - intros H. rewrite Hf in H. discriminate.
Qed.

Lemma V1_editLoop_sound paths st :
  sound E fixPackage st ->
  keeps (CheckWords.holds (sound E fixPackage)) st
    (Loops.editLoop (V1.changeVersion E fixPackage) paths st).
Proof.
  intros Hst.
  pose proof (LoopFacts.editLoop_keeps_rel
                (V1.changeVersion E fixPackage)
                (fun a b => sound E fixPackage a ->
                            sound E fixPackage b)
                paths
                (fun _ H => H) (fun a b c Hab Hbc Ha => Hbc (Hab Ha))
                (fun l s => sound_print l s)) as H2.
  assert (Hcv : forall p s,
            keeps (fun a b => sound E fixPackage a ->
                              sound E fixPackage b) s
              (V1.changeVersion E fixPackage p s)).
  { intros p s.
    destruct (V1.changeVersion E fixPackage p s) as [b s'|s'|] eqn:Hc;
      cbn; [| |exact I]; intros Hs;
      pose proof (V1_changeVersion_sound p s Hs) as H3;
      rewrite Hc in H3; exact H3. }
  specialize (H2 Hcv st).
  destruct (Loops.editLoop _ _ st) as [[] st2|st2|]; cbn [keeps] in *;
    unfold CheckWords.holds; auto.
Qed.

(** The whole of [main]: the records are right at the end, and the
    exit status is 1 exactly when a failure is recorded and the run
    did not panic. *)
Lemma V1_run_sound fuel cwd root fs e st :
  V1.run E fixPackage fuel cwd root fs = Some (e, st) ->
  sound E fixPackage st
  /\ (e = Exit 1 -> failed st = true)
  /\ (failed st = true -> e = Exit 1 \/ e = Panic).
Proof.
  unfold V1.run. intros Hrun.
  pose proof (walked_sound cwd root fs) as H0.
  set (st0 := Walk.walkDir E cwd root (initial fs)) in *.
  pose proof (V1_checkLoop_sound fuel
                (Env.rangeOrder E 0 (editPkgs st0)) st0 H0) as H1.
  destruct (Loops.checkLoop _ _ st0) as [[] st1|st1|];
    cbn [bindR Loops.finish] in Hrun;
    [|injection Hrun as <- <-|discriminate].
  - cbn [keeps] in H1.
    pose proof (V1_editLoop_sound (Env.rangeOrder E 1 (editPkgs st1))
                  st1 H1) as H2.
    destruct (Loops.editLoop _ _ st1) as [[] st2|st2|];
      cbn [Loops.finish] in Hrun; [| |discriminate].
    + cbn [keeps] in H2.
      destruct (failed st2) eqn:Hf; injection Hrun as <- <-;
        (split; [exact H2|]); rewrite ?Hf; split; auto; discriminate.
    + cbn [keeps] in H2. injection Hrun as <- <-.
      split; [exact H2|]. split; [discriminate|auto].
  - cbn [keeps] in H1. split; [exact H1|].
    split; [discriminate|auto].
Qed.

End WithEnv.
End CheckInv.

(** ** [src/govers.go] marks every package that it has to edit *)

Module MarkFacts.
Import Go World Frames FramesFacts CheckSpec CheckWords.

Section WithEnv.
Context {Rest : Type} (E : Env.t Rest).
Variable fixPackage : string.

Lemma markedOf_mono st st' q imps :
  checkStep st st' ->
  markedOf fixPackage st q imps -> markedOf fixPackage st' q imps.
Proof.
  intros Hs Hm ep' imp Hq Hin Hbad.
  pose proof (cs_goFiles _ _ Hs q) as Hg. rewrite Hq in Hg.
  destruct (editPkgs st !! q) as [ep|] eqn:Hep; [|discriminate].
  pose proof (Hm ep imp Hep Hin Hbad) as Hn.
  destruct (cs_needsEdit _ _ Hs q ep Hep Hn) as (ep'' & H1 & H2).
  congruence.
Qed.

Lemma marked_mono st st' q :
  checkStep st st' ->
  marked E fixPackage st q -> marked E fixPackage st' q.
Proof.
  intros Hs Hr pkg Hp. eapply markedOf_mono; [exact Hs|]. apply Hr, Hp.
Qed.

Lemma marksNew_refl st : marksNew E fixPackage st st.
Proof. split; [apply checkStep_refl|]. intros q Hq. left. exact Hq. Qed.

Lemma marksNew_trans a b c :
  marksNew E fixPackage a b -> marksNew E fixPackage b c ->
  marksNew E fixPackage a c.
Proof.
  intros [Hs1 H1] [Hs2 H2]. split; [eauto with frames|].
  intros q Hq. destruct (H2 q Hq) as [Hb|Hr]; [|right; exact Hr].
  destruct (H1 q Hb) as [Ha|Hr]; [left; exact Ha|].
  right. eapply marked_mono; eassumption.
Qed.

Lemma marksNew_quiet st st' :
  checkStep st st' -> imported st' = imported st ->
  marksNew E fixPackage st st'.
Proof.
  intros Hs Hi. split; [exact Hs|]. intros q Hq. left.
  rewrite <- Hi. exact Hq.
Qed.

Lemma V1_importsLoop_marks check path :
  (forall p st st', check p st = Returns tt st' ->
                    marksNew E fixPackage st st') ->
  forall imps st st',
    V1.importsLoop fixPackage check path imps st = Returns tt st' ->
    marksNew E fixPackage st st'
    /\ markedOf fixPackage st' path imps.
Proof.
  intros Hcheck. induction imps as [|imp imps IH]; intros st st' Hrun;
    cbn [V1.importsLoop] in Hrun.
  - injection Hrun as <-. split; [apply marksNew_refl|].
    intros ep imp _ [].
  - destruct (String.eqb_spec imp "C") as [HC|HC].
    { destruct (IH _ _ Hrun) as [H1 H2]. split; [exact H1|].
      intros ep imp' Hep [<-|Hin] Hbad; [|eapply H2; eassumption].
      destruct Hbad as [Hcanon Hne]. subst imp. exfalso. apply Hne.
      symmetry. apply (ReplaceFacts.ReplaceAllString_C V1.versPat).
      symmetry. exact Hcanon. }
    destruct (String.eqb_spec (V1.canonicalPath imp)
                (V1.fixPackageCanon fixPackage)) as [Hcanon|Hcanon];
      [destruct (String.eqb_spec imp fixPackage) as [Hsame|Hdiff]|];
      cbn [andb negb] in Hrun.
    + (* the new package path itself *)
      destruct (check imp st) as [[] st1|st1|] eqn:Hc;
        cbn [bindR] in Hrun; try discriminate.
      destruct (IH _ _ Hrun) as [H1 H2].
      split; [eapply marksNew_trans; [apply (Hcheck _ _ _ Hc)|exact H1]|].
      intros ep imp' Hep [<-|Hin] Hbad;
        [destruct Hbad; congruence|eapply H2; eassumption].
    + (* another version *)
      destruct (editPkgs st !! path) as [ep|] eqn:Hep.
      * destruct (check fixPackage (set_needsEdit path st))
          as [[] st1|st1|] eqn:Hc; cbn [bindR] in Hrun; try discriminate.
        destruct (IH _ _ Hrun) as [H1 H2].
        assert (H0 : marksNew E fixPackage (set_needsEdit path st) st').
        { eapply marksNew_trans; [apply (Hcheck _ _ _ Hc)|exact H1]. }
        split.
        -- eapply marksNew_trans; [|exact H0].
           apply marksNew_quiet;
             [apply checkStep_set_needsEdit|reflexivity].
        -- intros ep' imp' Hep' _ _.
           destruct (cs_needsEdit _ _ (proj1 H0) path
                       (MkEditPkg (goFiles ep) true))
             as (ep'' & Ha & Hb); [|reflexivity|congruence].
           cbn. rewrite lookup_alter_eq, Hep. reflexivity.
      * destruct (IH _ _ Hrun) as [H1 H2].
        assert (H0 : marksNew E fixPackage st
                       (set_failed (logf (Uses path imp) st))).
        { apply marksNew_quiet; [eauto with frames|reflexivity]. }
        assert (H3 : marksNew E fixPackage st st')
          by (eapply marksNew_trans; eassumption).
        split; [exact H3|].
        intros ep' imp' Hep' _ _.
        apply (ReportFacts.checkStep_absent _ _ path (proj1 H3)) in Hep.
        congruence.
    + (* not a version of the new package path *)
      destruct (check imp st) as [[] st1|st1|] eqn:Hc;
        cbn [bindR] in Hrun; try discriminate.
      destruct (IH _ _ Hrun) as [H1 H2].
      split; [eapply marksNew_trans; [apply (Hcheck _ _ _ Hc)|exact H1]|].
      intros ep imp' Hep [<-|Hin] Hbad;
        [destruct Hbad as [Hbad _]; contradiction|].
      eapply H2; eassumption.
Qed.

Lemma V1_checkPackage_marks fuel :
  forall path st st',
    V1.checkPackage E fixPackage fuel path st = Returns tt st' ->
    marksNew E fixPackage st st'.
Proof.
  induction fuel as [|fuel IH]; intros path st st' Hrun;
    cbn [V1.checkPackage] in Hrun; [discriminate|].
  destruct (is_checked path st); [injection Hrun as <-;
                                   apply marksNew_refl|].
  destruct (Env.Import E path ".") as [pkg err] eqn:HI.
  set (st1 := set_checked (ImportPath pkg) (note_import path st)) in *.
  assert (Hs1 : checkStep st st1) by (subst st1; eauto with frames).
  destruct err.
  - destruct (V1_importsLoop_marks (V1.checkPackage E fixPackage fuel)
                path IH _ _ _ Hrun) as [[Hs H1] H2].
    split; [eauto with frames|].
    intros q Hq. destruct (H1 q Hq) as [[<-|Hin]|Hr];
      [|left; exact Hin|right; exact Hr].
    right. intros pkg' HI'. rewrite HI in HI'. injection HI' as <-.
    exact H2.
  - injection Hrun as <-. split; [exact Hs1|].
    intros q [<-|Hin]; [|left; exact Hin].
    right. intros pkg' HI'. rewrite HI in HI'. discriminate.
  - injection Hrun as <-. split; [eauto with frames|].
    intros q [<-|Hin]; [|left; exact Hin].
    right. intros pkg' HI'. rewrite HI in HI'. discriminate.
Qed.

Lemma V1_checkLoop_marks fuel paths :
  forall st st',
    Loops.checkLoop (V1.checkPackage E fixPackage fuel) paths st
    = Returns tt st' ->
    marksNew E fixPackage st st'.
Proof.
  induction paths as [|p paths IH]; intros st st' Hrun;
    cbn [Loops.checkLoop] in Hrun.
  - injection Hrun as <-. apply marksNew_refl.
  - destruct (V1.checkPackage E fixPackage fuel p st)
      as [[] st1|st1|] eqn:Hc; cbn [bindR] in Hrun; try discriminate.
    eapply marksNew_trans; [apply (V1_checkPackage_marks _ _ _ _ Hc)|].
    apply IH, Hrun.
Qed.

(** [checkPackage] of [src/govers.go] does not panic. *)
Lemma V1_importsLoop_no_panic check path imps :
  (forall p st st', check p st <> Panics st') ->
  forall st st',
    V1.importsLoop fixPackage check path imps st <> Panics st'.
Proof.
  intros Hc. induction imps as [|imp imps IH]; intros st st';
    cbn [V1.importsLoop]; [discriminate|].
  destruct (String.eqb imp "C"); [apply IH|].
  destruct (_ && _).
  - destruct (editPkgs st !! path); [|apply IH].
    destruct (check fixPackage (set_needsEdit path st)) as [[] s|s|] eqn:H;
      cbn [bindR]; [apply IH|destruct (Hc _ _ _ H)|discriminate].
  - destruct (check imp st) as [[] s|s|] eqn:H;
      cbn [bindR]; [apply IH|destruct (Hc _ _ _ H)|discriminate].
Qed.

Lemma V1_checkPackage_no_panic fuel :
  forall path st st',
    V1.checkPackage E fixPackage fuel path st <> Panics st'.
Proof.
  induction fuel as [|fuel IH]; intros path st st';
    cbn [V1.checkPackage]; [discriminate|].
  destruct (is_checked path st); [discriminate|].
  destruct (Env.Import E path ".") as [pkg []]; try discriminate.
  apply V1_importsLoop_no_panic, IH.
Qed.

Lemma V1_checkLoop_no_panic fuel paths :
  forall st st',
    Loops.checkLoop (V1.checkPackage E fixPackage fuel) paths st
    <> Panics st'.
Proof.
  induction paths as [|p paths IH]; intros st st';
    cbn [Loops.checkLoop]; [discriminate|].
  destruct (V1.checkPackage E fixPackage fuel p st) as [[] s|s|] eqn:H;
    cbn [bindR]; [apply IH| |discriminate].
  destruct (V1_checkPackage_no_panic _ _ _ _ H).
Qed.

(** The rewrite keeps the marks. *)
Lemma editStep_marked st st' q :
  editStep st st' ->
  marked E fixPackage st q -> marked E fixPackage st' q.
Proof.
  intros Hs Hr pkg Hp ep imp Hep. rewrite (es_editPkgs _ _ Hs) in Hep.
  apply (Hr pkg Hp ep imp Hep).
Qed.

(** The whole of [main] *)
Lemma V1_run_marks fuel cwd root fs e st :
  V1.run E fixPackage fuel cwd root fs = Some (e, st) ->
  forall q, In q (imported st) -> marked E fixPackage st q.
Proof.
  unfold V1.run. intros Hrun q Hq.
  destruct (MainFacts.walked E cwd root fs) as (_ & _ & _ & _ & Hi & _).
  set (st0 := Walk.walkDir E cwd root (initial fs)) in *.
  destruct (Loops.checkLoop _ _ st0) as [[] st1|st1|] eqn:Hc;
    cbn [bindR Loops.finish] in Hrun;
    [|destruct (V1_checkLoop_no_panic _ _ _ _ Hc)|discriminate].
  destruct (V1_checkLoop_marks _ _ _ _ Hc) as [_ H1].
  pose proof (LoopFacts.editLoop_keeps (V1.changeVersion E fixPackage)
                (Env.rangeOrder E 1 (editPkgs st1))
                (V1Facts.V1_changeVersion_keeps E fixPackage) st1) as H2.
  assert (Hst : editStep st1 st).
  { destruct (Loops.editLoop _ _ st1) as [[] st2|st2|];
      cbn [Loops.finish] in Hrun; [| |discriminate].
    - destruct (failed st2); injection Hrun as _ <-; exact H2.
    - injection Hrun as _ <-. exact H2. }
  rewrite (es_imported _ _ Hst) in Hq.
  destruct (H1 q Hq) as [Hin|Hm].
  - rewrite Hi in Hin. destruct Hin.
  - eapply editStep_marked; eassumption.
Qed.

End WithEnv.
End MarkFacts.

(** ** [pathVersionPat] on a path without a version *)

Module VersFacts.
Import Go Regexp World VersionSpec VersWords GoFacts IdemFacts.

Lemma Compile_versRe :
  Compile (V3.versPat +:+ "(/|$)") = Parsed versRe.
Proof. vm_compute. reflexivity. Qed.

Lemma matchAt_versRe_none s pos :
  versStart s = false -> matchAt versRe s pos = None.
Proof.
  unfold matchAt, versRe, versStart. cbn [expr numSubexp].
  intros H. rewrite m_Cat.
  destruct s as [|c1 s]; [reflexivity|].
  destruct (isSep c1) eqn:H1.
  2: { cbn [m]. unfold isSep in H1. rewrite H1. reflexivity. }
  rewrite m_class_cons by exact H1. rewrite m_Cat.
  destruct s as [|c2 s]; [reflexivity|].
  destruct (Ascii.eqb_spec c2 "v") as [->|H2].
  2: { cbn [m]. apply Ascii.eqb_neq in H2. rewrite H2. reflexivity. }
  rewrite m_Lit_cons, m_Cat, m_Plus.
  apply plusLoop_stop.
  destruct s as [|c3 s]; [exact I|].
  cbn [andb] in H. rewrite ?Ascii.eqb_refl in H. cbn [andb] in H.
  cbn [TagsSpec.endsOrStarts]. rewrite H. reflexivity.
Qed.

Lemma findFrom_versRe_none s :
  noVersStart s = true -> forall pos, findFrom versRe s pos = None.
Proof.
  induction s as [|c s IH]; intros H pos; cbn [findFrom noVersStart] in *;
    apply andb_true_iff in H as [H1 H2]; apply negb_true_iff in H1;
    rewrite (matchAt_versRe_none _ pos H1); [reflexivity|].
  apply IH, H2.
Qed.

Lemma pathVersionPat_unversioned p :
  noVersStart p = true ->
  V3.pathVersionPat p = Some (Stops (Some (NotVersioned p))).
Proof.
  intros H. unfold V3.pathVersionPat. rewrite Compile_versRe.
  unfold MatchString. rewrite (findFrom_versRe_none p H 0). reflexivity.
Qed.

End VersFacts.

(** ** What [checkPackage] of the last version keeps true *)

Module CheckInv3.
Import Go World Frames FramesFacts CheckWords3.

Section WithEnv.
Context {Rest : Type} (E : Env.t Rest).
Variable fl : V3.flags.
Variable newPackage : string.
Variable oldPackagePat : Regexp.Regexp.

Local Abbreviation changes := (changes newPackage oldPackagePat).
Local Abbreviation resolved := (resolved E).

Section Generic.
Variable Inv : state -> Prop.
Hypothesis Inv_checked : forall p st, Inv st -> Inv (set_checked p st).
Hypothesis Inv_import : forall p st, Inv st -> Inv (note_import p st).
Hypothesis Inv_log :
  forall p d st, Inv st -> Inv (logf (CannotImportFrom p d) st).
Hypothesis Inv_needs :
  forall path fromDir pkg impPath st,
    Env.Import E path fromDir = (pkg, NoErr) ->
    In impPath (allImports pkg) ->
    changes (resolved pkg impPath) ->
    Inv st -> Inv (set_needsEdit path st).
Hypothesis Inv_fail :
  forall path fromDir pkg impPath st,
    Env.Import E path fromDir = (pkg, NoErr) ->
    In impPath (Imports pkg) ->
    changes (resolved pkg impPath) ->
    editPkgs st !! path = None ->
    Inv st ->
    Inv (set_failed
           (logf (InconsistentPath (ImportPath pkg)
                    (resolved pkg impPath)) st)).

Local Abbreviation R := (keepsTrue Inv).

Lemma keepsTrue_trans a b c : R a b -> R b c -> R a c.
Proof. intros [H1 _] [H2 H3]. split; eauto with frames. Qed.

Lemma V3_importsLoop_inv check path fromDir pkg ep :
  Env.Import E path fromDir = (pkg, NoErr) ->
  (forall p d st, Inv st -> keeps R st (check p d st)) ->
  forall imps,
    (forall imp, In imp imps -> In imp (allImports pkg)) ->
    (ep = None -> forall imp, In imp imps -> In imp (Imports pkg)) ->
    forall st,
      Inv st ->
      (ep = None -> editPkgs st !! path = None) ->
      keeps R st
        (V3.importsLoop E fl newPackage oldPackagePat check path pkg
           ep imps st).
Proof.
  intros HI Hc. induction imps as [|imp imps IH];
    intros Hall Hnone st Hst Hep; cbn [V3.importsLoop].
  - split; [apply checkStep_refl|exact Hst].
  - assert (Hall' : forall i, In i imps -> In i (allImports pkg))
      by (intros i Hi; apply Hall; right; exact Hi).
    assert (Hnone' : ep = None ->
                     forall i, In i imps -> In i (Imports pkg))
      by (intros He i Hi; apply (Hnone He); right; exact Hi).
    specialize (IH Hall' Hnone').
    set (st1 := note_import imp st).
    assert (H1 : R st st1)
      by (split; [apply checkStep_note_import|apply Inv_import, Hst]).
    assert (Hep1 : ep = None -> editPkgs st1 !! path = None)
      by exact Hep.
    fold (resolved pkg imp).
    destruct (V3.fixPath newPackage oldPackagePat (resolved pkg imp))
      as [p|] eqn:Hfix; [|exact H1].
    destruct (String.eqb_spec p (resolved pkg imp)) as [Hsame|Hdiff];
      cbn [negb].
    + (* the import stays as it is *)
      destruct (negb (V3.noDependencies fl)).
      * eapply keeps_weaken; [exact keepsTrue_trans|exact H1|].
        apply keeps_bindR; [exact keepsTrue_trans|apply Hc, H1|].
        intros _ st' [Hs Hi]. apply IH; [exact Hi|].
        intros He.
        apply (ReportFacts.checkStep_absent _ _ path Hs), Hep1, He.
      * eapply keeps_weaken; [exact keepsTrue_trans|exact H1|].
        apply IH; [apply H1|exact Hep1].
    + (* [fixPath] changes it *)
      assert (Hch : changes (resolved pkg imp))
        by (exists p; split; assumption).
      destruct ep as [ep|].
      * set (st2 := set_needsEdit path st1).
        assert (H2 : R st st2).
        { split; [subst st2 st1; eauto with frames|].
          eapply Inv_needs; [exact HI| |exact Hch|apply H1].
          apply Hall. left. reflexivity. }
        eapply keeps_weaken; [exact keepsTrue_trans|exact H2|].
        destruct (negb (V3.noDependencies fl)).
        -- apply keeps_bindR; [exact keepsTrue_trans|apply Hc, H2|].
           intros _ st' [Hs Hi]. apply IH; [exact Hi|discriminate].
        -- apply IH; [apply H2|discriminate].
      * set (st2 := set_failed
                      (logf (InconsistentPath (ImportPath pkg)
                               (resolved pkg imp)) st1)).
        assert (H2 : R st st2).
        { split; [subst st2 st1; eauto with frames|].
          eapply Inv_fail; [exact HI| |exact Hch| |apply H1].
          - apply (Hnone eq_refl). left. reflexivity.
          - apply Hep1. reflexivity. }
        eapply keeps_weaken; [exact keepsTrue_trans|exact H2|].
        apply IH; [apply H2|]. intros _. apply Hep1. reflexivity.
Qed.

Lemma V3_checkPackage_inv fuel :
  forall path fromDir st,
    Inv st ->
    keeps R st
      (V3.checkPackage E fl newPackage oldPackagePat fuel path fromDir
         st).
Proof.
  induction fuel as [|fuel IH]; intros path fromDir st Hst;
    cbn [V3.checkPackage]; [exact I|].
  destruct (String.eqb path "C");
    [split; [apply checkStep_refl|exact Hst]|].
  destruct (is_checked path st);
    [split; [apply checkStep_refl|exact Hst]|].
  destruct (Env.Import E path fromDir) as [pkg err] eqn:HI.
  set (st1 := set_checked (ImportPath pkg) (note_import path st)).
  assert (H1 : R st st1).
  { split; [subst st1; eauto with frames|].
    apply Inv_checked, Inv_import, Hst. }
  destruct err.
  - eapply keeps_weaken; [exact keepsTrue_trans|exact H1|].
    apply (V3_importsLoop_inv _ path fromDir pkg _ HI IH).
    + intros imp Hin. unfold allImports.
      destruct (editPkgs st1 !! path); [exact Hin|].
      rewrite List.app_nil_r in Hin. apply in_or_app. left. exact Hin.
    + intros He imp Hin. rewrite He, List.app_nil_r in Hin. exact Hin.
    + apply H1.
    + auto.
  - exact H1.
  - split; [subst st1; eauto with frames|].
    apply Inv_log, H1.
Qed.

Lemma V3_checkLoop_inv fuel cwd paths :
  forall st,
    Inv st ->
    keeps R st
      (Loops.checkLoop
         (fun path =>
            V3.checkPackage E fl newPackage oldPackagePat fuel path cwd)
         paths st).
Proof.
  induction paths as [|p paths IH]; intros st Hst;
    cbn [Loops.checkLoop].
  - split; [apply checkStep_refl|exact Hst].
  - apply keeps_bindR;
      [exact keepsTrue_trans|apply V3_checkPackage_inv, Hst|].
    intros _ st' [_ Hs]. apply IH, Hs.
Qed.

End Generic.

Local Abbreviation sound := (sound E newPackage oldPackagePat).

Lemma sound3_same st st' :
  failed st' = failed st -> editPkgs st' = editPkgs st ->
  stderr st' = stderr st -> sound st -> sound st'.
Proof.
  intros Hf He Hs (H1 & H2 & H3). split; [|split].
  - intros a b Hin. rewrite Hs in Hin.
    destruct (H1 a b Hin) as (Hfa & q & Hq & Hi).
    split; [congruence|]. exists q. split; [|exact Hi].
    rewrite He. exact Hq.
  - intros q ep. rewrite He. apply H2.
  - intros Hfa. rewrite Hf in Hfa. destruct (H3 Hfa) as (a & b & Hin).
    exists a, b. rewrite Hs. exact Hin.
Qed.

Lemma sound3_log l st :
  (forall a b, l <> InconsistentPath a b) ->
  sound st -> sound (logf l st).
Proof.
  intros Hl (H1 & H2 & H3). split; [|split].
  - intros a b Hin. cbn in Hin. apply in_app_or in Hin as [Hin|[->|[]]].
    + apply H1, Hin.
    + destruct (Hl a b eq_refl).
  - exact H2.
  - intros Hf. destruct (H3 Hf) as (a & b & Hin).
    exists a, b. cbn. apply in_or_app. left. exact Hin.
Qed.

Lemma sound3_write w p t st : sound st -> sound (write_file w p t st).
Proof.
  intros (H1 & H2 & H3). split; [|split].
  - intros a b Hin. cbn in Hin. apply in_app_or in Hin as [Hin|Hin].
    + apply H1, Hin.
    + destruct w as [|[[]|]|[] n]; cbn in Hin;
        repeat (destruct Hin as [Hin|Hin]; [discriminate|]);
        destruct Hin.
  - exact H2.
  - intros Hf. destruct (H3 Hf) as (a & b & Hin).
    exists a, b. cbn. apply in_or_app. left. exact Hin.
Qed.

Lemma sound3_needs path fromDir pkg impPath st :
  Env.Import E path fromDir = (pkg, NoErr) ->
  In impPath (allImports pkg) ->
  changes (resolved pkg impPath) ->
  sound st -> sound (set_needsEdit path st).
Proof.
  intros HI Hin Hch (H1 & H2 & H3). split; [|split].
  - intros a b Hl. destruct (H1 a b Hl) as (Hf & q & Hq & Hi).
    split; [exact Hf|]. exists q. split; [|exact Hi]. cbn.
    destruct (decide (path = q)) as [->|Hne].
    + rewrite lookup_alter_eq, Hq. reflexivity.
    + rewrite lookup_alter_ne by exact Hne. exact Hq.
  - intros q ep. cbn.
    destruct (decide (path = q)) as [->|Hne].
    + intros _ _. exists fromDir, pkg, impPath. auto.
    + rewrite lookup_alter_ne by exact Hne. apply H2.
  - exact H3.
Qed.

Lemma sound3_fail path fromDir pkg impPath st :
  Env.Import E path fromDir = (pkg, NoErr) ->
  In impPath (Imports pkg) ->
  changes (resolved pkg impPath) ->
  editPkgs st !! path = None ->
  sound st ->
  sound (set_failed
           (logf (InconsistentPath (ImportPath pkg)
                    (resolved pkg impPath)) st)).
Proof.
  intros HI Hin Hch Hnone (H1 & H2 & H3). split; [|split].
  - intros a b Hl. cbn in Hl |- *.
    apply in_app_or in Hl as [Hl|[[= <- <-]|[]]].
    + destruct (H1 a b Hl) as (_ & Hrest). auto.
    + split; [reflexivity|]. exists path. split; [exact Hnone|].
      exists fromDir, pkg, impPath. auto.
  - exact H2.
  - intros _. eexists _, _. cbn. apply in_or_app. right. left.
    reflexivity.
Qed.

Lemma V3_checkLoop_sound fuel cwd paths st :
  sound st ->
  keeps (keepsTrue sound) st
    (Loops.checkLoop
       (fun path =>
          V3.checkPackage E fl newPackage oldPackagePat fuel path cwd)
       paths st).
Proof.
  apply V3_checkLoop_inv.
  - intros p s. apply sound3_same; reflexivity.
  - intros p s. apply sound3_same; reflexivity.
  - intros p d s. apply sound3_log. discriminate.
  - apply sound3_needs.
  - apply sound3_fail.
Qed.

Lemma V3_changeVersion_sound path st :
  sound st ->
  keeps (CheckWords.holds sound) st
    (V3.changeVersion E fl newPackage oldPackagePat path st).
Proof.
  intros Hst. unfold V3.changeVersion.
  destruct (files st !! path) as [src|];
    [|cbn; apply sound3_log; [discriminate|exact Hst]].
  destruct (Env.parse E src) as [f err].
  assert (H0 : sound (if err then logf (CannotParse path) st else st)).
  { destruct err; [apply sound3_log; [discriminate|]|]; exact Hst. }
  destruct (V3.fixImports E newPackage oldPackagePat (ImportValues f))
    as [[values changed]|]; [|exact H0].
  destruct (negb changed || V3.noEdit fl); cbn; [exact H0|].
  apply sound3_write, H0.
Qed.

Lemma V3_editLoop_sound paths st :
  sound st ->
  keeps (CheckWords.holds sound) st
    (Loops.editLoop (V3.changeVersion E fl newPackage oldPackagePat)
       paths st).
Proof.
  intros Hst.
  pose proof (LoopFacts.editLoop_keeps_rel
                (V3.changeVersion E fl newPackage oldPackagePat)
                (fun a b => sound a -> sound b)
                paths
                (fun _ H => H) (fun a b c Hab Hbc Ha => Hbc (Hab Ha))
                (fun l s => sound3_same s (printLine l s)
                              eq_refl eq_refl eq_refl)) as H2.
  assert (Hcv : forall p s,
            keeps (fun a b => sound a -> sound b) s
              (V3.changeVersion E fl newPackage oldPackagePat p s)).
  { intros p s.
    destruct (V3.changeVersion E fl newPackage oldPackagePat p s)
      as [b s'|s'|] eqn:Hc;
      cbn; [| |exact I]; intros Hs;
      pose proof (V3_changeVersion_sound p s Hs) as H3;
      rewrite Hc in H3; exact H3. }
  specialize (H2 Hcv st).
  destruct (Loops.editLoop _ _ st) as [[] st2|st2|]; cbn [keeps] in *;
    unfold CheckWords.holds; auto.
Qed.

Lemma walked_sound3 cwd root fs :
  sound (Walk.walkDir E cwd root (initial fs)).
Proof.
  destruct (MainFacts.walked E cwd root fs) as (_ & _ & _ & Hf & _ & _).
  destruct (WalkMore.walkDir_stderr E root cwd (initial fs))
    as (more & Hmore & Hall).
  split; [|split].
  - intros q imp Hin. rewrite Hmore in Hin. cbn in Hin.
    rewrite List.Forall_forall in Hall.
    destruct (Hall _ Hin) as [p Hp]. discriminate.
  - intros q ep Hq Hn.
    destruct (proj1 (WalkRegisters.walkDir_registers E q root) cwd
                (initial fs)) as [Heq|(dir & es & _ & _ & H3)].
    + rewrite Heq in Hq. cbn in Hq. rewrite lookup_empty in Hq.
      discriminate.
    + rewrite H3 in Hq. injection Hq as <-. discriminate.
  - intros H. rewrite Hf in H. discriminate.
Qed.

Lemma V3_run_sound fuel cwd root fs e st :
  V3.run E fl newPackage oldPackagePat fuel cwd root fs = Some (e, st) ->
  sound st
  /\ (e = Exit 1 -> failed st = true)
  /\ (failed st = true -> e = Exit 1 \/ e = Panic).
Proof.
  unfold V3.run. intros Hrun.
  pose proof (walked_sound3 cwd root fs) as H0.
  set (st0 := Walk.walkDir E cwd root (initial fs)) in *.
  pose proof (V3_checkLoop_sound fuel cwd
                (Env.rangeOrder E 0 (editPkgs st0)) st0 H0) as H1.
  destruct (Loops.checkLoop _ _ st0) as [[] st1|st1|];
    [|injection Hrun as <- <-|discriminate].
  - cbn [keeps] in H1. destruct H1 as [_ H1].
    destruct (failed st1) eqn:Hf1.
    { injection Hrun as <- <-. split; [exact H1|]. auto. }
    pose proof (V3_editLoop_sound (Env.rangeOrder E 1 (editPkgs st1))
                  st1 H1) as H2.
    destruct (Loops.editLoop _ _ st1) as [[] st2|st2|];
      cbn [Loops.finish] in Hrun; [| |discriminate].
    + cbn [keeps] in H2.
      destruct (failed st2) eqn:Hf; injection Hrun as <- <-;
        (split; [exact H2|]); rewrite ?Hf; split; auto; discriminate.
    + cbn [keeps] in H2. injection Hrun as <- <-.
      split; [exact H2|]. split; [discriminate|auto].
  - cbn [keeps] in H1. split; [apply H1|].
    split; [discriminate|auto].
Qed.

End WithEnv.
End CheckInv3.

(** ** The last version with [-d] *)

Module NoDepsFacts.
Import Go World Frames FramesFacts CheckSpec CheckWords3.

Section WithEnv.
Context {Rest : Type} (E : Env.t Rest).
Variable fl : V3.flags.
Variable newPackage : string.
Variable oldPackagePat : Regexp.Regexp.
Hypothesis Hd : V3.noDependencies fl = true.

Lemma quietStep_refl st : quietStep st st.
Proof.
  split; [apply checkStep_refl|]. split; [reflexivity|].
  exists []. rewrite List.app_nil_r. split; [reflexivity|constructor].
Qed.

Lemma quietStep_trans a b c :
  quietStep a b -> quietStep b c -> quietStep a c.
Proof.
  intros (H1 & H2 & m1 & H3 & H4) (K1 & K2 & m2 & K3 & K4).
  split; [eauto with frames|]. split; [congruence|].
  exists (m1 ++ m2). rewrite K3, H3, <- List.app_assoc.
  split; [reflexivity|]. apply Forall_app; split; assumption.
Qed.

Lemma quietStep_same st st' :
  checkStep st st' -> failed st' = failed st ->
  stderr st' = stderr st -> quietStep st st'.
Proof.
  intros H1 H2 H3. split; [exact H1|]. split; [exact H2|].
  exists []. rewrite List.app_nil_r. split; [exact H3|constructor].
Qed.

(** For a package that is being edited the loop over the imports
    calls nothing and records no failure. *)
Lemma V3_importsLoop_quiet check path pkg ep imps :
  forall st,
    exists st',
      ends (V3.importsLoop E fl newPackage oldPackagePat check path pkg
              (Some ep) imps st) st'
      /\ quietStep st st'.
Proof.
  induction imps as [|imp imps IH]; intros st; cbn [V3.importsLoop].
  - exists st. split; [left; reflexivity|apply quietStep_refl].
  - rewrite Hd. cbn [negb].
    set (st1 := note_import imp st).
    assert (H1 : quietStep st st1)
      by (apply quietStep_same; [apply checkStep_note_import|..];
          reflexivity).
    destruct (V3.fixPath _ _ _) as [p|].
    2: { exists st1. split; [right; reflexivity|exact H1]. }
    destruct (negb (String.eqb p _)).
    + destruct (IH (set_needsEdit path st1)) as (st' & He & Hq).
      exists st'. split; [exact He|].
      eapply quietStep_trans; [exact H1|].
      eapply quietStep_trans; [|exact Hq].
      apply quietStep_same; [apply checkStep_set_needsEdit|..];
        reflexivity.
    + destruct (IH st1) as (st' & He & Hq).
      exists st'. split; [exact He|].
      eapply quietStep_trans; eassumption.
Qed.

Lemma V3_checkPackage_quiet fuel path fromDir st :
  is_Some (editPkgs st !! path) ->
  exists st',
    ends (V3.checkPackage E fl newPackage oldPackagePat (S fuel) path
            fromDir st) st'
    /\ quietStep st st'.
Proof.
  intros [ep Hep]. cbn [V3.checkPackage].
  destruct (String.eqb path "C");
    [exists st; split; [left; reflexivity|apply quietStep_refl]|].
  destruct (is_checked path st);
    [exists st; split; [left; reflexivity|apply quietStep_refl]|].
  destruct (Env.Import E path fromDir) as [pkg err].
  set (st1 := set_checked (ImportPath pkg) (note_import path st)).
  assert (H1 : quietStep st st1).
  { apply quietStep_same; [subst st1; eauto with frames|..];
      reflexivity. }
  destruct err.
  - change (editPkgs st1 !! path) with (editPkgs st !! path).
    rewrite Hep.
    destruct (V3_importsLoop_quiet
                (V3.checkPackage E fl newPackage oldPackagePat fuel)
                path pkg ep
                (Imports pkg ++ TestImports pkg ++ XTestImports pkg) st1)
      as (st' & He & Hq).
    exists st'. split; [exact He|].
    eapply quietStep_trans; eassumption.
  - exists st1. split; [left; reflexivity|exact H1].
  - exists (logf (CannotImportFrom path fromDir) st1).
    split; [left; reflexivity|].
    eapply quietStep_trans; [exact H1|].
    split; [apply checkStep_logf|]. split; [reflexivity|].
    exists [CannotImportFrom path fromDir]. split; [reflexivity|].
    constructor; [eexists _, _; reflexivity|constructor].
Qed.

Lemma V3_checkLoop_quiet fuel cwd paths :
  forall st,
    Forall (fun p => is_Some (editPkgs st !! p)) paths ->
    exists st',
      ends (Loops.checkLoop
              (fun path =>
                 V3.checkPackage E fl newPackage oldPackagePat (S fuel)
                   path cwd) paths st) st'
      /\ quietStep st st'.
Proof.
  induction paths as [|p paths IH]; intros st Hall;
    cbn [Loops.checkLoop].
  - exists st. split; [left; reflexivity|apply quietStep_refl].
  - apply Forall_cons in Hall as [Hp Hall].
    destruct (V3_checkPackage_quiet fuel p cwd st Hp)
      as (st1 & [He|He] & Hq); rewrite He; cbn [bindR].
    + destruct (IH st1) as (st' & He' & Hq').
      * eapply Forall_impl; [exact Hall|]. intros q [ep Hq0].
        pose proof (cs_goFiles _ _ (proj1 Hq) q) as Hg.
        rewrite Hq0 in Hg. destruct (editPkgs st1 !! q); [eauto|].
        discriminate.
      * exists st'. split; [exact He'|].
        eapply quietStep_trans; eassumption.
    + exists st1. split; [right; reflexivity|exact Hq].
Qed.

Lemma V3_changeVersion_ends p st :
  V3.changeVersion E fl newPackage oldPackagePat p st <> OutOfFuel.
Proof.
  unfold V3.changeVersion.
  destruct (files st !! p); [|discriminate].
  destruct (Env.parse E s). destruct (V3.fixImports _ _ _ _) as [[]|];
    [|discriminate].
  destruct (_ || _); discriminate.
Qed.

Lemma V3_run_quiet fuel cwd root fs :
  let m := editPkgs (Walk.walkDir E cwd root (initial fs)) in
  Forall (fun p => is_Some (m !! p)) (Env.rangeOrder E 0 m) ->
  exists e st,
    V3.run E fl newPackage oldPackagePat (S fuel) cwd root fs
    = Some (e, st)
    /\ failed st = false
    /\ (e = Exit 0 \/ e = Panic).
Proof.
  intros m Hall. subst m. unfold V3.run. cbv zeta.
  destruct (MainFacts.walked E cwd root fs) as (_ & _ & _ & Hf & _ & _).
  set (st0 := Walk.walkDir E cwd root (initial fs)) in *.
  destruct (V3_checkLoop_quiet fuel cwd _ st0 Hall)
    as (st1 & [He|He] & (_ & Hq & _)); rewrite He.
  - rewrite Hq, Hf.
    pose proof (LoopFacts.editLoop_keeps
                  (V3.changeVersion E fl newPackage oldPackagePat)
                  (Env.rangeOrder E 1 (editPkgs st1))
                  (V3Facts.V3_changeVersion_keeps E fl newPackage
                     oldPackagePat) st1) as H2.
    pose proof (RunFacts.editLoop_ends _ V3_changeVersion_ends
                  (Env.rangeOrder E 1 (editPkgs st1)) st1) as H3.
    destruct (Loops.editLoop _ _ st1) as [[] st2|st2|];
      [| |destruct (H3 eq_refl)]; cbn [keeps Loops.finish] in *.
    + assert (Hf2 : failed st2 = false)
        by (rewrite (es_failed _ _ H2), Hq; exact Hf).
      rewrite Hf2. exists (Exit 0), st2. auto.
    + assert (Hf2 : failed st2 = false)
        by (rewrite (es_failed _ _ H2), Hq; exact Hf).
      exists Panic, st2. auto.
  - exists Panic, st1. rewrite Hq, Hf. auto.
Qed.

End WithEnv.
End NoDepsFacts.

(** ** [changeVersion] of the last version *)

Module V3ChangeFacts.
Import Go World ChangeWords3.

Section WithEnv.
Context {Rest : Type} (E : Env.t Rest).
Variable newPackage : string.
Variable oldPackagePat : Regexp.Regexp.

Lemma mapM_cons_inv {A B : Type} (f : A -> option B) x l k :
  mapM f (x :: l) = Some k ->
  exists y k', f x = Some y /\ mapM f l = Some k' /\ k = y :: k'.
Proof.
  cbn. destruct (f x) as [y|]; cbn; [|discriminate].
  destruct (mapM f l) as [k'|]; cbn; [|discriminate].
  intros [= <-]. eauto.
Qed.

(** The loop over the imports, import by import. *)
Lemma V3_fixImports_spec values :
  forall imps ps,
    mapM (Env.Unquote E) values = Some imps ->
    mapM (V3.fixPath newPackage oldPackagePat) imps = Some ps ->
    V3.fixImports E newPackage oldPackagePat values
    = Some (newValues E values imps ps, anyChanged imps ps).
Proof.
  induction values as [|v values IH]; intros imps ps Hu Hf.
  - cbn in Hu. injection Hu as <-. cbn in Hf. injection Hf as <-.
    reflexivity.
  - apply mapM_cons_inv in Hu as (i & imps' & Hi & Hu & ->).
    apply mapM_cons_inv in Hf as (p & ps' & Hp & Hf & ->).
    cbn [V3.fixImports newValues anyChanged]. rewrite Hi, Hp.
    rewrite (IH _ _ Hu Hf). unfold newValue.
    destruct (negb (String.eqb p i)); reflexivity.
Qed.

(** When [fixPath] gives back what it is given, nothing changes. *)
Lemma anyChanged_same imps : anyChanged imps imps = false.
Proof.
  induction imps as [|i imps IH]; [reflexivity|].
  cbn [anyChanged]. rewrite String.eqb_refl, IH. reflexivity.
Qed.

(** The loop run again over its own result changes nothing, when
    [strconv.Unquote] reads back what [strconv.Quote] wrote and
    [fixPath] leaves its own results as they are. *)
Lemma V3_fixImports_twice values :
  (forall s, Env.Unquote E (Env.Quote E s) = Some s) ->
  (forall p q, V3.fixPath newPackage oldPackagePat p = Some q ->
               V3.fixPath newPackage oldPackagePat q = Some q) ->
  forall vs changed,
    V3.fixImports E newPackage oldPackagePat values = Some (vs, changed) ->
    V3.fixImports E newPackage oldPackagePat vs = Some (vs, false).
Proof.
  intros Hq Hidem. induction values as [|v values IH]; intros vs changed;
    cbn [V3.fixImports].
  - intros [= <- <-]. reflexivity.
  - destruct (Env.Unquote E v) as [imp|] eqn:Hv; [|discriminate].
    destruct (V3.fixPath newPackage oldPackagePat imp) as [p|] eqn:Hp;
      [|discriminate].
    destruct (V3.fixImports E newPackage oldPackagePat values)
      as [[vs' c']|]; [|discriminate].
    specialize (IH vs' c' eq_refl).
    destruct (String.eqb_spec p imp) as [->|Hne]; cbn [negb];
      intros [= <- <-]; cbn [V3.fixImports].
    + rewrite Hv, Hp, IH, String.eqb_refl. reflexivity.
    + rewrite Hq, (Hidem _ _ Hp), IH, String.eqb_refl. reflexivity.
Qed.

End WithEnv.
End V3ChangeFacts.

(** ** A tree in which nothing is to change *)

Module UntouchedFacts.
Import Go World Frames FramesFacts.

Section Loop.
Variable changeVersion : string -> state -> run bool.

(** With no package marked the second loop of [main] does
    nothing. *)
Lemma editLoop_unmarked paths st :
  (forall q ep, editPkgs st !! q = Some ep -> needsEdit ep = false) ->
  Loops.editLoop changeVersion paths st = Returns tt st.
Proof.
  intros H. induction paths as [|p paths IH]; cbn [Loops.editLoop];
    [reflexivity|].
  destruct (editPkgs st !! p) as [ep|] eqn:Hep; [|exact IH].
  unfold Loops.editOne. rewrite (H p ep Hep). cbn. exact IH.
Qed.

End Loop.

Section WithEnv.
Context {Rest : Type} (E : Env.t Rest).

Lemma V1_run_untouched fixPackage fuel cwd root fs e st :
  (forall q imp, ~ CheckWords.usesOther E fixPackage q imp) ->
  V1.run E fixPackage fuel cwd root fs = Some (e, st) ->
  e = Exit 0 /\ files st = fs /\ created st = [] /\ stdout st = []
  /\ forall q imp, ~ In (Uses q imp) (stderr st).
Proof.
  intros Hno Hrun.
  destruct (CheckInv.V1_run_sound E fixPackage fuel cwd root fs e st
              Hrun) as ((H1 & _ & _) & _ & _).
  assert (Hlines : forall q imp, ~ In (Uses q imp) (stderr st)).
  { intros q imp Hin. destruct (H1 q imp Hin) as (_ & _ & Hu).
    apply (Hno q imp Hu). }
  unfold V1.run in Hrun.
  destruct (MainFacts.walked E cwd root fs)
    as (Hfs & Hcr & Hout & Hf & _ & _).
  pose proof (CheckInv.walked_sound E fixPackage cwd root fs) as H0.
  set (st0 := Walk.walkDir E cwd root (initial fs)) in *.
  pose proof (CheckInv.V1_checkLoop_sound E fixPackage fuel
                (Env.rangeOrder E 0 (editPkgs st0)) st0 H0) as Hs.
  pose proof (LoopFacts.checkLoop_keeps
                (V1.checkPackage E fixPackage fuel)
                (Env.rangeOrder E 0 (editPkgs st0))
                (fun p s => V1Facts.V1_checkPackage_keeps E fixPackage
                              fuel p s) st0) as Hk.
  destruct (Loops.checkLoop _ _ st0) as [[] st1|st1|] eqn:Hc;
    cbn [bindR Loops.finish] in Hrun;
    [|destruct (MarkFacts.V1_checkLoop_no_panic _ _ _ _ _ _ Hc)
     |discriminate].
  cbn [keeps] in Hs, Hk. destruct Hs as (R1 & R2 & R3).
  rewrite editLoop_unmarked in Hrun.
  2: { intros q ep Hq. destruct (needsEdit ep) eqn:Hn; [|reflexivity].
       destruct (R2 q ep Hq Hn) as (imp & Hu).
       destruct (Hno q imp Hu). }
  cbn [Loops.finish] in Hrun.
  assert (Hf1 : failed st1 = false).
  { destruct (failed st1) eqn:Hf1; [|reflexivity].
    destruct (R3 Hf1) as (q & imp & Hin).
    destruct (R1 q imp Hin) as (_ & _ & Hu). destruct (Hno q imp Hu). }
  rewrite Hf1 in Hrun. injection Hrun as <- <-.
  split; [reflexivity|].
  rewrite (cs_files _ _ Hk), (cs_created _ _ Hk), (cs_stdout _ _ Hk).
  auto.
Qed.

Lemma V3_run_untouched fl newPackage pat fuel cwd root fs e st :
  (forall q fromDir pkg impPath,
      Env.Import E q fromDir = (pkg, NoErr) ->
      In impPath (CheckWords3.allImports pkg) ->
      ~ CheckWords3.changes newPackage pat
          (CheckWords3.resolved E pkg impPath)) ->
  V3.run E fl newPackage pat fuel cwd root fs = Some (e, st) ->
  (e = Exit 0 \/ e = Panic)
  /\ files st = fs /\ created st = [] /\ stdout st = []
  /\ failed st = false.
Proof.
  intros Hno Hrun. unfold V3.run in Hrun.
  destruct (MainFacts.walked E cwd root fs)
    as (Hfs & Hcr & Hout & Hf & _ & _).
  pose proof (CheckInv3.walked_sound3 E newPackage pat cwd root fs)
    as H0.
  set (st0 := Walk.walkDir E cwd root (initial fs)) in *.
  pose proof (CheckInv3.V3_checkLoop_sound E fl newPackage pat fuel cwd
                (Env.rangeOrder E 0 (editPkgs st0)) st0 H0) as Hs.
  assert (Hclean : forall s,
             CheckWords3.sound E newPackage pat s -> failed s = false).
  { intros s (R1 & _ & R3). destruct (failed s) eqn:Hfs'; [|reflexivity].
    destruct (R3 Hfs') as (a & b & Hin).
    destruct (R1 a b Hin)
      as (_ & q & _ & d & pkg & imp & HI & _ & Hin' & -> & Hch).
    destruct (Hno q d pkg imp HI) as [].
    - unfold CheckWords3.allImports. apply in_or_app. left. exact Hin'.
    - exact Hch. }
  destruct (Loops.checkLoop _ _ st0) as [[] st1|st1|] eqn:Hc;
    [|injection Hrun as <- <-|discriminate];
    cbn [keeps] in Hs; destruct Hs as [Hk Hs1];
    pose proof (Hclean _ Hs1) as Hf1.
  - rewrite Hf1 in Hrun. destruct Hs1 as (_ & R2 & _).
    rewrite editLoop_unmarked in Hrun.
    2: { intros q ep Hq. destruct (needsEdit ep) eqn:Hn; [|reflexivity].
         destruct (R2 q ep Hq Hn) as (d & pkg & imp & HI & Hin & Hch).
         destruct (Hno q d pkg imp HI Hin Hch). }
    cbn [Loops.finish] in Hrun. rewrite Hf1 in Hrun.
    injection Hrun as <- <-. split; [auto|].
    rewrite (cs_files _ _ Hk), (cs_created _ _ Hk), (cs_stdout _ _ Hk).
    auto.
  - split; [auto|].
    rewrite (cs_files _ _ Hk), (cs_created _ _ Hk), (cs_stdout _ _ Hk).
    auto.
Qed.

End WithEnv.
End UntouchedFacts.

(** ** The check of the last version ends *)

Module TotalFacts3.
Import Go World Frames FramesFacts CheckSpec CheckFacts ReachWords3.

Section WithEnv.
Context {Rest : Type} (E : Env.t Rest).
Variable fl : V3.flags.
Variable newPackage : string.
Variable oldPackagePat : Regexp.Regexp.
Variable univ : list string.
Hypothesis Hkey : keyed E.
Hypothesis Hfin : finiteGraph E univ.






End WithEnv.
End TotalFacts3.

(** ** The check of the last version goes through the whole graph *)

Module SettledFacts3.
Import Go World Frames FramesFacts ReachWords3.

Section WithEnv.
Context {Rest : Type} (E : Env.t Rest).
Variable fl : V3.flags.
Variable newPackage : string.
Variable oldPackagePat : Regexp.Regexp.
Hypothesis Hkey : keyed E.
Hypothesis Hdir : dirFree E.

Local Abbreviation settledOf := (settledOf fl newPackage oldPackagePat).
Local Abbreviation settled := (settled E fl newPackage oldPackagePat).
Local Abbreviation settledNew :=
  (settledNew E fl newPackage oldPackagePat).

Lemma checkStep_is_Some st st' q :
  checkStep st st' ->
  (is_Some (editPkgs st' !! q) <-> is_Some (editPkgs st !! q)).
Proof.
  intros Hs. pose proof (cs_goFiles _ _ Hs q) as H.
  destruct (editPkgs st' !! q), (editPkgs st !! q); cbn in H;
    try discriminate; split; intros [x Hx]; try discriminate; eauto.
Qed.

Lemma considered_checkStep st st' q pkg :
  checkStep st st' -> considered st' q pkg = considered st q pkg.
Proof.
  intros Hs. unfold considered.
  pose proof (cs_goFiles _ _ Hs q) as H.
  destruct (editPkgs st' !! q), (editPkgs st !! q); cbn in H;
    try discriminate; reflexivity.
Qed.

Lemma settledOf_mono st st' q imps :
  checkStep st st' -> settledOf st q imps -> settledOf st' q imps.
Proof.
  intros Hs H imp p Hin Hfix. destruct (H imp p Hin Hfix) as [A B].
  split.
  - intros Hne. specialize (A Hne).
    destruct (editPkgs st !! q) as [ep|] eqn:Hep.
    + destruct (cs_needsEdit _ _ Hs q ep Hep A) as (ep' & -> & Hn).
      exact Hn.
    + apply (ReportFacts.checkStep_absent _ _ q Hs) in Hep.
      rewrite Hep. destruct A as [A1 A2].
      destruct (cs_stderr _ _ Hs) as [more Hmore].
      split; [rewrite Hmore; apply in_or_app; left; exact A1|].
      apply (cs_failed _ _ Hs), A2.
  - intros Hd Hor. rewrite (checkStep_is_Some _ _ q Hs) in Hor.
    destruct (B Hd Hor) as [HC|Hc]; [left; exact HC|right].
    apply (cs_checked _ _ Hs), Hc.
Qed.

Lemma settled_mono st st' q :
  checkStep st st' -> settled st q -> settled st' q.
Proof.
  intros Hs H pkg HI. rewrite (considered_checkStep _ _ _ _ Hs).
  eapply settledOf_mono; [exact Hs|]. apply H, HI.
Qed.

Lemma settledNew_refl st : settledNew st st.
Proof. split; [apply checkStep_refl|]. intros q Hq. left. exact Hq. Qed.

Lemma settledNew_trans a b c :
  settledNew a b -> settledNew b c -> settledNew a c.
Proof.
  intros [Hs1 H1] [Hs2 H2]. split; [eauto with frames|].
  intros q Hq. destruct (H2 q Hq) as [Hb|Hr]; [|right; exact Hr].
  destruct (H1 q Hb) as [Ha|Hr]; [left; exact Ha|].
  right. eapply settled_mono; eassumption.
Qed.

(** A step that marks nothing as checked. *)
Lemma settledNew_quiet st st' :
  checkStep st st' -> checked st' = checked st -> settledNew st st'.
Proof.
  intros Hs Hc. split; [exact Hs|]. intros q Hq. left.
  unfold is_checked in *. rewrite <- Hc. exact Hq.
Qed.

Lemma V3_importsLoop_settled check path pkg ep :
  ImportPath pkg = path ->
  (forall p d st st',
      check p d st = Returns tt st' ->
      settledNew st st' /\ (p = "C" \/ is_checked p st' = true)) ->
  forall imps st st',
    (is_Some ep <-> is_Some (editPkgs st !! path)) ->
    V3.importsLoop E fl newPackage oldPackagePat check path pkg ep imps
      st = Returns tt st' ->
    settledNew st st' /\ settledOf st' path imps.
Proof.
  intros Hpkg Hcheck.
  induction imps as [|imp imps IH]; intros st st' Hep Hrun;
    cbn [V3.importsLoop] in Hrun.
  - injection Hrun as <-. split; [apply settledNew_refl|].
    intros imp p [].
  - rewrite (Hkey imp (PkgDir pkg)), Hpkg in Hrun.
    set (st1 := note_import imp st) in *.
    assert (H1 : settledNew st st1)
      by (apply settledNew_quiet;
          [apply checkStep_note_import|reflexivity]).
    destruct (V3.fixPath newPackage oldPackagePat imp) as [p|] eqn:Hfix;
      [|discriminate].
    (* what is left to show once the rest of the loop is done *)
    assert (Hrest : forall st2,
              settledNew st1 st2 ->
              V3.importsLoop E fl newPackage oldPackagePat check path
                pkg ep imps st2 = Returns tt st' ->
              (checkStep st2 st' ->
               forall p', V3.fixPath newPackage oldPackagePat imp
                          = Some p' ->
                 (p' <> imp ->
                  match editPkgs st' !! path with
                  | Some ep => needsEdit ep = true
                  | None => In (InconsistentPath path imp) (stderr st')
                            /\ failed st' = true
                  end)
                 /\ (V3.noDependencies fl = false ->
                     p' = imp \/ is_Some (editPkgs st' !! path) ->
                     p' = "C" \/ is_checked p' st' = true)) ->
              settledNew st st' /\ settledOf st' path (imp :: imps)).
    { intros st2 H2 Hloop Hthis.
      destruct (IH st2 st') as [H3 H4]; [|exact Hloop|].
      { rewrite Hep. symmetry. apply checkStep_is_Some.
        eapply checkStep_trans; [apply H1|apply H2]. }
      split.
      - eapply settledNew_trans; [exact H1|].
        eapply settledNew_trans; eassumption.
      - intros imp' p' [<-|Hin] Hfix'; [|apply H4; assumption].
        apply Hthis; [apply H3|exact Hfix']. }
    destruct (String.eqb_spec p imp) as [Hsame|Hdiff]; cbn [negb] in Hrun.
    + (* the import stays as it is *)
      subst p. destruct (V3.noDependencies fl) eqn:Hd;
        cbn [negb] in Hrun.
      * apply (Hrest st1 (settledNew_refl _) Hrun).
        intros _ p' Hp'. split; [congruence|discriminate].
      * destruct (check imp (PkgDir (fst (Env.Import E imp (PkgDir pkg))))
                    st1) as [[] st3|st3|] eqn:Hc;
          cbn [bindR] in Hrun; try discriminate.
        destruct (Hcheck _ _ _ _ Hc) as [H3 Hdone].
        apply (Hrest st3 H3 Hrun).
        intros Hs p' Hp'. split; [congruence|].
        intros _ _. assert (p' = imp) by congruence. subst p'.
        destruct Hdone as [HC|Hc3]; [left; exact HC|right].
        apply (cs_checked _ _ Hs), Hc3.
    + (* [fixPath] changes it *)
      destruct ep as [ep|].
      * assert (Hsome : is_Some (editPkgs st1 !! path))
          by (apply Hep; eauto).
        set (st2 := set_needsEdit path st1) in *.
        assert (H2 : settledNew st1 st2)
          by (apply settledNew_quiet;
              [apply checkStep_set_needsEdit|reflexivity]).
        assert (Hmark : forall s, checkStep st2 s ->
                  match editPkgs s !! path with
                  | Some ep => needsEdit ep = true
                  | None => In (InconsistentPath path imp) (stderr s)
                            /\ failed s = true
                  end).
        { intros s Hs. destruct Hsome as [ep0 Hep0].
          destruct (cs_needsEdit _ _ Hs path (MkEditPkg (goFiles ep0) true))
            as (ep' & -> & Hn); [|reflexivity|exact Hn].
          subst st2 st1. cbn in Hep0 |- *.
          rewrite lookup_alter_eq, Hep0. reflexivity. }
        destruct (V3.noDependencies fl) eqn:Hd; cbn [negb] in Hrun.
        -- apply (Hrest st2 H2 Hrun).
           intros Hs p' Hp'. split; [|discriminate].
           intros _. apply Hmark, Hs.
        -- destruct (check p (PkgDir (fst (Env.Import E imp (PkgDir pkg))))
                       st2) as [[] st3|st3|] eqn:Hc;
             cbn [bindR] in Hrun; try discriminate.
           destruct (Hcheck _ _ _ _ Hc) as [H3 Hdone].
           apply (Hrest st3 (settledNew_trans _ _ _ H2 H3) Hrun).
           intros Hs p' Hp'. assert (p' = p) by congruence. subst p'.
           split.
           ++ intros _. apply Hmark.
              eapply checkStep_trans; [apply H3|exact Hs].
           ++ intros _ _.
              destruct Hdone as [HC|Hc3]; [left; exact HC|right].
              apply (cs_checked _ _ Hs), Hc3.
      * assert (Hnone : editPkgs st1 !! path = None).
        { destruct (editPkgs st1 !! path) eqn:Hq; [|reflexivity].
          destruct (proj2 Hep) as [x Hx]; [eauto|discriminate]. }
        set (st2 := set_failed (logf (InconsistentPath path imp) st1))
          in *.
        assert (H2 : settledNew st1 st2)
          by (apply settledNew_quiet; [subst st2; eauto with frames
                                      |reflexivity]).
        apply (Hrest st2 H2 Hrun).
        intros Hs p' Hp'. assert (p' = p) by congruence. subst p'.
        split.
        -- intros _.
           assert (Hn' : editPkgs st' !! path = None).
           { apply (ReportFacts.checkStep_absent _ _ path Hs).
             exact Hnone. }
           rewrite Hn'. destruct (cs_stderr _ _ Hs) as [more Hmore].
           split.
           ++ rewrite Hmore. apply in_or_app. left. subst st2. cbn.
              apply in_or_app. right. left. reflexivity.
           ++ apply (cs_failed _ _ Hs). reflexivity.
        -- intros _ [Heq|Hsome]; [congruence|].
           apply (checkStep_is_Some _ _ path Hs) in Hsome.
           subst st2 st1. cbn in Hsome, Hnone. rewrite Hnone in Hsome.
           destruct Hsome; discriminate.
Qed.

Lemma is_checked_set p st :
  is_checked p (set_checked p st) = true.
Proof. unfold is_checked. cbn. rewrite lookup_insert_eq. reflexivity. Qed.

Lemma is_checked_set_inv p q st :
  is_checked q (set_checked p st) = true ->
  q = p \/ is_checked q st = true.
Proof.
  unfold is_checked. cbn. destruct (decide (p = q)) as [->|Hne];
    [left; reflexivity|].
  rewrite lookup_insert_ne by exact Hne. auto.
Qed.

Lemma V3_checkPackage_settled fuel :
  forall path fromDir st st',
    V3.checkPackage E fl newPackage oldPackagePat fuel path fromDir st
    = Returns tt st' ->
    settledNew st st' /\ (path = "C" \/ is_checked path st' = true).
Proof.
  induction fuel as [|fuel IH]; intros path fromDir st st' Hrun;
    cbn [V3.checkPackage] in Hrun; [discriminate|].
  destruct (String.eqb_spec path "C") as [HC|HC].
  { injection Hrun as <-. split; [apply settledNew_refl|auto]. }
  destruct (is_checked path st) eqn:Hp.
  { injection Hrun as <-. split; [apply settledNew_refl|auto]. }
  pose proof (Hkey path fromDir) as Hk.
  destruct (Env.Import E path fromDir) as [pkg err] eqn:HI.
  cbn [fst] in Hk. rewrite Hk in Hrun.
  rewrite Hdir in HI.
  set (st1 := set_checked path (note_import path st)) in *.
  assert (Hs1 : checkStep st st1) by (subst st1; eauto with frames).
  assert (Hc1 : is_checked path st1 = true)
    by (subst st1; apply is_checked_set).
  assert (Hold : forall q, is_checked q st1 = true ->
                   q = path \/ is_checked q st = true).
  { intros q Hq. subst st1. apply is_checked_set_inv in Hq. exact Hq. }
  destruct err.
  - destruct (V3_importsLoop_settled
                (V3.checkPackage E fl newPackage oldPackagePat fuel)
                path pkg (editPkgs st1 !! path) Hk IH _ _ _
                (conj (fun H => H) (fun H => H)) Hrun)
      as [[Hs H1] H2].
    split.
    + split; [eauto with frames|].
      intros q Hq. destruct (H1 q Hq) as [Hq1|Hr]; [|right; exact Hr].
      destruct (Hold q Hq1) as [->|Hq0]; [right|left; exact Hq0].
      intros pkg' HI'. rewrite HI in HI'. injection HI' as <-.
      rewrite (considered_checkStep st1 st' path pkg Hs).
      unfold considered, CheckWords3.allImports.
      destruct (editPkgs st1 !! path); [exact H2|].
      rewrite List.app_nil_r in H2. exact H2.
    + right. apply (cs_checked _ _ Hs), Hc1.
  - injection Hrun as <-. split; [|auto].
    split; [exact Hs1|].
    intros q Hq. destruct (Hold q Hq) as [->|Hq0]; [right|left; exact Hq0].
    intros pkg' HI'. rewrite HI in HI'. discriminate.
  - injection Hrun as <-. split; [|auto].
    split; [eauto with frames|].
    intros q Hq. destruct (Hold q Hq) as [->|Hq0]; [right|left; exact Hq0].
    intros pkg' HI'. rewrite HI in HI'. discriminate.
Qed.

Lemma V3_checkLoop_settled fuel cwd paths :
  forall st st',
    Loops.checkLoop
      (fun path =>
         V3.checkPackage E fl newPackage oldPackagePat fuel path cwd)
      paths st = Returns tt st' ->
    settledNew st st'
    /\ forall p, In p paths -> p = "C" \/ is_checked p st' = true.
Proof.
  induction paths as [|p paths IH]; intros st st' Hrun;
    cbn [Loops.checkLoop] in Hrun.
  - injection Hrun as <-. split; [apply settledNew_refl|].
    intros p [].
  - destruct (V3.checkPackage E fl newPackage oldPackagePat fuel p cwd st)
      as [[] st1|st1|] eqn:Hc; cbn [bindR] in Hrun; try discriminate.
    destruct (V3_checkPackage_settled _ _ _ _ _ Hc) as [H1 Hp].
    destruct (IH _ _ Hrun) as [H2 Hps].
    split; [eapply settledNew_trans; eassumption|].
    intros q [<-|Hin]; [|apply Hps, Hin].
    destruct Hp as [HC|Hp]; [left; exact HC|right].
    apply (cs_checked _ _ (proj1 H2)), Hp.
Qed.

(** The rewrite keeps what is settled. *)
Lemma editStep_settled st st' q :
  editStep st st' -> settled st q -> settled st' q.
Proof.
  intros Hs H pkg HI imp p Hin Hfix. unfold considered in Hin.
  rewrite (es_editPkgs _ _ Hs) in Hin.
  destruct (H pkg HI imp p Hin Hfix) as [A B].
  rewrite (es_editPkgs _ _ Hs). split.
  - intros Hne. specialize (A Hne).
    destruct (editPkgs st !! q); [exact A|].
    destruct A as [A1 A2]. destruct (es_stderr _ _ Hs) as [more Hmore].
    split; [rewrite Hmore; apply in_or_app; left; exact A1|].
    rewrite (es_failed _ _ Hs). exact A2.
  - intros Hd Hor. unfold is_checked. rewrite (es_checked _ _ Hs).
    apply B; assumption.
Qed.

Lemma V3_run_settled fuel cwd root fs e st :
  V3.run E fl newPackage oldPackagePat fuel cwd root fs = Some (e, st) ->
  e <> Panic ->
  (forall q, is_checked q st = true -> settled st q)
  /\ (forall p,
         In p (Env.rangeOrder E 0
                 (editPkgs (Walk.walkDir E cwd root (initial fs)))) ->
         p = "C" \/ is_checked p st = true).
Proof.
  unfold V3.run. cbv zeta. intros Hrun He.
  destruct (MainFacts.walked E cwd root fs) as (_ & _ & _ & _ & _ & Hc0).
  set (st0 := Walk.walkDir E cwd root (initial fs)) in *.
  destruct (Loops.checkLoop _ _ st0) as [[] st1|st1|] eqn:Hc;
    [|injection Hrun as <- _; destruct (He eq_refl)|discriminate].
  destruct (V3_checkLoop_settled _ _ _ _ _ Hc) as [[Hs H1] H2].
  assert (H3 : forall q, is_checked q st1 = true -> settled st1 q).
  { intros q Hq. destruct (H1 q Hq) as [Hq0|Hr]; [|exact Hr].
    unfold is_checked in Hq0. rewrite Hc0, lookup_empty in Hq0.
    discriminate. }
  destruct (failed st1).
  { injection Hrun as <- <-. split; assumption. }
  pose proof (LoopFacts.editLoop_keeps
                (V3.changeVersion E fl newPackage oldPackagePat)
                (Env.rangeOrder E 1 (editPkgs st1))
                (V3Facts.V3_changeVersion_keeps E fl newPackage
                   oldPackagePat) st1) as Hk.
  destruct (Loops.editLoop _ _ st1) as [[] st2|st2|];
    cbn [Loops.finish keeps] in *;
    [|injection Hrun as <- _; destruct (He eq_refl)|discriminate].
  assert (Hst : st = st2)
    by (destruct (failed st2); injection Hrun as _ <-; reflexivity).
  subst st. split.
  - intros q Hq. eapply editStep_settled; [exact Hk|]. apply H3.
    unfold is_checked in *. rewrite <- (es_checked _ _ Hk). exact Hq.
  - intros p Hin. destruct (H2 p Hin) as [HC|Hp]; [left; exact HC|right].
    unfold is_checked in *. rewrite (es_checked _ _ Hk). exact Hp.
Qed.

End WithEnv.
End SettledFacts3.

(** * The claims *)


(** C2, the claim as stated fails for [src/govers.go], where the exit
    between the check and the rewrite is commented out: with the
    dependency [d] on the old version the check fails, and the file of
    the package [r] is rewritten all the same. *)
Lemma V1_rewrites_after_failed_check :
  match V1.main Example.E1 10 ["a/v2/b"] (Some "/w") Example.root1
Example.fs1 with
| Some (e, st) =>
World.failed st = true
/\ World.created st = ["/w/a.go"]
/\ World.files st <> Example.fs1
| None => False
end.
Proof.
  destruct (V1.main _ _ _ _ _ _) as [[e st]|] eqn:Hrun;
    vm_compute in Hrun; [|discriminate].
  injection Hrun as <- <-. repeat split.
  intros H. apply (f_equal (fun m => m !! "/w/a.go")) in H.
  vm_compute in H. discriminate.
Qed.

(** C2, amended.  In the two versions whose [main] exits between the
    check loop and the rewrite loop, a run that ends with a recorded
    inconsistency has written no file and printed nothing, and its exit
    status is not zero; in [src/govers.go] such a run may have rewritten
    files, and its exit status is not zero. *)
Theorem failed_check_writes_nothing {Rest : Type} (E : Env.t Rest) :
  (forall fixPackage pat fuel cwd root fs e st,
      V2.run E fixPackage pat fuel cwd root fs = Some (e, st) ->
      World.failed st = true ->
      World.files st = fs /\ World.created st = []
      /\ World.status_of e <> 0)
  /\ (forall fl fuel args cwd root fs e st,
      V3.main E fuel fl args cwd root fs = Some (e, st) ->
      World.failed st = true ->
      World.files st = fs /\ World.created st = []
      /\ World.status_of e <> 0)
  /\ (forall fuel args cwd root fs e st,
      V1.main E fuel args cwd root fs = Some (e, st) ->
      World.failed st = true ->
      World.status_of e <> 0).
Proof.
  split; [|split].
  - intros fixPackage pat fuel cwd root fs e st Hrun Hfailed.
    unfold V2.run in Hrun.
    destruct (MainFacts.walked E cwd root fs) as (Hf & Hc & Ho & _).
    eapply (MainFacts.guarded_run _ _ _
              (fun st => Env.rangeOrder E 1 (World.editPkgs st)))
      in Hrun; try exact Hfailed.
    + destruct Hrun as (H1 & H2 & _ & H4). repeat split; congruence.
    + intros. apply V2Facts.V2_checkPackage_keeps.
    + intros. apply V2Facts.V2_changeVersion_keeps.
  - intros fl fuel args cwd root fs e st Hrun Hfailed.
    unfold V3.main in Hrun.
    destruct args as [|newPackage [|]];
      [injection Hrun as <- <-; discriminate| |
       injection Hrun as <- <-; discriminate].
    destruct cwd as [cwd|]; [|injection Hrun as <- <-; discriminate].
    destruct (V3.oldPackagePatOf fl newPackage) as [[re|[l|]]|];
      [|injection Hrun as <- <-; discriminate
       |injection Hrun as <- <-; discriminate|discriminate].
    unfold V3.run in Hrun.
    destruct (MainFacts.walked E cwd root fs) as (Hf & Hc & Ho & _).
    eapply (MainFacts.guarded_run _ _ _
              (fun st => Env.rangeOrder E 1 (World.editPkgs st)))
      in Hrun; try exact Hfailed.
    + destruct Hrun as (H1 & H2 & _ & H4). repeat split; congruence.
    + intros. apply V3Facts.V3_checkPackage_keeps.
    + intros. apply V3Facts.V3_changeVersion_keeps.
  - intros fuel args cwd root fs e st Hrun Hfailed.
    unfold V1.main in Hrun.
    destruct args as [|arg [|]];
      [injection Hrun as <- <-; discriminate| |
       injection Hrun as <- <-; discriminate].
    destruct cwd as [cwd|]; [|injection Hrun as <- <-; discriminate].
    unfold V1.run, Loops.finish in Hrun.
    destruct (World.bindR _ _) as [[] st1|st1|]; [| |discriminate].
    + destruct (World.failed st1) eqn:Hf1;
        injection Hrun as <- <-; [discriminate|congruence].
    + injection Hrun as <- <-. discriminate.
Qed.

(** The amended C2 at work: the check of the last version fails on the
    dependency [d], and nothing is written. *)
Lemma failed_check_writes_nothing_witness :
  match V3.main Example.E2 10 Example.noFlags ["t.v2"] (Some "/w")
Example.root2 Example.fs2 with
| Some (e, st) =>
World.failed st = true
/\ World.files st = Example.fs2 /\ World.created st = []
/\ World.status_of e <> 0
| None => False
end.
Proof.
  destruct (V3.main _ _ _ _ _ _ _) as [[e st]|] eqn:Hrun.
  - assert (Hfailed : World.failed st = true).
    { vm_compute in Hrun. injection Hrun as <- <-. reflexivity. }
    split; [exact Hfailed|].
    exact (proj1 (proj2 (failed_check_writes_nothing Example.E2))
             _ _ _ _ _ _ _ _ Hrun Hfailed).
  - vm_compute in Hrun. discriminate.
Defined.

(** C1, the claim as stated fails for [src/govers.go]: the import
    [a/v1/b/c] starts with [a/v1/b], which is the new package path
    [a/v2/b] but for its version, and [changeVersion] rewrites the file
    without changing that import. *)
Lemma V1_leaves_subpackage_import :
  Go.HasPrefix "a/v1/b/c" "a/v1/b" = true
  /\ V1Spec.sameUpToVersion "a/v2/b" "a/v1/b" = true
  /\ match V1.changeVersion Example.E1 "a/v2/b" "/w/a.go"
             (World.initial Example.fs1) with
     | World.Returns true st' =>
         World.files st' !! "/w/a.go"
         = Some (Example.source ["a/v2/b"; "d"; "a/v1/b/c"])
     | _ => False
     end.
Proof. repeat split. Qed.

(** C1, amended.  In every file that [changeVersion] of [src/govers.go]
    rewrites, every import path that as a whole is the new package path
    up to the numbers of its version elements (the two have the same
    canonical path) is replaced by the new package path, and every
    other import path, also one that only starts with such a path, is
    left as it is: when [changeVersion] returns true, the text that it
    prints is that of the tree with these import literals, and the file
    holds this text when [os.Create] and the writes end without an
    error.  When [os.Create] fails the file is left as it was, and when
    a write fails the file holds the first bytes of the text; either
    error is only logged. *)
Theorem V1_changeVersion_rewrites_whole_paths {Rest : Type}
    (E : Env.t Rest) (fixPackage path : string) (st st' : World.state)
    (src : string) (f : World.AstFile Rest) (err : bool) :
  World.files st !! path = Some src ->
  Env.parse E src = (f, err) ->
  V1.changeVersion E fixPackage path st = World.Returns true st' ->
  exists values',
    let text := Env.Fprint E (World.MkAstFile values' (World.rest f)) in
    World.files st' !! path
    = match Env.Write E path text with
      | World.Written => Some text
      | World.CreateFails _ => Some src
      | World.WriteFails _ n => Some (Go.take n text)
      end
    /\ length values' = length (World.ImportValues f)
    /\ forall i value,
         World.ImportValues f !! i = Some value ->
         exists impPath,
           Env.Unquote E value = Some impPath
           /\ values' !! i
              = Some (if V1Spec.sameUpToVersion fixPackage impPath
                      then Env.Quote E fixPackage else value).
Proof.
  intros Hfile Hparse Hrun. unfold V1.changeVersion in Hrun.
  rewrite Hfile, Hparse in Hrun.
  rewrite V1ChangeFacts.V1_fixImports_spec in Hrun.
  destruct (mapM (Env.Unquote E) (World.ImportValues f)) as [imps|] eqn:Hm;
    [|discriminate].
  destruct (existsb _ imps); cbn in Hrun; [|discriminate].
  injection Hrun as <-.
  exists (zip_with (V1Spec.newValue E fixPackage) (World.ImportValues f) imps).
  pose proof (V1ChangeFacts.mapM_length _ _ _ Hm) as Hlen.
  cbv zeta. split; [|split].
  - cbn [World.files World.write_file].
    destruct (Env.Write E path _) as [|e|e n]; cbn [World.writingFiles].
    + apply lookup_insert_eq.
    + destruct err; exact Hfile.
    + apply lookup_insert_eq.
  - rewrite length_zip_with. lia.
  - intros i value Hi.
    destruct (V1ChangeFacts.mapM_lookup _ _ _ _ _ Hm Hi) as (p & Hp & Hk).
    exists p. split; [exact Hp|].
    rewrite lookup_zip_with, Hi. cbn. rewrite Hk. reflexivity.
Qed.

(** The amended C1 on the file of the package [r], which can be
    written. *)
Lemma V1_changeVersion_rewrites_whole_paths_witness :
  exists st' values',
    V1.changeVersion Example.E1 "a/v2/b" "/w/a.go"
      (World.initial Example.fs1) = World.Returns true st'
    /\ World.files st' !! "/w/a.go"
       = Some (Example.Fprint (World.MkAstFile values' tt))
    /\ forall i value,
         [Example.Quote "a/v1/b"; Example.Quote "d";
Example.Quote "a/v1/b/c"] !! i = Some value ->
exists impPath,
Example.Unquote value = Some impPath
/\ values' !! i
   = Some (if V1Spec.sameUpToVersion "a/v2/b" impPath
           then Example.Quote "a/v2/b" else value).
Proof.
  destruct (V1.changeVersion Example.E1 "a/v2/b" "/w/a.go"
              (World.initial Example.fs1)) as [[] st'|st'|] eqn:Hrun;
    try (vm_compute in Hrun; discriminate).
  destruct (V1_changeVersion_rewrites_whole_paths Example.E1 "a/v2/b"
              "/w/a.go" (World.initial Example.fs1) st'
              (Example.source ["a/v1/b"; "d"; "a/v1/b/c"])
              (fst (Example.parse
                      (Example.source ["a/v1/b"; "d"; "a/v1/b/c"])))
              false eq_refl eq_refl Hrun) as (values' & H1 & _ & H3).
  exists st', values'. split; [reflexivity|]. split; [exact H1|exact H3].
Defined.



(** C5.  [fixPath], the same function in the two versions that have
    it, is a substitution of a prefix, guarded by the pattern: when the
    pattern does not match [p], [fixPath] returns [p] unchanged; when it
    matches and its first group, the parenthesis around the old package
    path, is the first [i] bytes of [p], then [fixPath] returns the new
    package path followed by the rest of [p] after those bytes. *)
Theorem fixPath_prefix_substitution (fixPackage : string)
    (pat : Regexp.Regexp) (p : string) :
  (Regexp.FindStringSubmatchIndex pat p = None ->
   V2.fixPath fixPackage pat p = Some p
   /\ V3.fixPath fixPackage pat p = Some p)
  /\ (forall caps i,
        Regexp.findFrom pat p 0 = Some caps ->
        caps !! 1 = Some (Some (0, i)) ->
        i <= Go.len p
        /\ V2.fixPath fixPackage pat p
           = Some (fixPackage +:+ Go.drop i p)
        /\ V3.fixPath fixPackage pat p
           = Some (fixPackage +:+ Go.drop i p)).
Proof.
  unfold V2.fixPath, V3.fixPath. split.
  - intros ->. split; reflexivity.
  - intros caps i Hfind Hcap.
    assert (Hi : i <= Go.len p).
    { apply (RegexpFacts.findFrom_bounded pat p 0 caps Hfind 1 0 i Hcap). }
    split; [exact Hi|].
    unfold Regexp.FindStringSubmatchIndex. rewrite Hfind.
    cbn [fmap option_fmap option_map].
    rewrite (RegexpFacts.locOf_group1 caps _ Hcap).
    destruct (Z.ltb_spec (Z.of_nat i) 0); [lia|].
    destruct (Z.ltb_spec (Z.of_nat (Go.len p)) (Z.of_nat i)); [lia|].
    cbn [orb]. rewrite Nat2Z.id.
    destruct (String.eqb_spec (Go.take i p) fixPackage) as [Heq|Hne];
      cbn [negb]; [|split; reflexivity].
    rewrite <- Heq, GoFacts.take_drop. split; reflexivity.
Qed.

(** C5 on the pattern for [gopkg.in/tomb.v3] and a package below the
    old version of it. *)
Lemma fixPath_prefix_substitution_witness :
  let pat :=
    Regexp.MustCompile "^(gopkg\.in/tomb[/|\.]v[0-9]+(-unstable)?)(/|$)" in
  exists caps,
    Regexp.findFrom pat "gopkg.in/tomb.v2/sub" 0 = Some caps
    /\ caps !! 1 = Some (Some (0, 16))
    /\ 16 <= Go.len "gopkg.in/tomb.v2/sub"
    /\ V2.fixPath "gopkg.in/tomb.v3" pat "gopkg.in/tomb.v2/sub"
       = Some "gopkg.in/tomb.v3/sub".
Proof.
  intros pat.
  destruct (Regexp.findFrom pat "gopkg.in/tomb.v2/sub" 0) as [caps|] eqn:Hf;
    [|vm_compute in Hf; discriminate].
  assert (Hc : caps !! 1 = Some (Some (0, 16))).
  { vm_compute in Hf. injection Hf as <-. reflexivity. }
  exists caps. split; [reflexivity|]. split; [exact Hc|].
  destruct (proj2 (fixPath_prefix_substitution "gopkg.in/tomb.v3" pat
                     "gopkg.in/tomb.v2/sub") caps 16 Hf Hc)
    as (H1 & H2 & _).
  split; [exact H1|exact H2].
Defined.

(** C9, the code at a failing input.  For the new package path
    [a/v12/2] the derived pattern takes [a/v1] followed by [2] for the
    path: [pathVersionPat] replaces a version element together with the
    slash after it.  So [fixPath] changes the new package path itself,
    and changes its own result again; and it leaves [a/v11/2], the same
    path with another version, as it is. *)
Lemma V3_fixPath_not_idempotent :
  match V3.pathVersionPat "a/v12/2" with
  | Some (World.Ready re) =>
      V3.fixPath "a/v12/2" re "a/v12/2" = Some "a/v12/2/2"
      /\ V3.fixPath "a/v12/2" re "a/v12/2/2" = Some "a/v12/2/2/2"
      /\ V3.fixPath "a/v12/2" re "a/v11/2" = Some "a/v11/2"
  | _ => False
  end.
Proof. vm_compute. repeat split. Qed.

(** C4, the claim as stated fails: the directory [.git] of the tree
    resolves to a package, and the walk, which does not enter a
    directory whose name starts with a dot, registers no entry for it. *)
Lemma walkDir_skips_dot_directory :
  In (World.Entry ".git" (World.Dir [World.Entry "x.go" World.File]))
     (match Example.root1 with World.Dir es => es | _ => [] end)
  /\ Env.ImportDir Example.E1 "/w/.git" = Some "r/.git"
  /\ World.editPkgs
       (Walk.walkDir Example.E1 "/w" Example.root1
          (World.initial Example.fs1)) !! "r/.git" = None.
Proof.
  split; [cbn; tauto|]. split; reflexivity.
Qed.

(** C4, amended.  For every finite tree, [walkDir] leaves in the edit
    set an entry under the import path of every directory that it
    enters (the root, and below it the readable directories whose names
    do not start with a dot) and that resolves to a package.  When no
    other entered directory resolves to the same import path, the file
    list of that entry is, in order, the paths of the entries of the
    directory that are not directories and whose names end in [.go],
    and the entry is not marked as needing an edit. *)
Theorem walkDir_registers_entered {Rest : Type} (E : Env.t Rest)
    (path : string) (t : World.tree) (st : World.state)
    (dir : string) (es : list World.entry) (ip : string) :
  WalkSpec.Entered E path t dir es ->
  Env.ImportDir E dir = Some ip ->
  (exists ep, World.editPkgs (Walk.walkDir E path t st) !! ip = Some ep)
  /\ ((forall dir' es',
         WalkSpec.Entered E path t dir' es' ->
         Env.ImportDir E dir' = Some ip -> dir' = dir /\ es' = es) ->
      World.editPkgs (Walk.walkDir E path t st) !! ip
      = Some (World.MkEditPkg (WalkSpec.goFilesOf E dir es) false)).
Proof.
  intros He Hi.
  destruct (proj2 (WalkRegisters.walkDir_registers E ip t) path st dir es
              He Hi) as (d & e & H1 & H2 & H3).
  split; [eauto|].
  intros Huniq. destruct (Huniq d e H1 H2) as [-> ->]. exact H3.
Qed.

(** The amended C4 on the directory [sub] of the example tree. *)
Lemma walkDir_registers_entered_witness :
  WalkSpec.Entered Example.E1 "/w" Example.root1 "/w/sub"
    [World.Entry "s.go" World.File]
  /\ Env.ImportDir Example.E1 "/w/sub" = Some "r/sub"
  /\ World.editPkgs
       (Walk.walkDir Example.E1 "/w" Example.root1
          (World.initial Example.fs1)) !! "r/sub"
     = Some (World.MkEditPkg ["/w/sub/s.go"] false).
Proof.
  assert (He : WalkSpec.Entered Example.E1 "/w" Example.root1 "/w/sub"
                 [World.Entry "s.go" World.File]).
  { eapply WalkSpec.Entered_below with (name := "sub");
      [cbn; tauto|reflexivity|]. apply WalkSpec.Entered_here. }
  split; [exact He|]. split; [reflexivity|].
  apply (proj2 (walkDir_registers_entered Example.E1 "/w" Example.root1
                  (World.initial Example.fs1) "/w/sub"
                  [World.Entry "s.go" World.File] "r/sub" He eq_refl)).
  intros dir' es' He' Hi'.
  inversion He' as [|? ? name node ? ? Hin Hdot Hsub]; subst.
  - vm_compute in Hi'. discriminate.
  - cbn in Hin. destruct Hin as [H|[H|[H|[H|[]]]]];
      injection H as <- <-; try (inversion Hsub; fail);
      try (vm_compute in Hdot; discriminate).
    inversion Hsub as [|? ? name' node' ? ? Hin' Hdot' Hsub']; subst.
    + split; reflexivity.
    + cbn in Hin'. destruct Hin' as [H|[]]. injection H as <- <-.
      inversion Hsub'.
Defined.

(** C7.  On a finite import graph, given as a table keyed by package
    path in which only the packages of [univ] import anything, cyclic or
    not, a call of [checkPackage] with more fuel than [univ] has members
    ends: in [src/govers.go] it returns, in the version with [pathPat]
    it returns or panics in [fixPath].  The record of the imports is
    then free of duplicates, so no path was imported twice, and a call
    on a path that is already marked in [checked] returns at once and
    leaves the state as it is. *)
Theorem checkPackage_memoized {Rest : Type} (E : Env.t Rest)
    (fixPackage : string) (pat : Regexp.Regexp) (univ : list string)
    (path : string) (st : World.state) (fuel : nat) :
  CheckSpec.keyed E ->
  CheckSpec.finiteGraph E univ ->
  CheckSpec.traced st ->
  length univ < fuel ->
  (exists st',
     V1.checkPackage E fixPackage fuel path st = World.Returns tt st'
     /\ NoDup (World.imported st')
     /\ exists more, World.imported st' = more ++ World.imported st)
  /\ (exists st',
        CheckSpec.ends (V2.checkPackage E fixPackage pat fuel path st) st'
        /\ NoDup (World.imported st')
        /\ exists more, World.imported st' = more ++ World.imported st)
  /\ (World.is_checked path st = true ->
      V1.checkPackage E fixPackage fuel path st = World.Returns tt st
      /\ V2.checkPackage E fixPackage pat fuel path st
         = World.Returns tt st).
Proof.
  intros Hkey Hfin Ht Hfuel.
  destruct fuel as [|n]; [lia|].
  assert (Hm : length (CheckSpec.unchecked univ st) <= n).
  { unfold CheckSpec.unchecked.
    pose proof (List.filter_length_le
                  (fun p => negb (World.is_checked p st)) univ). lia. }
  split; [|split].
  - destruct (CheckFacts.V1_checkPackage_total E fixPackage univ Hkey Hfin
                n path st Hm Ht) as (st' & Hr & [_ Hnd] & Hs).
    exists st'. split; [exact Hr|]. split; [exact Hnd|].
    apply (Frames.cs_imported _ _ Hs).
  - destruct (CheckFacts.V2_checkPackage_total E fixPackage pat univ Hkey
                Hfin n path st Hm Ht) as (st' & Hr & [_ Hnd] & Hs).
    exists st'. split; [exact Hr|]. split; [exact Hnd|].
    apply (Frames.cs_imported _ _ Hs).
  - intros Hc. cbn [V1.checkPackage V2.checkPackage]. rewrite Hc.
    split; [reflexivity|]. destruct (String.eqb path "C"); reflexivity.
Qed.

(** C7 on two packages that import each other. *)
Lemma checkPackage_memoized_witness :
  CheckSpec.keyed Example.Ecycle
  /\ CheckSpec.finiteGraph Example.Ecycle ["a"; "b"]
  /\ CheckSpec.traced (World.initial ∅)
  /\ length ["a"; "b"] < 3
  /\ exists st',
       V1.checkPackage Example.Ecycle "t/v2/x" 3 "a" (World.initial ∅)
       = World.Returns tt st'
       /\ NoDup (World.imported st').
Proof.
  assert (Hkey : CheckSpec.keyed Example.Ecycle).
  { intros p. cbn.
    destruct (String.eqb_spec p "a") as [->|]; [reflexivity|].
    destruct (String.eqb_spec p "b") as [->|]; reflexivity. }
  assert (Hfin : CheckSpec.finiteGraph Example.Ecycle ["a"; "b"]).
  { intros p Hp. cbn.
    destruct (String.eqb_spec p "a") as [->|]; [cbn in Hp; tauto|].
    destruct (String.eqb_spec p "b") as [->|]; [cbn in Hp; tauto|].
    reflexivity. }
  assert (Ht : CheckSpec.traced (World.initial ∅)).
  { split; [intros p []|constructor]. }
  assert (Hlt : length ["a"; "b"] < 3) by (cbn; lia).
  repeat (split; [assumption|]).
  destruct (proj1 (checkPackage_memoized Example.Ecycle "t/v2/x"
                     (Regexp.MkRegexp Regexp.Empty 0) ["a"; "b"] "a"
                     (World.initial ∅) 3 Hkey Hfin Ht Hlt))
    as (st' & Hr & Hnd & _).
  exists st'. split; assumption.
Defined.



(** C10, the claim as stated fails in the last version with the flag
    [-n]: the package [r] is printed, and no file is changed. *)
Lemma V3_prints_without_writing :
  match V3.main Example.E3 10 (V3.MkFlags EmptyString true false) ["t.v2"]
          (Some "/w") Example.root2 Example.fs3 with
  | Some (e, st) =>
      World.stdout st = [World.PathLine "r"]
      /\ World.created st = []
      /\ World.files st = Example.fs3
  | None => False
  end.
Proof. vm_compute. repeat split. Qed.

(** C10, the same without the flag in a tree that cannot be written
    to: [os.Create] fails on the file of the package [r], the errors
    are logged, [changeVersion] returns true, and the package is
    printed with its file as it was; the exit status is 0. *)
Lemma V3_prints_after_failed_create :
  match V3.main Example.E3readonly 10 Example.noFlags ["t.v2"] (Some "/w")
Example.root2 Example.fs3 with
| Some (e, st) =>
e = World.Exit 0
/\ World.stdout st = [World.PathLine "r"]
/\ World.files st = Example.fs3
/\ World.stderr st = [World.CannotCreateFile; World.CannotWriteFile]
| None => False
end.
Proof. vm_compute. repeat split. Qed.

(** C10, amended.  A run of [main] with one argument that ends by
    returning or by [os.Exit] has on standard output exactly one line
    for each package on at least one file of which [changeVersion] has
    called [os.Create], in the order of the iteration, and nothing
    else: in [src/govers.go], in the version with [pathPat], and in the
    last version without [-n].  These files are files of that package,
    the package is marked as needing an edit, and every file on which
    [os.Create] was not called is as it was.  The package is printed
    whether [os.Create] and the writes succeed or not.  With [-n] the
    last version calls [os.Create] on no file and changes none; when it
    exits with status 0 it has printed, in the order of the iteration,
    the packages marked as needing an edit that have a file with an
    import that [fixPath] changes, and with another status nothing. *)
Theorem main_prints_packages_of_created_files {Rest : Type}
    (E : Env.t Rest) :
  (forall fuel arg cwd root fs n st,
      V1.main E fuel [arg] (Some cwd) root fs = Some (World.Exit n, st) ->
      PrintSpec.printsCreated (Env.rangeOrder E 1 (World.editPkgs st)) st
      /\ PrintSpec.othersKept fs st)
  /\ (forall fixPackage pat fuel cwd root fs n st,
      V2.run E fixPackage pat fuel cwd root fs = Some (World.Exit n, st) ->
      PrintSpec.printsCreated (Env.rangeOrder E 1 (World.editPkgs st)) st
      /\ PrintSpec.othersKept fs st)
  /\ (forall fl fuel arg cwd root fs n st,
      V3.noEdit fl = false ->
      V3.main E fuel fl [arg] (Some cwd) root fs = Some (World.Exit n, st) ->
      PrintSpec.printsCreated (Env.rangeOrder E 1 (World.editPkgs st)) st
      /\ PrintSpec.othersKept fs st)
  /\ (forall fl fuel args cwd root fs e st,
      V3.noEdit fl = true ->
      V3.main E fuel fl args cwd root fs = Some (e, st) ->
      World.created st = [] /\ World.files st = fs)
  /\ (forall fl fuel arg cwd root fs n st,
      V3.noEdit fl = true ->
      V3.main E fuel fl [arg] (Some cwd) root fs = Some (World.Exit n, st) ->
      match n with
      | 0 =>
          exists pat,
            V3.oldPackagePatOf fl arg = Some (World.Ready pat)
            /\ World.stdout st
               = PrintSpec.dryLines E arg pat fs (World.editPkgs st)
                   (Env.rangeOrder E 1 (World.editPkgs st))
      | S _ => World.stdout st = []
      end).
Proof.
  assert (Hedit : forall changeVersion st1 fs n st,
    PrintSpec.writer changeVersion ->
    (forall p st,
        Frames.keeps PrintSpec.createsOnly st (changeVersion p st)) ->
    World.created st1 = [] -> World.stdout st1 = [] ->
    World.files st1 = fs ->
    Loops.finish
      (Loops.editLoop changeVersion
         (Env.rangeOrder E 1 (World.editPkgs st1)) st1)
    = Some (World.Exit n, st) ->
    PrintSpec.printsCreated (Env.rangeOrder E 1 (World.editPkgs st)) st
    /\ PrintSpec.othersKept fs st).
  { intros cv st1 fs n st Hw Hk Hc Ho Hfs Hrun. unfold Loops.finish in Hrun.
    pose proof (PrintFacts.editLoop_createsOnly cv
                  (Env.rangeOrder E 1 (World.editPkgs st1)) Hk st1) as Hco.
    destruct (Loops.editLoop cv _ st1) as [[] st2|st2|] eqn:He;
      [|discriminate|discriminate].
    destruct (PrintFacts.printsCreated_editLoop cv _ st1 st2 Hw Hc Ho He)
      as [Hp Hm].
    assert (st = st2) as -> by (destruct (World.failed st2); congruence).
    split; [rewrite Hm; exact Hp|].
    cbn in Hco. destruct Hco as (more & H1 & H2).
    rewrite Hc, List.app_nil_r in H1.
    intros f Hf. rewrite H2, Hfs; [reflexivity|].
    rewrite <- H1. exact Hf. }
  assert (Hguard : forall checkPackage changeVersion st0 fs n st,
    PrintSpec.writer changeVersion ->
    (forall p st,
        Frames.keeps PrintSpec.createsOnly st (changeVersion p st)) ->
    (forall p st, Frames.keeps Frames.checkStep st (checkPackage p st)) ->
    World.created st0 = [] -> World.stdout st0 = [] ->
    World.files st0 = fs ->
    match Loops.checkLoop checkPackage
            (Env.rangeOrder E 0 (World.editPkgs st0)) st0 with
    | World.OutOfFuel => None
    | World.Panics st => Some (World.Panic, st)
    | World.Returns _ st =>
        if World.failed st then Some (World.Exit 1, st)
        else Loops.finish
               (Loops.editLoop changeVersion
                  (Env.rangeOrder E 1 (World.editPkgs st)) st)
    end = Some (World.Exit n, st) ->
    PrintSpec.printsCreated (Env.rangeOrder E 1 (World.editPkgs st)) st
    /\ PrintSpec.othersKept fs st).
  { intros cp cv st0 fs n st Hw Hco Hk Hc Ho Hfs Hrun.
    pose proof (LoopFacts.checkLoop_keeps cp
                  (Env.rangeOrder E 0 (World.editPkgs st0)) Hk st0) as Hs.
    destruct (Loops.checkLoop cp _ st0) as [[] st1|st1|];
      [|discriminate|discriminate].
    cbn in Hs. destruct Hs.
    destruct (World.failed st1).
    - injection Hrun as <- <-. split.
      + apply PrintFacts.printsCreated_nothing; congruence.
      + intros f _. congruence.
    - eapply Hedit; [exact Hw|exact Hco| | | |exact Hrun]; congruence. }
  split; [|split; [|split; [|split]]].
  - intros fuel arg cwd root fs n st Hrun. cbn [V1.main] in Hrun.
    unfold V1.run in Hrun.
    destruct (MainFacts.walked E cwd root fs) as (Hf & Hc & Ho & _).
    pose proof (LoopFacts.checkLoop_keeps (V1.checkPackage E arg fuel)
                  (Env.rangeOrder E 0
                     (World.editPkgs
                        (Walk.walkDir E cwd root (World.initial fs))))
                  (V1Facts.V1_checkPackage_keeps E arg fuel)
                  (Walk.walkDir E cwd root (World.initial fs))) as Hs.
    destruct (Loops.checkLoop _ _ _) as [[] st1|st1|];
      cbn [World.bindR] in Hrun; [|discriminate|discriminate].
    cbn in Hs. destruct Hs.
    eapply (Hedit (V1.changeVersion E arg));
      [apply PrintFacts.V1_writer|apply PrintFacts.V1_createsOnly
      | | | |exact Hrun]; congruence.
  - intros fixPackage pat fuel cwd root fs n st Hrun. unfold V2.run in Hrun.
    destruct (MainFacts.walked E cwd root fs) as (Hf & Hc & Ho & _).
    eapply (Hguard (V2.checkPackage E fixPackage pat fuel)
              (V2.changeVersion E fixPackage pat));
      [apply PrintFacts.V2_writer|apply PrintFacts.V2_createsOnly
      | |exact Hc|exact Ho|exact Hf|exact Hrun].
    apply V2Facts.V2_checkPackage_keeps.
  - intros fl fuel arg cwd root fs n st Hn Hrun. cbn [V3.main] in Hrun.
    destruct (V3.oldPackagePatOf fl arg) as [[re|[l|]]|];
      [| |discriminate|discriminate].
    + unfold V3.run in Hrun.
      destruct (MainFacts.walked E cwd root fs) as (Hf & Hc & Ho & _).
      eapply (Hguard (fun path => V3.checkPackage E fl arg re fuel path cwd)
                (V3.changeVersion E fl arg re));
        [apply (PrintFacts.V3_writer E fl arg re Hn)
        |apply PrintFacts.V3_createsOnly
        | |exact Hc|exact Ho|exact Hf|exact Hrun].
      intros. apply V3Facts.V3_checkPackage_keeps.
    + injection Hrun as <- <-. split.
      * apply PrintFacts.printsCreated_nothing; reflexivity.
      * intros f _. reflexivity.
  - intros fl fuel args cwd root fs e st Hn Hrun. unfold V3.main in Hrun.
    destruct args as [|arg [|]];
      [injection Hrun as <- <-; split; reflexivity| |
       injection Hrun as <- <-; split; reflexivity].
    destruct cwd as [cwd|]; [|injection Hrun as <- <-; split; reflexivity].
    destruct (V3.oldPackagePatOf fl arg) as [[re|[l|]]|];
      [|injection Hrun as <- <-; split; reflexivity
       |injection Hrun as <- <-; split; reflexivity|discriminate].
    unfold V3.run in Hrun.
    destruct (MainFacts.walked E cwd root fs) as (Hf & Hc & _).
    pose proof (LoopFacts.checkLoop_keeps
                  (fun path => V3.checkPackage E fl arg re fuel path cwd)
                  (Env.rangeOrder E 0
                     (World.editPkgs
                        (Walk.walkDir E cwd root (World.initial fs))))
                  (fun p st => V3Facts.V3_checkPackage_keeps E fl arg re
                                 fuel p cwd st)
                  (Walk.walkDir E cwd root (World.initial fs))) as Hs.
    destruct (Loops.checkLoop _ _ _) as [[] st1|st1|]; [| |discriminate];
      cbn in Hs; destruct Hs.
    + destruct (World.failed st1);
        [injection Hrun as <- <-; split; congruence|].
      pose proof (LoopFacts.editLoop_keeps_rel
                    (V3.changeVersion E fl arg re)
                    (fun st st' => World.files st' = World.files st
                                   /\ World.created st' = World.created st)
                    (Env.rangeOrder E 1 (World.editPkgs st1))
                    (fun st => conj eq_refl eq_refl)
                    (fun a b c H1 H2 =>
                       conj (eq_trans (proj1 H2) (proj1 H1))
                            (eq_trans (proj2 H2) (proj2 H1)))
                    (fun l st => conj eq_refl eq_refl)
                    (fun p st => PrintFacts.V3_dry E fl arg re p st Hn)
                    st1) as Hk.
      unfold Loops.finish in Hrun.
      destruct (Loops.editLoop _ _ st1) as [[] st2|st2|];
        [| |discriminate]; cbn in Hk; destruct Hk.
      * assert (st = st2) as ->
          by (destruct (World.failed st2); congruence).
        split; congruence.
      * injection Hrun as <- <-. split; congruence.
    + injection Hrun as <- <-. split; congruence.
  - intros fl fuel arg cwd root fs n st Hn Hrun. cbn [V3.main] in Hrun.
    destruct (V3.oldPackagePatOf fl arg) as [[re|[l|]]|];
      [|injection Hrun as <- <-; reflexivity|discriminate|discriminate].
    unfold V3.run in Hrun.
    destruct (MainFacts.walked E cwd root fs) as (Hf & _ & Ho & _).
    pose proof (LoopFacts.checkLoop_keeps
                  (fun path => V3.checkPackage E fl arg re fuel path cwd)
                  (Env.rangeOrder E 0
                     (World.editPkgs
                        (Walk.walkDir E cwd root (World.initial fs))))
                  (fun p st => V3Facts.V3_checkPackage_keeps E fl arg re
                                 fuel p cwd st)
                  (Walk.walkDir E cwd root (World.initial fs))) as Hs.
    destruct (Loops.checkLoop _ _ _) as [[] st1|st1|];
      [|discriminate|discriminate].
    cbn in Hs. destruct Hs.
    destruct (World.failed st1) eqn:Hfail.
    { injection Hrun as <- <-. congruence. }
    pose proof (LoopFacts.editLoop_keeps
                  (V3.changeVersion E fl arg re)
                  (Env.rangeOrder E 1 (World.editPkgs st1))
                  (V3Facts.V3_changeVersion_keeps E fl arg re) st1) as Hk.
    unfold Loops.finish in Hrun.
    destruct (Loops.editLoop _ _ st1) as [[] st2|st2|] eqn:He;
      [|discriminate|discriminate].
    cbn in Hk. destruct Hk.
    rewrite es_failed, Hfail in Hrun. injection Hrun as <- <-.
    exists re. split; [reflexivity|].
    destruct (PrintFacts.editLoop_dry E fl arg re fs _ Hn st1 st2
                ltac:(congruence) He) as (H1 & _ & H3).
    rewrite H1, H3. replace (World.stdout st1) with (@nil World.outLine)
      by congruence.
    reflexivity.
Qed.

(** The amended C10 on the example.  Without [-n] the package [r] is
    printed, and [os.Create] was called on its file and on no other.
    With [-n] the package is printed as the one package with an import
    to change. *)
Lemma main_prints_packages_of_created_files_witness :
  match V3.main Example.E3 10 Example.noFlags ["t.v2"] (Some "/w")
Example.root2 Example.fs3 with
| Some (e, st) =>
e = World.Exit 0
/\ World.stdout st = [World.PathLine "r"]
/\ World.created st = ["/w/a.go"]
/\ PrintSpec.printsCreated
 (Env.rangeOrder Example.E3 1 (World.editPkgs st)) st
/\ PrintSpec.othersKept Example.fs3 st
| None => False
end
/\ match V3.main Example.E3 10 (V3.MkFlags EmptyString true false)
   ["t.v2"] (Some "/w") Example.root2 Example.fs3 with
| Some (e, st) =>
e = World.Exit 0
/\ PrintSpec.dryLines Example.E3 "t.v2" (VersionSpec.derived "t")
Example.fs3 (World.editPkgs st)
(Env.rangeOrder Example.E3 1 (World.editPkgs st))
= [World.PathLine "r"]
/\ exists pat,
V3.oldPackagePatOf (V3.MkFlags EmptyString true false) "t.v2"
= Some (World.Ready pat)
/\ World.stdout st
   = PrintSpec.dryLines Example.E3 "t.v2" pat Example.fs3
       (World.editPkgs st)
       (Env.rangeOrder Example.E3 1 (World.editPkgs st))
| None => False
end.
Proof.
  split.
  - destruct (V3.main _ _ _ _ _ _ _) as [[e st]|] eqn:Hrun;
      [|vm_compute in Hrun; discriminate].
    assert (He : e = World.Exit 0)
      by (vm_compute in Hrun; injection Hrun as <- _; reflexivity).
    subst e. split; [reflexivity|].
    split; [vm_compute in Hrun; injection Hrun as <-; reflexivity|].
    split; [vm_compute in Hrun; injection Hrun as <-; reflexivity|].
    exact (proj1 (proj2 (proj2
                    (main_prints_packages_of_created_files Example.E3)))
Example.noFlags 10 "t.v2" "/w" Example.root2 Example.fs3 0 st
eq_refl Hrun).
- destruct (V3.main _ _ _ _ _ _ _) as [[e st]|] eqn:Hrun;
[|vm_compute in Hrun; discriminate].
assert (He : e = World.Exit 0)
by (vm_compute in Hrun; injection Hrun as <- _; reflexivity).
subst e. split; [reflexivity|].
split; [vm_compute in Hrun; injection Hrun as <-; vm_compute;
reflexivity|].
exact (proj2 (proj2 (proj2 (proj2
       (main_prints_packages_of_created_files Example.E3))))
(V3.MkFlags EmptyString true false) 10 "t.v2" "/w"
Example.root2 Example.fs3 0 st eq_refl Hrun).
Defined.

(** * More of the code *)

(** X1.  [splitQuotedFields] reads back what was joined: for fields
    that are not empty, have no white space and do not start with a
    quote, the fields of their join with single spaces are these
    fields, in order. *)
Theorem splitQuotedFields_join (fs : list string) :
  Forall TagsWords.bare fs ->
  Tags.splitQuotedFields (TagsWords.joinSpace fs) = Some (Tags.Fields fs).
Proof.
  intros H. apply TagsMore.Splits_split, TagsMore.Splits_join, H.
Qed.

(** X1 on two build tags. *)
Lemma splitQuotedFields_join_witness :
  Forall TagsWords.bare ["integration"; "linux"]
  /\ Tags.splitQuotedFields "integration linux"
     = Some (Tags.Fields ["integration"; "linux"]).
Proof.
  assert (H : Forall TagsWords.bare ["integration"; "linux"])
    by (repeat constructor).
  split; [exact H|].
  apply (splitQuotedFields_join ["integration"; "linux"] H).
Defined.

(** X2.  [splitQuotedFields] goes through a text from left to right:
    when [s1] has the fields [f1], the result for [s1], a white-space
    byte and [s2] is the result for [s2] with [f1] before its fields,
    and the error of [s2] when [s2] has one. *)
Theorem splitQuotedFields_app (s1 s2 : string) (c : ascii)
    (f1 : list string) :
  Tags.isSpaceByte c = true ->
  Tags.splitQuotedFields s1 = Some (Tags.Fields f1) ->
  Tags.splitQuotedFields (s1 +:+ String c s2)
  = TagsWords.prepend f1 <$> Tags.splitQuotedFields s2.
Proof.
  intros Hc H1. apply TagsMore.split_Fields in H1.
  destruct (Tags.splitQuotedFields s2) as [[f2|q]|] eqn:H2.
  - apply TagsMore.split_Fields in H2. cbn.
    apply TagsMore.Splits_split, TagsMore.Splits_app; assumption.
  - apply TagsMore.split_Unterminated in H2. cbn.
    eapply TagsMore.Unclosed_split, TagsMore.Unclosed_app; eassumption.
  - destruct (TagsMore.split_total s2 H2).
Qed.

(** X2 on a quoted field before a text with an open quote. *)
Lemma splitQuotedFields_app_witness :
  Tags.isSpaceByte "009" = true
  /\ Tags.splitQuotedFields "'a b' c" = Some (Tags.Fields ["a b"; "c"])
  /\ Tags.splitQuotedFields ("'a b' c" +:+ String "009" "d 'e")
     = Some (Tags.Unterminated "'").
Proof.
  split; [reflexivity|]. split; [reflexivity|].
  apply (splitQuotedFields_app "'a b' c" "d 'e" "009" ["a b"; "c"]);
    reflexivity.
Defined.

(** X3.  On a text without a single or double quote
    [splitQuotedFields] returns no error, and so does [tagsFlag.Set];
    none of the fields is empty and none has white space in it. *)
Theorem splitQuotedFields_quoteFree (s : string) :
  TagsWords.quoteFree s ->
  exists fs,
    Tags.splitQuotedFields s = Some (Tags.Fields fs)
    /\ Tags.Set_ s = Some (fs, None)
    /\ Forall (fun f => f <> EmptyString /\ TagsSpec.solid f) fs.
Proof.
  intros Hs. unfold Tags.Set_.
  destruct (Tags.splitQuotedFields s) as [[fs|q]|] eqn:H.
  - exists fs. split; [reflexivity|]. split; [reflexivity|].
    eapply TagsMore.quoteFree_Splits; [exact Hs|].
    apply TagsMore.split_Fields, H.
  - apply TagsMore.split_Unterminated in H.
    destruct (TagsMore.quoteFree_not_Unclosed s q Hs H).
  - destruct (TagsMore.split_total s H).
Qed.

(** X3 on a text with white space of several kinds. *)
Lemma splitQuotedFields_quoteFree_witness :
  TagsWords.quoteFree " a  b,c "
  /\ exists fs,
       Tags.splitQuotedFields " a  b,c " = Some (Tags.Fields fs)
       /\ Tags.Set_ " a  b,c " = Some (fs, None)
       /\ Forall (fun f => f <> EmptyString /\ TagsSpec.solid f) fs.
Proof.
  split; [reflexivity|].
  apply (splitQuotedFields_quoteFree " a  b,c "). reflexivity.
Defined.

(** X4.  [walkDir] only registers packages: it leaves the files, the
    record of the created files, standard output, the failure flag and
    the set of checked packages as they are, and every line that it
    adds to standard error is of a directory that could not be read. *)
Theorem walkDir_only_registers {Rest : Type} (E : Env.t Rest)
    (path : string) (t : World.tree) (st : World.state) :
  let st' := Walk.walkDir E path t st in
  World.files st' = World.files st
  /\ World.created st' = World.created st
  /\ World.stdout st' = World.stdout st
  /\ World.failed st' = World.failed st
  /\ World.checked st' = World.checked st
  /\ RunWords.onlyReadFailures st st'.
Proof.
  intros st'. subst st'.
  destruct (WalkFacts.walkDir_walkStep E t path st).
  repeat split; try assumption.
  apply WalkMore.walkDir_stderr.
Qed.

(** X5.  [walkDir] removes no entry of the edit set, and an entry that
    it adds or replaces is that of a directory it has entered and that
    resolves to the import path of the entry: its files are the entries
    of that directory that are not directories and whose names end in
    [.go], and it is not marked as needing an edit. *)
Theorem walkDir_registers_only_entered {Rest : Type} (E : Env.t Rest)
    (path : string) (t : World.tree) (st : World.state) (ip : string) :
  (is_Some (World.editPkgs st !! ip) ->
   is_Some (World.editPkgs (Walk.walkDir E path t st) !! ip))
  /\ forall ep,
       World.editPkgs (Walk.walkDir E path t st) !! ip = Some ep ->
       World.editPkgs st !! ip = Some ep
       \/ exists dir es,
            WalkSpec.Entered E path t dir es
            /\ Env.ImportDir E dir = Some ip
            /\ ep = World.MkEditPkg (WalkSpec.goFilesOf E dir es) false.
Proof.
  destruct (proj1 (WalkRegisters.walkDir_registers E ip t) path st)
    as [Heq|(dir & es & H1 & H2 & H3)].
  - rewrite Heq. split; [auto|]. intros ep H. left. exact H.
  - rewrite H3. split; [eauto|].
    intros ep [= <-]. right. exists dir, es. auto.
Qed.

(** X6.  In the version with [pathPat] the text of the version pattern
    does not compile, its parenthesis is never closed: [main] with one
    argument, whatever it is, panics in [regexp.MustCompile] before it
    has read a directory or written anything. *)
Theorem V2_main_always_panics {Rest : Type} (E : Env.t Rest) (fuel : nat)
    (arg cwd : string) (root : World.tree) (fs : gmap string string) :
  Regexp.Compile (V2.versPat +:+ "(/|$)") = Regexp.SyntaxError
  /\ V2.main E fuel [arg] (Some cwd) root fs
     = Some (World.Panic, World.initial fs).
Proof.
  split; [vm_compute; reflexivity|]. apply MainFacts.V2_main_panics.
Qed.

(** X7.  [checkPackage], in the three versions and however it ends,
    has written and created no file and printed nothing on standard
    output; it has added and removed no entry of the edit set and
    changed no list of files in it; and it has taken back nothing: what
    was checked is checked, an entry that needed an edit needs it, a
    failure stays recorded, and standard error has only grown. *)
Theorem checkPackage_only_marks {Rest : Type} (E : Env.t Rest)
    (fl : V3.flags) (newPackage : string) (pat : Regexp.Regexp)
    (fuel : nat) (path fromDir : string) (st : World.state) :
  Frames.keeps Frames.checkStep st
    (V1.checkPackage E newPackage fuel path st)
  /\ Frames.keeps Frames.checkStep st
       (V2.checkPackage E newPackage pat fuel path st)
  /\ Frames.keeps Frames.checkStep st
       (V3.checkPackage E fl newPackage pat fuel path fromDir st).
Proof.
  split; [apply V1Facts.V1_checkPackage_keeps|].
  split; [apply V2Facts.V2_checkPackage_keeps|].
  apply V3Facts.V3_checkPackage_keeps.
Qed.

(** X8.  [canonicalPath] of [src/govers.go] changes a path exactly
    when the path has a version element, that is [/v], one or more
    digits and a slash, somewhere in it.  So a version at the end of a
    path, with no slash after it, is not seen. *)
Theorem canonicalPath_unversioned (p : string) :
  V1.canonicalPath p = p <-> CanonWords.versionFree p.
Proof.
  rewrite CanonFacts.canonicalPath_canon. unfold CanonWords.versionFree.
  cbn [CanonWords.canonLoop].
  destruct (CanonWords.firstVers p) as [[a n]|] eqn:Hf.
  - split; [|discriminate]. intros H. exfalso.
    destruct (CanonFacts.firstVers_le _ _ _ Hf) as [Hn Han].
    apply (f_equal Go.len) in H.
    rewrite GoFacts.len_app, GoFacts.len_cons, GoFacts.len_take in H by lia.
    pose proof (CanonFacts.len_canonLoop (Go.len p) (Go.drop (a + n) p))
      as Hle.
    rewrite GoFacts.len_drop in Hle. lia.
  - split; reflexivity.
Qed.

(** X8 on a path whose version is its last element, and on one with a
    version element inside. *)
Lemma canonicalPath_unversioned_witness :
  (CanonWords.versionFree "example.com/pkg/v2"
   /\ V1.canonicalPath "example.com/pkg/v2" = "example.com/pkg/v2")
  /\ ~ CanonWords.versionFree "example.com/pkg/v2/sub".
Proof.
  split.
  - split; [reflexivity|].
    apply (proj2 (canonicalPath_unversioned "example.com/pkg/v2")).
    reflexivity.
  - intros H.
    apply (proj2 (canonicalPath_unversioned "example.com/pkg/v2/sub")) in H.
    vm_compute in H. discriminate.
Defined.

(** X9.  [canonicalPath] of [src/govers.go] puts [0] for the first
    version element of a path, slashes included, and goes on after it:
    when no version element starts before it, the canonical path of
    [a/vN/b] is [a], [0] and the canonical path of [b].  So two paths
    that differ only in the number of that element have the same
    canonical path, and the program takes each for a version of the
    other. *)
Theorem canonicalPath_version (a ds ds' b : string) :
  CanonWords.versionFree (a +:+ "/") ->
  ds <> EmptyString -> TagsSpec.all VersionSpec.isDigit ds = true ->
  ds' <> EmptyString -> TagsSpec.all VersionSpec.isDigit ds' = true ->
  V1.canonicalPath (a +:+ "/v" +:+ ds +:+ String "/" b)
  = a +:+ String "0" (V1.canonicalPath b)
  /\ V1Spec.sameUpToVersion (a +:+ "/v" +:+ ds +:+ String "/" b)
       (a +:+ "/v" +:+ ds' +:+ String "/" b) = true.
Proof.
  intros Ha Hne Hds Hne' Hds'.
  assert (H : forall d, d <> EmptyString ->
                TagsSpec.all VersionSpec.isDigit d = true ->
                V1.canonicalPath (a +:+ "/v" +:+ d +:+ String "/" b)
                = a +:+ String "0" (V1.canonicalPath b)).
  { intros d Hd1 Hd2.
    set (w := "v" +:+ d +:+ String "/" b).
    change (a +:+ "/v" +:+ d +:+ String "/" b) with (a +:+ String "/" w).
    rewrite CanonFacts.canonicalPath_canon. cbn [CanonWords.canonLoop].
    rewrite (CanonFacts.firstVers_app a w Ha).
    change (String "/" w) with ("/v" +:+ d +:+ String "/" b).
    rewrite (CanonFacts.firstVers_version d b Hd1 Hd2).
    cbn [fmap option_fmap option_map fst snd].
    rewrite Nat.add_0_r, GoFacts.take_app.
    rewrite <- GoFacts.drop_drop, GoFacts.drop_app.
    replace (Go.drop (3 + Go.len d) ("/v" +:+ d +:+ String "/" b)) with b.
    - rewrite CanonFacts.canonicalPath_enough; [reflexivity|].
      rewrite GoFacts.len_app. change (String "/" w) with ("/" +:+ w).
      unfold w. rewrite !GoFacts.len_app, !GoFacts.len_cons. lia.
    - change (Go.drop (3 + Go.len d) ("/v" +:+ d +:+ String "/" b))
with (Go.drop (S (Go.len d)) (d +:+ String "/" b)).
replace (S (Go.len d)) with (Go.len d + 1) by lia.
rewrite <- (GoFacts.drop_drop 1 (Go.len d)), GoFacts.drop_app.
reflexivity. }
split; [apply H; assumption|].
unfold V1Spec.sameUpToVersion. rewrite !H by assumption.
apply String.eqb_refl.
Qed.

(** X9 on two versions of a package below [example.com/pkg]. *)
Lemma canonicalPath_version_witness :
  V1.canonicalPath "example.com/pkg/v2/sub" = "example.com/pkg0sub"
  /\ V1Spec.sameUpToVersion "example.com/pkg/v2/sub"
       "example.com/pkg/v10/sub" = true.
Proof.
  pose proof (canonicalPath_version "example.com/pkg" "2" "10" "sub"
                eq_refl) as H.
  destruct H as [H1 H2]; try discriminate; try reflexivity.
  split; [|exact H2].
  etransitivity; [exact H1|reflexivity].
Defined.

(** X10.  In [src/govers.go] every report is right: when a run of
    [main] ends with a line [q uses imp] on standard error, the package
    [q] is not one of the packages being edited, [build.Import] has
    found it, [imp] is one of its imports, and [imp] is the new package
    path up to its version and not the new package path; the exit
    status is then not zero.  And an exit status of 1 comes with such a
    line. *)
Theorem V1_reports_are_right {Rest : Type} (E : Env.t Rest)
    (fixPackage : string) (fuel : nat) (cwd : string) (root : World.tree)
    (fs : gmap string string) (e : World.ending) (st : World.state) :
  V1.main E fuel [fixPackage] (Some cwd) root fs = Some (e, st) ->
  (forall q imp,
      In (World.Uses q imp) (World.stderr st) ->
      World.editPkgs st !! q = None
      /\ CheckWords.usesOther E fixPackage q imp
      /\ World.status_of e <> 0)
  /\ (e = World.Exit 1 ->
      exists q imp, In (World.Uses q imp) (World.stderr st)).
Proof.
  intros Hrun. cbn [V1.main] in Hrun.
  destruct (CheckInv.V1_run_sound E fixPackage fuel cwd root fs e st Hrun)
    as ((H1 & _ & H3) & He1 & He2).
  split.
  - intros q imp Hin. destruct (H1 q imp Hin) as (Ha & Hb & Hc).
    split; [exact Ha|]. split; [exact Hc|].
    destruct (He2 Hb) as [-> | ->]; discriminate.
  - intros He. apply H3, He1, He.
Qed.

(** X10 on the example: the dependency [d] uses [a/v1/b]. *)
Lemma V1_reports_are_right_witness :
  match V1.main Example.E1 10 ["a/v2/b"] (Some "/w") Example.root1
Example.fs1 with
| Some (e, st) =>
In (World.Uses "d" "a/v1/b") (World.stderr st)
/\ World.editPkgs st !! "d" = None
/\ CheckWords.usesOther Example.E1 "a/v2/b" "d" "a/v1/b"
| None => False
end.
Proof.
  destruct (V1.main _ _ _ _ _ _) as [[e st]|] eqn:Hrun;
    [|vm_compute in Hrun; discriminate].
  assert (Hin : In (World.Uses "d" "a/v1/b") (World.stderr st)).
  { vm_compute in Hrun. injection Hrun as _ <-. left. reflexivity. }
  split; [exact Hin|].
  destruct (proj1 (V1_reports_are_right Example.E1 "a/v2/b" 10 "/w"
Example.root1 Example.fs1 e st Hrun)
"d" "a/v1/b" Hin) as (H1 & H2 & _).
split; assumption.
Defined.

(** X11.  In [src/govers.go] every mark is right: a package that is
    marked as needing an edit when a run of [main] ends is one that
    [build.Import] has found and that imports the new package path in
    another version.  The walk marks nothing, so only the check sets
    the mark. *)
Theorem V1_marks_are_right {Rest : Type} (E : Env.t Rest)
    (fixPackage : string) (fuel : nat) (cwd : string) (root : World.tree)
    (fs : gmap string string) (e : World.ending) (st : World.state) :
  V1.main E fuel [fixPackage] (Some cwd) root fs = Some (e, st) ->
  forall q ep,
    World.editPkgs st !! q = Some ep ->
    World.needsEdit ep = true ->
    exists imp, CheckWords.usesOther E fixPackage q imp.
Proof.
  intros Hrun. cbn [V1.main] in Hrun.
  destruct (CheckInv.V1_run_sound E fixPackage fuel cwd root fs e st Hrun)
    as ((_ & H2 & _) & _ & _).
  exact H2.
Qed.

(** X11 on the example: the package [r] is marked, and imports
    [a/v1/b]. *)
Lemma V1_marks_are_right_witness :
  match V1.main Example.E1 10 ["a/v2/b"] (Some "/w") Example.root1
Example.fs1 with
| Some (e, st) =>
exists ep,
World.editPkgs st !! "r" = Some ep
/\ World.needsEdit ep = true
/\ exists imp, CheckWords.usesOther Example.E1 "a/v2/b" "r" imp
| None => False
end.
Proof.
  destruct (V1.main _ _ _ _ _ _) as [[e st]|] eqn:Hrun;
    [|vm_compute in Hrun; discriminate].
  destruct (World.editPkgs st !! "r") as [ep|] eqn:Hep;
    [|vm_compute in Hrun; injection Hrun as _ <-; vm_compute in Hep;
      discriminate].
  assert (Hn : World.needsEdit ep = true).
  { vm_compute in Hrun. injection Hrun as _ <-. vm_compute in Hep.
    injection Hep as <-. reflexivity. }
  exists ep. split; [reflexivity|]. split; [exact Hn|].
  exact (V1_marks_are_right Example.E1 "a/v2/b" 10 "/w" Example.root1
Example.fs1 e st Hrun "r" ep Hep Hn).
Defined.

(** X12.  In [src/govers.go] no use is missed among the packages being
    edited: when a run of [main] ends, every package that the check has
    imported, that is one of the packages being edited and that imports
    the new package path in another version is marked as needing an
    edit, so that the second loop goes through its files. *)
Theorem V1_marks_every_use {Rest : Type} (E : Env.t Rest)
    (fixPackage : string) (fuel : nat) (cwd : string) (root : World.tree)
    (fs : gmap string string) (e : World.ending) (st : World.state) :
  V1.main E fuel [fixPackage] (Some cwd) root fs = Some (e, st) ->
  forall q ep imp,
    In q (World.imported st) ->
    World.editPkgs st !! q = Some ep ->
    CheckWords.usesOther E fixPackage q imp ->
    World.needsEdit ep = true.
Proof.
  intros Hrun q ep imp Hq Hep (pkg & HI & Hin & Hbad).
  cbn [V1.main] in Hrun.
  exact (MarkFacts.V1_run_marks E fixPackage fuel cwd root fs e st Hrun
           q Hq pkg HI ep imp Hep Hin Hbad).
Qed.

(** X12 on the example: the package [r] imports [a/v1/b]. *)
Lemma V1_marks_every_use_witness :
  match V1.main Example.E1 10 ["a/v2/b"] (Some "/w") Example.root1
Example.fs1 with
| Some (e, st) =>
In "r" (World.imported st)
/\ CheckWords.usesOther Example.E1 "a/v2/b" "r" "a/v1/b"
/\ exists ep,
 World.editPkgs st !! "r" = Some ep
 /\ World.needsEdit ep = true
| None => False
end.
Proof.
  destruct (V1.main _ _ _ _ _ _) as [[e st]|] eqn:Hrun;
    [|vm_compute in Hrun; discriminate].
  assert (Hin : In "r" (World.imported st)).
  { vm_compute in Hrun. injection Hrun as _ <-. cbn. tauto. }
  assert (Hu : CheckWords.usesOther Example.E1 "a/v2/b" "r" "a/v1/b").
  { exists (Example.package "r" ["a/v1/b"; "d"]).
    split; [reflexivity|]. split; [left; reflexivity|].
    split; [reflexivity|discriminate]. }
  destruct (World.editPkgs st !! "r") as [ep|] eqn:Hep;
    [|vm_compute in Hrun; injection Hrun as _ <-; vm_compute in Hep;
      discriminate].
  split; [exact Hin|]. split; [exact Hu|].
  exists ep. split; [reflexivity|].
  exact (V1_marks_every_use Example.E1 "a/v2/b" 10 "/w" Example.root1
Example.fs1 e st Hrun "r" ep "a/v1/b" Hin Hep Hu).
Defined.

(** X13.  In the last version, a new package path in which no
    separator ([/], [|] or [.]) is followed by [v] and a digit is not
    versioned: without [-m], [pathVersionPat] ends the program through
    [fatalf], and [main] exits with status 2 and the line [is not
    versioned] on standard error, before it has read a directory or
    written anything. *)
Theorem V3_unversioned_is_fatal {Rest : Type} (E : Env.t Rest)
    (fuel : nat) (fl : V3.flags) (p cwd : string) (root : World.tree)
    (fs : gmap string string) :
  VersWords.noVersStart p = true ->
  V3.match_ fl = EmptyString ->
  V3.pathVersionPat p = Some (World.Stops (Some (World.NotVersioned p)))
  /\ V3.main E fuel fl [p] (Some cwd) root fs
     = Some (World.Exit 2,
             World.logf (World.NotVersioned p) (World.initial fs)).
Proof.
  intros Hp Hm.
  pose proof (VersFacts.pathVersionPat_unversioned p Hp) as H.
  split; [exact H|].
  cbn [V3.main]. unfold V3.oldPackagePatOf. rewrite Hm, H. reflexivity.
Qed.

(** X13 on a path without a version. *)
Lemma V3_unversioned_is_fatal_witness :
  VersWords.noVersStart "example.com/very/old" = true
  /\ V3.main Example.E3 10 Example.noFlags ["example.com/very/old"]
       (Some "/w") Example.root2 Example.fs3
     = Some (World.Exit 2,
             World.logf (World.NotVersioned "example.com/very/old")
               (World.initial Example.fs3)).
Proof.
  split; [reflexivity|].
  apply (V3_unversioned_is_fatal Example.E3 10 Example.noFlags
           "example.com/very/old" "/w" Example.root2 Example.fs3);
    reflexivity.
Defined.



(** X15.  In the last version every report is right: when a run of
    [main] ends with a line [package a is using inconsistent path b] on
    standard error, the exit status is not zero, and [a] is the import
    path of a package that [build.Import] has found for a path that is
    not among the packages being edited, [b] is the import path of the
    package found for one of its imports, and [fixPath] changes [b].
    And an exit status of 1 comes with such a line. *)
Theorem V3_reports_are_right {Rest : Type} (E : Env.t Rest) (fuel : nat)
    (fl : V3.flags) (newPackage : string) (pat : Regexp.Regexp)
    (cwd : string) (root : World.tree) (fs : gmap string string)
    (e : World.ending) (st : World.state) :
  V3.oldPackagePatOf fl newPackage = Some (World.Ready pat) ->
  V3.main E fuel fl [newPackage] (Some cwd) root fs = Some (e, st) ->
  (forall a b,
      In (World.InconsistentPath a b) (World.stderr st) ->
      World.status_of e <> 0
      /\ exists path,
           World.editPkgs st !! path = None
           /\ CheckWords3.inconsistent E newPackage pat path a b)
  /\ (e = World.Exit 1 ->
      exists a b, In (World.InconsistentPath a b) (World.stderr st)).
Proof.
  intros Hpat Hrun. cbn [V3.main] in Hrun. rewrite Hpat in Hrun.
  destruct (CheckInv3.V3_run_sound E fl newPackage pat fuel cwd root fs
              e st Hrun) as ((H1 & _ & H3) & He1 & He2).
  split.
  - intros a b Hin. destruct (H1 a b Hin) as (Hf & Hrest).
    split; [|exact Hrest].
    destruct (He2 Hf) as [-> | ->]; discriminate.
  - intros He. apply H3, He1, He.
Qed.

(** X15 on the example: the dependency [d] uses [t.v1]. *)
Lemma V3_reports_are_right_witness :
  V3.oldPackagePatOf Example.noFlags "t.v2"
  = Some (World.Ready (VersionSpec.derived "t"))
  /\ match V3.main Example.E2 10 Example.noFlags ["t.v2"] (Some "/w")
Example.root2 Example.fs2 with
| Some (e, st) =>
In (World.InconsistentPath "d" "t.v1") (World.stderr st)
/\ World.status_of e <> 0
/\ exists path,
 World.editPkgs st !! path = None
 /\ CheckWords3.inconsistent Example.E2 "t.v2"
      (VersionSpec.derived "t") path "d" "t.v1"
| None => False
end.
Proof.
  assert (Hpat : V3.oldPackagePatOf Example.noFlags "t.v2"
                 = Some (World.Ready (VersionSpec.derived "t")))
    by (vm_compute; reflexivity).
  split; [exact Hpat|].
  destruct (V3.main _ _ _ _ _ _ _) as [[e st]|] eqn:Hrun;
    [|vm_compute in Hrun; discriminate].
  assert (Hin : In (World.InconsistentPath "d" "t.v1") (World.stderr st)).
  { vm_compute in Hrun. injection Hrun as _ <-. left. reflexivity. }
  split; [exact Hin|].
  exact (proj1 (V3_reports_are_right Example.E2 10 Example.noFlags "t.v2"
                  (VersionSpec.derived "t") "/w" Example.root2 Example.fs2
                  e st Hpat Hrun) "d" "t.v1" Hin).
Defined.

(** X16.  In the last version every mark is right: a package that is
    marked as needing an edit when a run of [main] ends is one that
    [build.Import] has found and one of whose imports, the imports of
    its tests included, resolves to a path that [fixPath] changes. *)
Theorem V3_marks_are_right {Rest : Type} (E : Env.t Rest) (fuel : nat)
    (fl : V3.flags) (newPackage : string) (pat : Regexp.Regexp)
    (cwd : string) (root : World.tree) (fs : gmap string string)
    (e : World.ending) (st : World.state) :
  V3.oldPackagePatOf fl newPackage = Some (World.Ready pat) ->
  V3.main E fuel fl [newPackage] (Some cwd) root fs = Some (e, st) ->
  forall q ep,
    World.editPkgs st !! q = Some ep ->
    World.needsEdit ep = true ->
    exists fromDir pkg impPath,
      Env.Import E q fromDir = (pkg, World.NoErr)
      /\ In impPath (CheckWords3.allImports pkg)
      /\ CheckWords3.changes newPackage pat
           (CheckWords3.resolved E pkg impPath).
Proof.
  intros Hpat Hrun. cbn [V3.main] in Hrun. rewrite Hpat in Hrun.
  destruct (CheckInv3.V3_run_sound E fl newPackage pat fuel cwd root fs
              e st Hrun) as ((_ & H2 & _) & _ & _).
  exact H2.
Qed.

(** X16 on the example without an inconsistent dependency: the package
    [r] is marked, and imports [t.v1]. *)
Lemma V3_marks_are_right_witness :
  match V3.main Example.E3 10 Example.noFlags ["t.v2"] (Some "/w")
Example.root2 Example.fs3 with
| Some (e, st) =>
exists ep,
World.editPkgs st !! "r" = Some ep
/\ World.needsEdit ep = true
/\ exists fromDir pkg impPath,
   Env.Import Example.E3 "r" fromDir = (pkg, World.NoErr)
   /\ In impPath (CheckWords3.allImports pkg)
   /\ CheckWords3.changes "t.v2" (VersionSpec.derived "t")
        (CheckWords3.resolved Example.E3 pkg impPath)
| None => False
end.
Proof.
  assert (Hpat : V3.oldPackagePatOf Example.noFlags "t.v2"
                 = Some (World.Ready (VersionSpec.derived "t")))
    by (vm_compute; reflexivity).
  destruct (V3.main _ _ _ _ _ _ _) as [[e st]|] eqn:Hrun;
    [|vm_compute in Hrun; discriminate].
  destruct (World.editPkgs st !! "r") as [ep|] eqn:Hep;
    [|vm_compute in Hrun; injection Hrun as _ <-; vm_compute in Hep;
      discriminate].
  assert (Hn : World.needsEdit ep = true).
  { vm_compute in Hrun. injection Hrun as _ <-. vm_compute in Hep.
    injection Hep as <-. reflexivity. }
  exists ep. split; [reflexivity|]. split; [exact Hn|].
  exact (V3_marks_are_right Example.E3 10 Example.noFlags "t.v2"
           (VersionSpec.derived "t") "/w" Example.root2 Example.fs3 e st
           Hpat Hrun "r" ep Hep Hn).
Defined.

(** X17.  With [-d] the last version checks no dependency: when the
    first loop of [main] goes through keys of the edit set, as a
    [range] over the map does, [checkPackage] calls itself for no
    import, so the run ends whatever the import graph is; it records no
    failure and reports no inconsistent path, and it ends with status 0
    unless it panics. *)
Theorem V3_no_dependencies_never_fails {Rest : Type} (E : Env.t Rest)
    (fl : V3.flags) (newPackage : string) (pat : Regexp.Regexp)
    (fuel : nat) (cwd : string) (root : World.tree)
    (fs : gmap string string) :
  V3.noDependencies fl = true ->
  Forall
    (fun p =>
       is_Some
         (World.editPkgs (Walk.walkDir E cwd root (World.initial fs)) !! p))
    (Env.rangeOrder E 0
       (World.editPkgs (Walk.walkDir E cwd root (World.initial fs)))) ->
  exists e st,
    V3.run E fl newPackage pat (S fuel) cwd root fs = Some (e, st)
    /\ World.failed st = false
    /\ (e = World.Exit 0 \/ e = World.Panic)
    /\ forall a b, ~ In (World.InconsistentPath a b) (World.stderr st).
Proof.
  intros Hd Hkeys.
  destruct (NoDepsFacts.V3_run_quiet E fl newPackage pat Hd fuel cwd root
              fs Hkeys) as (e & st & Hrun & Hf & He).
  exists e, st. split; [exact Hrun|]. split; [exact Hf|].
  split; [exact He|].
  intros a b Hin.
  destruct (CheckInv3.V3_run_sound E fl newPackage pat (S fuel) cwd root
              fs e st Hrun) as ((H1 & _) & _).
  destruct (H1 a b Hin) as [Hbad _]. congruence.
Qed.

(** X17 on the example with the dependency [d], which uses [t.v1]:
with [-d] nothing is reported. *)
Lemma V3_no_dependencies_never_fails_witness :
  exists e st,
    V3.run Example.E2 (V3.MkFlags EmptyString false true) "t.v2"
      (VersionSpec.derived "t") 1 "/w" Example.root2 Example.fs2
    = Some (e, st)
    /\ World.failed st = false
    /\ (e = World.Exit 0 \/ e = World.Panic)
    /\ forall a b, ~ In (World.InconsistentPath a b) (World.stderr st).
Proof.
  apply (V3_no_dependencies_never_fails Example.E2
           (V3.MkFlags EmptyString false true) "t.v2"
           (VersionSpec.derived "t") 0 "/w" Example.root2 Example.fs2);
    [reflexivity|].
  vm_compute. repeat constructor. eexists. reflexivity.
Defined.

(** X18.  [changeVersion] of the last version on a file that can be
    read and whose import literals unquote to paths for which [fixPath]
    returns: it returns whether [fixPath] changes one of the paths.
    When it changes none, or with [-n], [os.Create] is called on no
    file and none is changed.  Otherwise [os.Create] is called on this
    file and on no other; the text that is printed is that of the
    parsed tree in which the literal of every import that [fixPath]
    changes is the quoted result of [fixPath], and everything else is
    as it was, and the file holds this text when [os.Create] and the
    writes end without an error.  An error is only logged: when
    [os.Create] fails the file is left as it was, and when a write
    fails it holds the first bytes of the text. *)
Theorem V3_changeVersion_spec {Rest : Type} (E : Env.t Rest)
    (fl : V3.flags) (newPackage : string) (pat : Regexp.Regexp)
    (path : string) (st : World.state) (src : string)
    (f : World.AstFile Rest) (err : bool) (imps ps : list string) :
  World.files st !! path = Some src ->
  Env.parse E src = (f, err) ->
  mapM (Env.Unquote E) (World.ImportValues f) = Some imps ->
  mapM (V3.fixPath newPackage pat) imps = Some ps ->
  exists st',
    V3.changeVersion E fl newPackage pat path st
    = World.Returns (ChangeWords3.anyChanged imps ps) st'
    /\ if negb (ChangeWords3.anyChanged imps ps) || V3.noEdit fl
       then World.files st' = World.files st
            /\ World.created st' = World.created st
       else
         let text :=
           Env.Fprint E
             (World.MkAstFile
                (ChangeWords3.newValues E (World.ImportValues f) imps ps)
                (World.rest f)) in
         World.created st' = path :: World.created st
         /\ World.files st'
            = match Env.Write E path text with
              | World.Written => <[path := text]> (World.files st)
              | World.CreateFails _ => World.files st
              | World.WriteFails _ n =>
                  <[path := Go.take n text]> (World.files st)
              end
         /\ World.stderr st'
            = World.stderr st
              ++ (if err then [World.CannotParse path] else [])
              ++ match Env.Write E path text with
                 | World.Written => []
                 | World.CreateFails e =>
                     World.CannotCreateFile :: World.writeLines e
                 | World.WriteFails e _ => World.writeLines (Some e)
                 end.
Proof.
  intros Hsrc Hparse Hu Hf. unfold V3.changeVersion.
  rewrite Hsrc, Hparse.
  rewrite (V3ChangeFacts.V3_fixImports_spec E newPackage pat _ _ _ Hu Hf).
  destruct (negb (ChangeWords3.anyChanged imps ps) || V3.noEdit fl) eqn:Hc.
  - eexists. split; [reflexivity|]. destruct err; split; reflexivity.
  - apply orb_false_iff in Hc as [Hc _]. apply negb_false_iff in Hc.
    rewrite Hc. cbv zeta. eexists. split; [reflexivity|].
    split; [destruct err; reflexivity|].
    split; [destruct err; reflexivity|].
    cbn [World.stderr World.write_file].
    destruct err; cbn [World.stderr World.logf];
      rewrite <- ?List.app_assoc; reflexivity.
Qed.

(** X18 on the example: the file of [r] imports [t.v1] and [d], and
    can be written. *)
Lemma V3_changeVersion_spec_witness :
  exists st',
    V3.changeVersion Example.E2 Example.noFlags "t.v2"
      (VersionSpec.derived "t") "/w/a.go" (World.initial Example.fs2)
    = World.Returns true st'
    /\ World.created st' = ["/w/a.go"]
    /\ World.files st'
       = <["/w/a.go" := Example.source ["t.v2"; "d"]]> Example.fs2
    /\ World.stderr st' = [].
Proof.
  destruct (V3_changeVersion_spec Example.E2 Example.noFlags "t.v2"
              (VersionSpec.derived "t") "/w/a.go"
              (World.initial Example.fs2) (Example.source ["t.v1"; "d"])
              (fst (Example.parse (Example.source ["t.v1"; "d"]))) false
              ["t.v1"; "d"] ["t.v2"; "d"]
              eq_refl eq_refl eq_refl eq_refl) as (st' & H1 & H2).
  exists st'. split; [exact H1|]. exact H2.
Defined.

(** X19.  [src/govers.go] leaves a consistent tree alone: when no
    package that [build.Import] finds imports the new package path in
    another version, a run of [main] that ends does so with status 0,
    has written and created no file and printed nothing, and has no
    line [uses] on standard error. *)
Theorem V1_consistent_tree_untouched {Rest : Type} (E : Env.t Rest)
    (fixPackage : string) (fuel : nat) (cwd : string) (root : World.tree)
    (fs : gmap string string) (e : World.ending) (st : World.state) :
  (forall q imp, ~ CheckWords.usesOther E fixPackage q imp) ->
  V1.main E fuel [fixPackage] (Some cwd) root fs = Some (e, st) ->
  e = World.Exit 0
  /\ World.files st = fs
  /\ World.created st = []
  /\ World.stdout st = []
  /\ forall q imp, ~ In (World.Uses q imp) (World.stderr st).
Proof.
  intros Hno Hrun. cbn [V1.main] in Hrun.
  exact (UntouchedFacts.V1_run_untouched E fixPackage fuel cwd root fs e st
           Hno Hrun).
Qed.

(** X19 on the example, for a new package path that nothing there
    imports in any version. *)
Lemma V1_consistent_tree_untouched_witness :
  match V1.main Example.E1 10 ["z/v2/y"] (Some "/w") Example.root1
Example.fs1 with
| Some (e, st) =>
e = World.Exit 0 /\ World.files st = Example.fs1
/\ World.created st = [] /\ World.stdout st = []
| None => False
end.
Proof.
  assert (Hno : forall q imp,
             ~ CheckWords.usesOther Example.E1 "z/v2/y" q imp).
  { intros q imp (pkg & HI & Hin & Hc & _). cbn in HI.
    repeat match type of HI with
           | context [String.eqb q ?k] =>
               destruct (String.eqb q k);
               [injection HI as <-; cbn in Hin;
                repeat (destruct Hin as [<-|Hin];
                        [vm_compute in Hc; discriminate|]);
                destruct Hin|]
           end.
    discriminate. }
  destruct (V1.main _ _ _ _ _ _) as [[e st]|] eqn:Hrun;
    [|vm_compute in Hrun; discriminate].
  destruct (V1_consistent_tree_untouched Example.E1 "z/v2/y" 10 "/w"
Example.root1 Example.fs1 e st Hno Hrun)
as (H1 & H2 & H3 & H4 & _).
auto.
Defined.

(** X20.  The last version leaves a consistent tree alone: when
    [fixPath] changes the resolved path of no import, test imports
    included, of any package that [build.Import] finds, a run of [main]
    that ends has written and created no file, printed nothing and
    recorded no failure, and its status is 0 unless [fixPath]
    panicked. *)
Theorem V3_consistent_tree_untouched {Rest : Type} (E : Env.t Rest)
    (fuel : nat) (fl : V3.flags) (newPackage : string)
    (pat : Regexp.Regexp) (cwd : string) (root : World.tree)
    (fs : gmap string string) (e : World.ending) (st : World.state) :
  V3.oldPackagePatOf fl newPackage = Some (World.Ready pat) ->
  (forall q fromDir pkg impPath,
      Env.Import E q fromDir = (pkg, World.NoErr) ->
      In impPath (CheckWords3.allImports pkg) ->
      ~ CheckWords3.changes newPackage pat
          (CheckWords3.resolved E pkg impPath)) ->
  V3.main E fuel fl [newPackage] (Some cwd) root fs = Some (e, st) ->
  (e = World.Exit 0 \/ e = World.Panic)
  /\ World.files st = fs
  /\ World.created st = []
  /\ World.stdout st = []
  /\ World.failed st = false.
Proof.
  intros Hpat Hno Hrun. cbn [V3.main] in Hrun. rewrite Hpat in Hrun.
  exact (UntouchedFacts.V3_run_untouched E fl newPackage pat fuel cwd root
           fs e st Hno Hrun).
Qed.

(** X20 on the example, for a new package path that nothing there
    imports in any version. *)
Lemma V3_consistent_tree_untouched_witness :
  match V3.main Example.E3 10 Example.noFlags ["z.v2"] (Some "/w")
Example.root2 Example.fs3 with
| Some (e, st) =>
(e = World.Exit 0 \/ e = World.Panic)
/\ World.files st = Example.fs3
/\ World.created st = [] /\ World.stdout st = []
| None => False
end.
Proof.
  assert (Hpat : V3.oldPackagePatOf Example.noFlags "z.v2"
                 = Some (World.Ready (VersionSpec.derived "z")))
    by (vm_compute; reflexivity).
  assert (Hno : forall q fromDir pkg impPath,
             Env.Import Example.E3 q fromDir = (pkg, World.NoErr) ->
             In impPath (CheckWords3.allImports pkg) ->
             ~ CheckWords3.changes "z.v2" (VersionSpec.derived "z")
                 (CheckWords3.resolved Example.E3 pkg impPath)).
  { intros q d pkg imp HI Hin (p & Hp & Hne). cbn in HI.
    repeat match type of HI with
           | context [String.eqb q ?k] =>
               destruct (String.eqb q k);
               [injection HI as <-; cbn in Hin;
                repeat (destruct Hin as [<-|Hin];
                        [vm_compute in Hp; injection Hp as <-;
                         apply Hne; reflexivity|]);
                destruct Hin|]
           end.
    discriminate. }
  destruct (V3.main _ _ _ _ _ _ _) as [[e st]|] eqn:Hrun;
    [|vm_compute in Hrun; discriminate].
  destruct (V3_consistent_tree_untouched Example.E3 10 Example.noFlags
              "z.v2" (VersionSpec.derived "z") "/w" Example.root2
Example.fs3 e st Hpat Hno Hrun) as (H1 & H2 & H3 & H4 & _).
auto.
Defined.

(** X21.  In the last version a second pass over a rewritten file
    changes nothing: when [fixPath] leaves its own results as they are,
    [strconv.Unquote] reads back what [strconv.Quote] wrote and the
    parser reads back the tree that was printed, [changeVersion] on a
    file that it has just rewritten, with [os.Create] and the writes
    ending without an error, returns false and leaves the state, the
    file included, as it is. *)
Theorem V3_second_pass_changes_nothing {Rest : Type} (E : Env.t Rest)
    (fl : V3.flags) (newPackage : string) (pat : Regexp.Regexp)
    (path : string) (st : World.state) (src : string)
    (f : World.AstFile Rest) (err : bool) (vs : list string) :
  V3.noEdit fl = false ->
  (forall p q, V3.fixPath newPackage pat p = Some q ->
               V3.fixPath newPackage pat q = Some q) ->
  (forall s, Env.Unquote E (Env.Quote E s) = Some s) ->
  World.files st !! path = Some src ->
  Env.parse E src = (f, err) ->
  V3.fixImports E newPackage pat (World.ImportValues f) = Some (vs, true) ->
  Env.Write E path (Env.Fprint E (World.MkAstFile vs (World.rest f)))
  = World.Written ->
  Env.parse E (Env.Fprint E (World.MkAstFile vs (World.rest f)))
  = (World.MkAstFile vs (World.rest f), false) ->
  exists st',
    V3.changeVersion E fl newPackage pat path st = World.Returns true st'
    /\ World.files st' !! path
       = Some (Env.Fprint E (World.MkAstFile vs (World.rest f)))
    /\ V3.changeVersion E fl newPackage pat path st'
       = World.Returns false st'.
Proof.
  intros Hn Hidem Hq Hsrc Hparse Hfix Hwrite Hround.
  unfold V3.changeVersion at 1. rewrite Hsrc, Hparse, Hfix, Hn.
  cbn [negb orb]. cbv zeta. rewrite Hwrite.
  eexists. split; [reflexivity|].
  assert (Hnew : World.files
                   (World.write_file World.Written path
                      (Env.Fprint E (World.MkAstFile vs (World.rest f)))
                      (if err then World.logf (World.CannotParse path) st
                       else st)) !! path
                 = Some (Env.Fprint E (World.MkAstFile vs (World.rest f))))
    by (cbn; apply lookup_insert_eq).
  split; [exact Hnew|].
  unfold V3.changeVersion. rewrite Hnew, Hround. cbn [World.ImportValues].
  rewrite (V3ChangeFacts.V3_fixImports_twice E newPackage pat _ Hq Hidem
             _ _ Hfix).
  reflexivity.
Qed.

(** X21 on the example: the file of [r], once rewritten for [t.v2], is
    left as it is. *)
Lemma V3_second_pass_changes_nothing_witness :
  exists st',
    V3.changeVersion Example.E2 Example.noFlags "t.v2"
      (VersionSpec.derived "t") "/w/a.go" (World.initial Example.fs2)
    = World.Returns true st'
    /\ World.files st' !! "/w/a.go" = Some (Example.source ["t.v2"; "d"])
    /\ V3.changeVersion Example.E2 Example.noFlags "t.v2"
         (VersionSpec.derived "t") "/w/a.go" st'
       = World.Returns false st'.
Proof.
  destruct (V3_second_pass_changes_nothing Example.E2 Example.noFlags
              "t.v2" (VersionSpec.derived "t") "/w/a.go"
              (World.initial Example.fs2) (Example.source ["t.v1"; "d"])
              (fst (Example.parse (Example.source ["t.v1"; "d"]))) false
              (Example.Quote <$> ["t.v2"; "d"]))
    as (st' & H1 & H2 & H3); try reflexivity.
  - intros p q.
    apply (IdemFacts.fixPath_derived_twice "t" "." "2" EmptyString p q);
      [reflexivity|discriminate|reflexivity|left; reflexivity].
  - apply ExampleFacts.Unquote_Quote.
  - exists st'. split; [exact H1|]. split; [exact H2|exact H3].
Defined.

(** X22.  In the last version no inconsistent import is missed.  Let
    the import table be keyed by package path and take no account of
    the directory.  When a run of [main] ends without a panic, then for
    every package that is marked as checked and that [build.Import]
    finds, and every import of it that [checkPackage] looks at (those
    of its tests too when the package is being edited) and that
    [fixPath] changes: a package that is being edited is marked as
    needing an edit, and for any other package the line [package q is
    using inconsistent path imp] is on standard error and the exit
    status is not zero. *)
Theorem V3_check_is_complete {Rest : Type} (E : Env.t Rest) (fuel : nat)
    (fl : V3.flags) (newPackage : string) (pat : Regexp.Regexp)
    (cwd : string) (root : World.tree) (fs : gmap string string)
    (e : World.ending) (st : World.state) :
  ReachWords3.keyed E ->
  ReachWords3.dirFree E ->
  V3.oldPackagePatOf fl newPackage = Some (World.Ready pat) ->
  V3.main E fuel fl [newPackage] (Some cwd) root fs = Some (e, st) ->
  e <> World.Panic ->
  forall q pkg imp p,
    World.is_checked q st = true ->
    Env.Import E q "." = (pkg, World.NoErr) ->
    In imp (ReachWords3.considered st q pkg) ->
    V3.fixPath newPackage pat imp = Some p ->
    p <> imp ->
    match World.editPkgs st !! q with
    | Some ep => World.needsEdit ep = true
    | None =>
        In (World.InconsistentPath q imp) (World.stderr st)
        /\ World.status_of e <> 0
    end.
Proof.
  intros Hkey Hdir Hpat Hrun He q pkg imp p Hq HI Hin Hfix Hne.
  cbn [V3.main] in Hrun. rewrite Hpat in Hrun.
  destruct (SettledFacts3.V3_run_settled E fl newPackage pat Hkey Hdir fuel
              cwd root fs e st Hrun He) as [H1 _].
  destruct (H1 q Hq pkg HI imp p Hin Hfix) as [A _]. specialize (A Hne).
  destruct (World.editPkgs st !! q); [exact A|].
  destruct A as [A1 A2]. split; [exact A1|].
  destruct (CheckInv3.V3_run_sound E fl newPackage pat fuel cwd root fs
              e st Hrun) as (_ & _ & He2).
  destruct (He2 A2) as [-> | ->]; discriminate.
Qed.

(** X22 on the example: the dependency [d] imports [t.v1]. *)
Lemma V3_check_is_complete_witness :
  match V3.main Example.E2 10 Example.noFlags ["t.v2"] (Some "/w")
Example.root2 Example.fs2 with
| Some (e, st) =>
World.is_checked "d" st = true
/\ In (World.InconsistentPath "d" "t.v1") (World.stderr st)
/\ World.status_of e <> 0
| None => False
end.
Proof.
  assert (Hpat : V3.oldPackagePatOf Example.noFlags "t.v2"
                 = Some (World.Ready (VersionSpec.derived "t")))
    by (vm_compute; reflexivity).
  destruct (V3.main _ _ _ _ _ _ _) as [[e st]|] eqn:Hrun;
    [|vm_compute in Hrun; discriminate].
  assert (He : e <> World.Panic)
    by (vm_compute in Hrun; injection Hrun as <- _; discriminate).
  assert (Hd : World.is_checked "d" st = true)
    by (vm_compute in Hrun; injection Hrun as _ <-; reflexivity).
  assert (Hnone : World.editPkgs st !! "d" = None)
    by (vm_compute in Hrun; injection Hrun as _ <-; reflexivity).
  assert (Hkey : ReachWords3.keyed Example.E2)
    by (apply ExampleFacts.env_keyed; repeat constructor).
  split; [exact Hd|].
  pose proof (V3_check_is_complete Example.E2 10 Example.noFlags "t.v2"
                (VersionSpec.derived "t") "/w" Example.root2 Example.fs2
                e st Hkey
                (ExampleFacts.env_dirFree _ _) Hpat Hrun He
                "d" (Example.package "d" ["t.v1"]) "t.v1" "t.v2" Hd
                eq_refl) as H.
  unfold ReachWords3.considered in H. rewrite Hnone in H.
  apply H; [left; reflexivity|reflexivity|discriminate].
Defined.

(** X23.  Without [-d] the check of the last version goes through the
    whole import graph.  Under the same conditions on the import table,
    when a run of [main] ends without a panic, every package of the
    first loop is marked as checked; and for every package that is
    marked as checked and that [build.Import] finds, and every import
    of it that [checkPackage] looks at, the path that [fixPath] gives
    for the import is marked as checked too, unless it is [C], or
    [fixPath] changes the import and the package is not being edited:
    such an import is reported and not followed. *)
Theorem V3_check_follows_imports {Rest : Type} (E : Env.t Rest)
    (fuel : nat) (fl : V3.flags) (newPackage : string)
    (pat : Regexp.Regexp) (cwd : string) (root : World.tree)
    (fs : gmap string string) (e : World.ending) (st : World.state) :
  ReachWords3.keyed E ->
  ReachWords3.dirFree E ->
  V3.noDependencies fl = false ->
  V3.oldPackagePatOf fl newPackage = Some (World.Ready pat) ->
  V3.main E fuel fl [newPackage] (Some cwd) root fs = Some (e, st) ->
  e <> World.Panic ->
  (forall p,
      In p (Env.rangeOrder E 0
              (World.editPkgs
                 (Walk.walkDir E cwd root (World.initial fs)))) ->
      p = "C" \/ World.is_checked p st = true)
  /\ forall q pkg imp p,
       World.is_checked q st = true ->
       Env.Import E q "." = (pkg, World.NoErr) ->
       In imp (ReachWords3.considered st q pkg) ->
       V3.fixPath newPackage pat imp = Some p ->
       p = imp \/ is_Some (World.editPkgs st !! q) ->
       p = "C" \/ World.is_checked p st = true.
Proof.
  intros Hkey Hdir Hd Hpat Hrun He.
  cbn [V3.main] in Hrun. rewrite Hpat in Hrun.
  destruct (SettledFacts3.V3_run_settled E fl newPackage pat Hkey Hdir fuel
              cwd root fs e st Hrun He) as [H1 H2].
  split; [exact H2|].
  intros q pkg imp p Hq HI Hin Hfix Hor.
  destruct (H1 q Hq pkg HI imp p Hin Hfix) as [_ B]. apply B; assumption.
Qed.

(** X23 on the example without an inconsistent dependency: the package
    [r] imports [t.v1], which [fixPath] turns into [t.v2]; [t.v2] is
    checked. *)
Lemma V3_check_follows_imports_witness :
  match V3.main Example.E3 10 Example.noFlags ["t.v2"] (Some "/w")
Example.root2 Example.fs3 with
| Some (e, st) =>
World.is_checked "r" st = true
/\ World.is_checked "t.v2" st = true
| None => False
end.
Proof.
  assert (Hpat : V3.oldPackagePatOf Example.noFlags "t.v2"
                 = Some (World.Ready (VersionSpec.derived "t")))
    by (vm_compute; reflexivity).
  destruct (V3.main _ _ _ _ _ _ _) as [[e st]|] eqn:Hrun;
    [|vm_compute in Hrun; discriminate].
  assert (He : e <> World.Panic)
    by (vm_compute in Hrun; injection Hrun as <- _; discriminate).
  assert (Hsome : is_Some (World.editPkgs st !! "r"))
    by (vm_compute in Hrun; injection Hrun as _ <-; eexists; reflexivity).
  assert (Hkey : ReachWords3.keyed Example.E3)
    by (apply ExampleFacts.env_keyed; repeat constructor).
  destruct (V3_check_follows_imports Example.E3 10 Example.noFlags "t.v2"
              (VersionSpec.derived "t") "/w" Example.root2 Example.fs3
              e st Hkey
              (ExampleFacts.env_dirFree _ _) eq_refl Hpat Hrun He)
    as [H1 H2].
  assert (Hr : World.is_checked "r" st = true).
  { destruct (H1 "r") as [HC|Hr]; [|discriminate HC|exact Hr].
    vm_compute. left. reflexivity. }
  split; [exact Hr|].
  destruct (H2 "r" (Example.package "r" ["t.v1"]) "t.v1" "t.v2" Hr eq_refl)
    as [HC|Hc]; [| |right; exact Hsome|discriminate HC|exact Hc].
  - unfold ReachWords3.considered. destruct Hsome as [ep ->].
    left. reflexivity.
  - reflexivity.
Defined.



(** X25.  [fixPath] of the last version with the pattern
    [^(L versPat)(/|$)]: it never panics; a path that is [L], a version
    element with any of the separators, any digits and possibly
    [-unstable], and then nothing or a slash and more, becomes the new
    package path followed by what came after the version; and whenever
    it changes a path, the result is the new package path followed by
    nothing or by a slash and more. *)
Theorem V3_fixPath_any_version (newPackage L : string) :
  (forall p, V3.fixPath newPackage (VersionSpec.derived L) p <> None)
  /\ (forall sep ds u rest,
         VersionSpec.isSep sep = true ->
         ds <> EmptyString ->
         TagsSpec.all VersionSpec.isDigit ds = true ->
         u = EmptyString \/ u = "-unstable" ->
         VersionSpec.endOrSlash rest ->
         V3.fixPath newPackage (VersionSpec.derived L)
           ((L +:+ VersionSpec.version sep ds u) +:+ rest)
         = Some (newPackage +:+ rest))
  /\ (forall p q,
         V3.fixPath newPackage (VersionSpec.derived L) p = Some q ->
         q <> p ->
         exists rest,
           q = newPackage +:+ rest /\ VersionSpec.endOrSlash rest).
Proof.
  assert (Hinv : forall p caps,
             Regexp.findFrom (VersionSpec.derived L) p 0 = Some caps ->
             exists i,
               V3.fixPath newPackage (VersionSpec.derived L) p
               = Some (newPackage +:+ Go.drop i p)
               /\ VersionSpec.endOrSlash (Go.drop i p)).
  { intros p caps Hfind. pose proof Hfind as Hm.
    unfold VersionSpec.derived in Hm. rewrite IdemFacts.anchored_find in Hm.
    apply (IdemFacts.derived_match_inv L) in Hm as (i & Hcap & Hrest).
    exists i. split; [|exact Hrest].
    apply (IdemFacts.V3_fixPath_group1 _ _ _ _ _ Hfind Hcap). }
  assert (Hnone : forall p,
             Regexp.findFrom (VersionSpec.derived L) p 0 = None ->
             V3.fixPath newPackage (VersionSpec.derived L) p = Some p).
  { intros p Hfind. unfold V3.fixPath, Regexp.FindStringSubmatchIndex.
    rewrite Hfind. reflexivity. }
  split; [|split].
  - intros p.
    destruct (Regexp.findFrom (VersionSpec.derived L) p 0) as [caps|] eqn:Hf.
    + destruct (Hinv p caps Hf) as (i & -> & _). discriminate.
    + rewrite (Hnone p Hf). discriminate.
  - intros sep ds u rest Hsep Hne Hds Hu Hrest.
    destruct (IdemFacts.derived_match L sep ds u rest Hsep Hne Hds Hu Hrest)
      as (res & Hm & Hres).
    unfold VersionSpec.derived in Hm.
    rewrite <- IdemFacts.anchored_find in Hm.
    rewrite (IdemFacts.V3_fixPath_group1 _ _ _ _ _ Hm Hres).
    rewrite GoFacts.drop_app. reflexivity.
  - intros p q Hp Hne.
    destruct (Regexp.findFrom (VersionSpec.derived L) p 0) as [caps|] eqn:Hf.
    + destruct (Hinv p caps Hf) as (i & Hq & Hrest).
      rewrite Hq in Hp. injection Hp as <-. eauto.
    + rewrite (Hnone p Hf) in Hp. congruence.
Qed.

(** X25 on [gopkg.in/tomb]: an import of [gopkg.in/tomb/v2-unstable]
    becomes one of [gopkg.in/tomb.v3]. *)
Lemma V3_fixPath_any_version_witness :
  V3.fixPath "gopkg.in/tomb.v3" (VersionSpec.derived "gopkg.in/tomb")
    "gopkg.in/tomb/v2-unstable/sub" = Some "gopkg.in/tomb.v3/sub".
Proof.
  apply (proj1 (proj2 (V3_fixPath_any_version "gopkg.in/tomb.v3"
                         "gopkg.in/tomb"))
           "/"%char "2" "-unstable" "/sub");
    [reflexivity|discriminate|reflexivity|right; reflexivity|].
  right. eexists. reflexivity.
Defined.
